(** * MCDRDev-Autouploader: a shallow embedding of [uploader.py]

    The development follows the layout of the script.  Definitions:
    - [Chars]     characters, [str.endswith], [str.lower], UTF-8;
    - [Json]      the values the script loads and dumps, with the decoder
                  and the indenting encoder of the [json] module;
    - [Fs]        the file tree that [os.walk], [zipfile] and [os.remove]
                  work on, and path names;
    - [Py]        exceptions, events, the world a run works on and the
                  state-and-error monad in which the script is written;
    - [Uploader]  the functions of [uploader.py], under their own names;
    - [Samples], [Trace], [ArchiveSpec], [OrchestratorSpec]: sample worlds,
                  what a run adds to the history, and two sentences of the
                  specification as it words them.
    - [Steps]     the steps of [upload_plugin] that follow the archive.
    Properties: [FsFacts], [JsonFacts], [TraceFacts] for the libraries, then
    [ConfigProps], [TransportProps], [OrchestratorProps], [WatcherProps],
    [MainProps] and [ArchiveProps] for the script; [FrameFacts] for what a
    computation leaves alone, then [TransportOrder], [ConsoleProps],
    [InterruptProps], [ScratchProps], [StartupProps], [AutoModeProps] and
    [HandlerProps] for its edges: the order of the calls of a transport, the
    console loops, the watcher under an interrupt, the scratch archive, a
    second start, the end of the automatic mode, and the paths the handler
    reacts to.

    A Python [str] is represented by its UTF-8 bytes in a [string]. *)

From Stdlib Require Import List String Ascii ZArith NArith Lia Bool.
From Stdlib Require Import DecimalString.
Import ListNotations.

Set Warnings "-register-all".

Local Open Scope string_scope.
Local Open Scope list_scope.

(* ================================================================= *)
(** ** Characters and byte strings *)

Module Chars.

Definition dquote : ascii := "034"%char.
Definition newline : ascii := "010"%char.
Definition backslash : ascii := "\"%char.

Definition code (c : ascii) : N := N_of_ascii c.
Definition chr (n : N) : ascii := ascii_of_N n.

Definition is_digit (c : ascii) : bool :=
  ((48 <=? code c) && (code c <=? 57))%N.

Definition digit_val (c : ascii) : Z := Z.of_N (code c) - 48.

(** A hexadecimal digit, upper or lower case. *)
Definition hex_val (c : ascii) : option N :=
  let n := code c in
  if ((48 <=? n) && (n <=? 57))%N then Some (n - 48)%N
  else if ((97 <=? n) && (n <=? 102))%N then Some (n - 87)%N
  else if ((65 <=? n) && (n <=? 70))%N then Some (n - 55)%N
  else None.

Definition hex_digit (n : N) : ascii :=
  if (n <? 10)%N then chr (48 + n) else chr (87 + n).

(** The four whitespace characters of the JSON grammar. *)
Definition is_ws (c : ascii) : bool :=
  let n := code c in
  ((n =? 32) || (n =? 9) || (n =? 10) || (n =? 13))%N.

Fixpoint skip_ws (s : list ascii) : list ascii :=
  match s with
  | c :: r => if is_ws c then skip_ws r else s
  | [] => []
  end.

Fixpoint span_digits (s : list ascii) : list ascii * list ascii :=
  match s with
  | c :: r =>
      if is_digit c
      then let (ds, r') := span_digits r in (c :: ds, r')
      else ([], s)
  | [] => ([], [])
  end.

Fixpoint starts_with (p s : list ascii) : bool :=
  match p, s with
  | [], _ => true
  | a :: p', b :: s' => Ascii.eqb a b && starts_with p' s'
  | _ :: _, [] => false
  end.

(** [str.endswith]. *)
Definition endswith (s suffix : string) : bool :=
  starts_with (rev (list_ascii_of_string suffix))
              (rev (list_ascii_of_string s)).

(** [str.lower], on the ASCII letters.  The script only compares the result
    with words made of ASCII letters. *)
Definition lower_char (c : ascii) : ascii :=
  let n := code c in
  if ((65 <=? n) && (n <=? 90))%N then chr (n + 32) else c.

Fixpoint lower (s : string) : string :=
  match s with
  | EmptyString => EmptyString
  | String c r => String (lower_char c) (lower r)
  end.

(** UTF-8, in both directions, between code points and bytes. *)
Definition utf8_encode (n : N) : list ascii :=
  (if n <? 128 then [chr n]
   else if n <? 2048 then [chr (192 + n / 64); chr (128 + n mod 64)]
   else if n <? 65536 then
     [chr (224 + n / 4096); chr (128 + (n / 64) mod 64); chr (128 + n mod 64)]
   else
     [chr (240 + n / 262144); chr (128 + (n / 4096) mod 64);
      chr (128 + (n / 64) mod 64); chr (128 + n mod 64)])%N.

Fixpoint utf8_decode (bs : list ascii) : list N :=
  match bs with
  | [] => []
  | b1 :: r1 =>
      let n1 := code b1 in
      if (n1 <? 192)%N then n1 :: utf8_decode r1
      else if (n1 <? 224)%N then
        match r1 with
        | b2 :: r2 =>
            ((n1 - 192) * 64 + (code b2 - 128))%N :: utf8_decode r2
        | [] => [n1]
        end
      else if (n1 <? 240)%N then
        match r1 with
        | b2 :: b3 :: r3 =>
            ((n1 - 224) * 4096 + (code b2 - 128) * 64 + (code b3 - 128))%N
            :: utf8_decode r3
        | _ => n1 :: utf8_decode r1
        end
      else
        match r1 with
        | b2 :: b3 :: b4 :: r4 =>
            ((n1 - 240) * 262144 + (code b2 - 128) * 4096
             + (code b3 - 128) * 64 + (code b4 - 128))%N
            :: utf8_decode r4
        | _ => n1 :: utf8_decode r1
        end
  end.

End Chars.

(* ================================================================= *)
(** ** JSON values, [json.loads] and [json.dumps] *)

Module Json.
Import Chars.

(** What [json.load] returns: [None], [bool], [int], [float], [str], [list]
    and [dict].  A [float] is kept as the literal it was read from
    ([JFloat lit] stands for [float(lit)]); a [dict] keeps insertion order. *)
Inductive json : Type :=
| JNull
| JBool (b : bool)
| JInt (n : Z)
| JFloat (lit : string)
| JString (s : string)
| JArray (items : list json)
| JObject (members : list (string * json)).

Definition dict := list (string * json).

Fixpoint dict_get (k : string) (d : dict) : option json :=
  match d with
  | [] => None
  | (k', v) :: d' => if String.eqb k k' then Some v else dict_get k d'
  end.

(** [d[k] = v]: an existing key keeps its place and takes the new value. *)
Fixpoint dict_set (k : string) (v : json) (d : dict) : dict :=
  match d with
  | [] => [(k, v)]
  | (k', v') :: d' =>
      if String.eqb k k' then (k, v) :: d' else (k', v') :: dict_set k v d'
  end.

(* ----------------------------------------------------------------- *)
(** *** Decoding *)

Inductive scan_result : Type :=
| Value (v : json) (rest : list ascii)
| Invalid
| Exhausted.

Definition int_of_digits (ds : list ascii) : Z :=
  fold_left (fun acc c => acc * 10 + digit_val c)%Z ds 0%Z.

(** The integer part of a number: an optional sign, then a single zero or a
    non-zero digit followed by digits. *)
Definition match_int (s : list ascii) : option (list ascii * list ascii) :=
  let '(sign, s1) :=
    match s with
    | c :: r => if Ascii.eqb c "-" then (["-"%char], r) else ([], s)
    | [] => ([], s)
    end in
  match s1 with
  | c :: r =>
      if Ascii.eqb c "0" then Some (sign ++ [c], r)
      else if is_digit c
           then let (ds, r') := span_digits s1 in Some (sign ++ ds, r')
           else None
  | [] => None
  end.

(** The optional fraction: a point followed by at least one digit. *)
Definition match_frac (s : list ascii) : list ascii * list ascii :=
  match s with
  | c :: r =>
      if Ascii.eqb c "." then
        match span_digits r with
        | ([], _) => ([], s)
        | (ds, r') => (c :: ds, r')
        end
      else ([], s)
  | [] => ([], s)
  end.

(** The optional exponent: e or E, an optional sign, at least one digit. *)
Definition match_exp (s : list ascii) : list ascii * list ascii :=
  match s with
  | c :: r =>
      if Ascii.eqb c "e" || Ascii.eqb c "E" then
        let '(sg, r1) :=
          match r with
          | d :: r' =>
              if Ascii.eqb d "+" || Ascii.eqb d "-" then ([d], r') else ([], r)
          | [] => ([], r)
          end in
        match span_digits r1 with
        | ([], _) => ([], s)
        | (ds, r2) => (c :: sg ++ ds, r2)
        end
      else ([], s)
  | [] => ([], s)
  end.

Definition int_of_literal (l : list ascii) : Z :=
  match l with
  | c :: ds => if Ascii.eqb c "-" then (- int_of_digits ds)%Z
               else int_of_digits l
  | [] => 0%Z
  end.

Definition match_number (s : list ascii) : option (json * list ascii) :=
  match match_int s with
  | None => None
  | Some (i, r) =>
      let (f, r1) := match_frac r in
      let (e, r2) := match_exp r1 in
      match f, e with
      | [], [] => Some (JInt (int_of_literal i), r2)
      | _, _ => Some (JFloat (string_of_list_ascii (i ++ f ++ e)), r2)
      end
  end.

Definition hex4 (a b c d : ascii) : option N :=
  match hex_val a, hex_val b, hex_val c, hex_val d with
  | Some x, Some y, Some z, Some w => Some (((x * 16 + y) * 16 + z) * 16 + w)%N
  | _, _, _, _ => None
  end.

Definition simple_escape (c : ascii) : option ascii :=
  let n := code c in
  if (n =? 34)%N then Some dquote
  else if (n =? 92)%N then Some backslash
  else if (n =? 47)%N then Some "/"%char
  else if (n =? 98)%N then Some (chr 8)
  else if (n =? 102)%N then Some (chr 12)
  else if (n =? 110)%N then Some (chr 10)
  else if (n =? 114)%N then Some (chr 13)
  else if (n =? 116)%N then Some (chr 9)
  else None.

Definition is_high_surrogate (n : N) : bool := ((55296 <=? n) && (n <=? 56319))%N.
Definition is_low_surrogate (n : N) : bool := ((56320 <=? n) && (n <=? 57343))%N.

(** The body of a string, after the opening quote, up to the closing one
    (strict mode: a raw control character is an error).  [acc] holds the
    bytes read so far, last first. *)
Fixpoint scanstring (s : list ascii) (acc : list ascii)
  : option (string * list ascii) :=
  match s with
  | [] => None
  | c :: r =>
      if Ascii.eqb c dquote then Some (string_of_list_ascii (rev acc), r)
      else if Ascii.eqb c backslash then
        match r with
        | [] => None
        | e :: r1 =>
            if Ascii.eqb e "u" then
              match r1 with
              | h1 :: h2 :: h3 :: h4 :: r2 =>
                  match hex4 h1 h2 h3 h4 with
                  | None => None
                  | Some uni =>
                      let single := scanstring r2 (rev (utf8_encode uni) ++ acc) in
                      if is_high_surrogate uni then
                        match r2 with
                        | b :: u :: g1 :: g2 :: g3 :: g4 :: r3 =>
                            if Ascii.eqb b backslash && Ascii.eqb u "u" then
                              match hex4 g1 g2 g3 g4 with
                              | None => None
                              | Some uni2 =>
                                  if is_low_surrogate uni2 then
                                    let cp := (65536 + (uni - 55296) * 1024
                                               + (uni2 - 56320))%N in
                                    scanstring r3 (rev (utf8_encode cp) ++ acc)
                                  else single
                              end
                            else single
                        | b :: u :: _ =>
                            if Ascii.eqb b backslash && Ascii.eqb u "u"
                            then None else single
                        | _ => single
                        end
                      else single
                  end
              | _ => None
              end
            else
              match simple_escape e with
              | Some x => scanstring r1 (x :: acc)
              | None => None
              end
        end
      else if (code c <? 32)%N then None
      else scanstring r (c :: acc)
  end.

Definition literal (word : string) (v : json) (s : list ascii)
  : option (json * list ascii) :=
  let w := list_ascii_of_string word in
  if starts_with w s then Some (v, skipn (List.length w) s) else None.

(** The elements of an array, after the opening bracket and with at least
    one element to come. *)
Fixpoint array_items (scan : list ascii -> scan_result) (n : nat)
                     (acc : list json) (s : list ascii) : scan_result :=
  match n with
  | O => Exhausted
  | S n' =>
      match scan s with
      | Value v r =>
          match skip_ws r with
          | c :: r' =>
              if Ascii.eqb c "]" then Value (JArray (rev (v :: acc))) r'
              else if Ascii.eqb c ","
                   then array_items scan n' (v :: acc) (skip_ws r')
                   else Invalid
          | [] => Invalid
          end
      | other => other
      end
  end.

(** The members of an object, [s] starting at the quote that opens a key. *)
Fixpoint object_members (scan : list ascii -> scan_result) (n : nat)
                        (acc : dict) (s : list ascii) : scan_result :=
  match n with
  | O => Exhausted
  | S n' =>
      match s with
      | q :: r0 =>
          if Ascii.eqb q dquote then
            match scanstring r0 [] with
            | None => Invalid
            | Some (key, r) =>
                match skip_ws r with
                | c :: r1 =>
                    if Ascii.eqb c ":" then
                      match scan (skip_ws r1) with
                      | Value v r2 =>
                          let acc' := dict_set key v acc in
                          match skip_ws r2 with
                          | d :: r3 =>
                              if Ascii.eqb d "}" then Value (JObject acc') r3
                              else if Ascii.eqb d ","
                                   then object_members scan n' acc' (skip_ws r3)
                                   else Invalid
                          | [] => Invalid
                          end
                      | other => other
                      end
                    else Invalid
                | [] => Invalid
                end
            end
          else Invalid
      | [] => Invalid
      end
  end.

(** One value at the head of [s] (no leading whitespace is skipped here). *)
Fixpoint scan_once (fuel : nat) (s : list ascii) : scan_result :=
  match fuel with
  | O => Exhausted
  | S fuel' =>
      match s with
      | [] => Invalid
      | c :: r =>
          if Ascii.eqb c dquote then
            match scanstring r [] with
            | Some (str, r') => Value (JString str) r'
            | None => Invalid
            end
          else if Ascii.eqb c "{" then
            match skip_ws r with
            | d :: r' =>
                if Ascii.eqb d "}" then Value (JObject []) r'
                else object_members (scan_once fuel') fuel' [] (d :: r')
            | [] => Invalid
            end
          else if Ascii.eqb c "[" then
            match skip_ws r with
            | d :: r' =>
                if Ascii.eqb d "]" then Value (JArray []) r'
                else array_items (scan_once fuel') fuel' [] (d :: r')
            | [] => Invalid
            end
          else
            let try := fun (o : option (json * list ascii)) (k : scan_result) =>
                         match o with Some (v, r') => Value v r' | None => k end in
            try (literal "null" JNull s)
            (try (literal "true" (JBool true) s)
            (try (literal "false" (JBool false) s)
            (try (match_number s)
            (try (literal "NaN" (JFloat "NaN") s)
            (try (literal "Infinity" (JFloat "Infinity") s)
            (try (literal "-Infinity" (JFloat "-Infinity") s)
             Invalid))))))
      end
  end.

Inductive decoded : Type :=
| Parsed (v : json)
| JSONDecodeError.

(** [json.loads]: one value, surrounded by optional whitespace, and nothing
    else.  The fuel exceeds the length of the text and every recursive call
    is made on a shorter text, so the scanner never ends for lack of fuel
    ([JsonFacts.loads_never_exhausted]). *)
Definition loads (text : string) : decoded :=
  let s := list_ascii_of_string text in
  match scan_once (S (List.length s)) (skip_ws s) with
  | Value v r => match skip_ws r with [] => Parsed v | _ :: _ => JSONDecodeError end
  | Invalid | Exhausted => JSONDecodeError
  end.

(* ----------------------------------------------------------------- *)
(** *** Encoding *)

Definition u_escape (n : N) : string :=
  string_of_list_ascii
    [backslash; "u"%char; hex_digit (n / 4096); hex_digit ((n / 256) mod 16);
     hex_digit ((n / 16) mod 16); hex_digit (n mod 16)]%N.

(** One code point under [ensure_ascii]: the short escapes, the printable
    ASCII characters as they are, everything else as a [u] escape, with a
    surrogate pair above the basic plane. *)
Definition escape_ascii (n : N) : string :=
  (if n =? 34 then String backslash (String dquote "")
   else if n =? 92 then String backslash (String backslash "")
   else if n =? 10 then "\n"
   else if n =? 13 then "\r"
   else if n =? 9 then "\t"
   else if n =? 12 then "\f"
   else if n =? 8 then "\b"
   else if (32 <=? n) && (n <=? 126) then String (chr n) ""
   else if n <? 65536 then u_escape n
   else let v := n - 65536 in
        u_escape (55296 + (v / 1024) mod 1024) ++ u_escape (56320 + v mod 1024))%N%string.

Definition encode_basestring_ascii (s : string) : string :=
  String dquote
    (String.concat "" (map escape_ascii (utf8_decode (list_ascii_of_string s)))
     ++ String dquote "")%string.

Definition string_of_Z (n : Z) : string := NilZero.string_of_int (Z.to_int n).

Fixpoint spaces (n : nat) : string :=
  match n with
  | O => ""
  | S n' => String " " (spaces n')
  end.

Definition newline_indent (indent level : nat) : string :=
  String newline (spaces (indent * level)).

(** [json.dumps(v, indent=indent)] at nesting depth [level]: the item
    separator is a comma, the key separator a colon and a space, and every
    item of a non-empty container starts on a line of its own.  A float is
    written as the literal it stands for. *)
Fixpoint iterencode (indent level : nat) (v : json) {struct v} : string :=
  (match v with
  | JNull => "null"
  | JBool true => "true"
  | JBool false => "false"
  | JInt n => string_of_Z n
  | JFloat lit => lit
  | JString s => encode_basestring_ascii s
  | JArray [] => "[]"
  | JArray (x :: xs) =>
      "[" ++ newline_indent indent (S level) ++ iterencode indent (S level) x
      ++ (fix rest (l : list json) : string :=
            match l with
            | [] => ""
            | y :: l' =>
                "," ++ newline_indent indent (S level)
                ++ iterencode indent (S level) y ++ rest l'
            end) xs
      ++ newline_indent indent level ++ "]"
  | JObject [] => "{}"
  | JObject ((k, x) :: ms) =>
      "{" ++ newline_indent indent (S level)
      ++ encode_basestring_ascii k ++ ": " ++ iterencode indent (S level) x
      ++ (fix rest (l : list (string * json)) : string :=
            match l with
            | [] => ""
            | (k', y) :: l' =>
                "," ++ newline_indent indent (S level)
                ++ encode_basestring_ascii k' ++ ": "
                ++ iterencode indent (S level) y ++ rest l'
            end) ms
      ++ newline_indent indent level ++ "}"
  end)%string.

Definition dumps (indent : nat) (v : json) : string := iterencode indent 0 v.

End Json.

(* ================================================================= *)
(** ** The file tree *)

Module Fs.

(** What a regular file holds: plain bytes, or a zip archive given by its
    entries (name and content) in the order they were written. *)
Inductive content : Type :=
| Bytes (data : string)
| Archive (entries : list (string * content)).

(** A directory lists its entries in the order the file system reports them. *)
Inductive node : Type :=
| File (c : content)
| Dir (entries : list (string * node)).

(** A resolved absolute path: the names from the root down. *)
Definition path := list string.

Section NodeInduction.
Variable P : node -> Prop.
Hypothesis HFile : forall c, P (File c).
Hypothesis HDir : forall es, Forall (fun e => P (snd e)) es -> P (Dir es).

Fixpoint node_induction (n : node) : P n :=
  match n with
  | File c => HFile c
  | Dir es =>
      HDir es
        ((fix all (l : list (string * node)) : Forall (fun e => P (snd e)) l :=
            match l with
            | [] => Forall_nil _
            | (name, x) :: l' =>
                Forall_cons (name, x) (node_induction x) (all l')
            end) es)
  end.

End NodeInduction.

Fixpoint assoc (name : string) (es : list (string * node)) : option node :=
  match es with
  | [] => None
  | (k, x) :: es' => if String.eqb name k then Some x else assoc name es'
  end.

(** Replace the entry called [name], or add it at the end of the listing. *)
Fixpoint put (name : string) (x : node) (es : list (string * node))
  : list (string * node) :=
  match es with
  | [] => [(name, x)]
  | (k, y) :: es' =>
      if String.eqb name k then (k, x) :: es' else (k, y) :: put name x es'
  end.

Fixpoint drop (name : string) (es : list (string * node))
  : list (string * node) :=
  match es with
  | [] => []
  | (k, y) :: es' =>
      if String.eqb name k then es' else (k, y) :: drop name es'
  end.

Fixpoint lookup (p : path) (n : node) : option node :=
  match p with
  | [] => Some n
  | name :: p' =>
      match n with
      | Dir es =>
          match assoc name es with
          | Some x => lookup p' x
          | None => None
          end
      | File _ => None
      end
  end.

Definition is_dir (root : node) (p : path) : bool :=
  match lookup p root with
  | Some (Dir _) => true
  | _ => false
  end.

(** [os.path.exists]. *)
Definition exists_at (root : node) (p : path) : bool :=
  match lookup p root with
  | Some _ => true
  | None => false
  end.

(** Opening [p] for writing and storing [c] in it: the file is created in
    an existing directory or replaces the regular file of that name.
    [None] when the directory is missing or [p] names a directory. *)
Fixpoint store (p : path) (c : content) (n : node) : option node :=
  match p, n with
  | [], _ => None
  | _ :: _, File _ => None
  | [name], Dir es =>
      match assoc name es with
      | Some (Dir _) => None
      | _ => Some (Dir (put name (File c) es))
      end
  | name :: p', Dir es =>
      match assoc name es with
      | Some x =>
          match store p' c x with
          | Some x' => Some (Dir (put name x' es))
          | None => None
          end
      | None => None
      end
  end.

(** [os.remove]: [None] when [p] is missing or names a directory. *)
Fixpoint unlink (p : path) (n : node) : option node :=
  match p, n with
  | [], _ => None
  | _ :: _, File _ => None
  | [name], Dir es =>
      match assoc name es with
      | Some (File _) => Some (Dir (drop name es))
      | _ => None
      end
  | name :: p', Dir es =>
      match assoc name es with
      | Some x =>
          match unlink p' x with
          | Some x' => Some (Dir (put name x' es))
          | None => None
          end
      | None => None
      end
  end.

(* ----------------------------------------------------------------- *)
(** *** Path names *)

Fixpoint split_on (sep : ascii) (s : string) : list string :=
  match s with
  | EmptyString => [EmptyString]
  | String c r =>
      if Ascii.eqb c sep then EmptyString :: split_on sep r
      else match split_on sep r with
           | h :: t => String c h :: t
           | [] => [String c EmptyString]
           end
  end.

Definition is_absolute (s : string) : bool :=
  match s with
  | String c _ => Ascii.eqb c "/"
  | EmptyString => false
  end.

(** One component of a path name, from the directory [cur]. *)
Definition step (cur : path) (c : string) : path :=
  if String.eqb c "" || String.eqb c "." then cur
  else if String.eqb c ".." then removelast cur
  else cur ++ [c].

(** Name lookup: every component is looked up in an existing directory; the
    last one need not exist. *)
Fixpoint namei (root : node) (cur : path) (comps : list string) : option path :=
  match comps with
  | [] => Some cur
  | c :: rest => if is_dir root cur then namei root (step cur c) rest else None
  end.

(** The path a name denotes for a process whose working directory is [cwd];
    the empty name denotes nothing. *)
Definition resolve (root : node) (cwd : path) (s : string) : option path :=
  if String.eqb s "" then None
  else namei root (if is_absolute s then [] else cwd) (split_on "/" s).

(** [os.path.join] of two names. *)
Definition os_path_join (a b : string) : string :=
  if is_absolute b then b
  else if String.eqb a "" || Chars.endswith a "/" then (a ++ b)%string
  else (a ++ "/" ++ b)%string.

(* ----------------------------------------------------------------- *)
(** *** [os.walk] *)

(** The regular files below a directory, as paths relative to it, in the order
    [os.walk] reports them: the files of a directory first, then its
    subdirectories in turn.  Walking something that is not a directory
    reports nothing. *)
Fixpoint walk (rel : path) (n : node) : list path :=
  match n with
  | File _ => []
  | Dir es =>
      flat_map (fun e : string * node =>
                  match e with
                  | (name, File _) => [rel ++ [name]]
                  | (_, Dir _) => []
                  end) es
      ++
      flat_map (fun e : string * node =>
                  match e with
                  | (name, x) =>
                      match x with
                      | File _ => []
                      | Dir _ => walk (rel ++ [name]) x
                      end
                  end) es
  end.

(** The number of regular files in a tree, at any depth. *)
Fixpoint count_files (n : node) : nat :=
  match n with
  | File _ => 1
  | Dir es =>
      list_sum (map (fun e : string * node =>
                       match e with (_, x) => count_files x end) es)
  end.

(** No name occurs twice. *)
Fixpoint distinct (names : list string) : bool :=
  match names with
  | [] => true
  | a :: rest => negb (existsb (String.eqb a) rest) && distinct rest
  end.

(** A tree in which no directory has two entries of the same name. *)
Fixpoint well_formed (n : node) : bool :=
  match n with
  | File _ => true
  | Dir es =>
      distinct (map fst es)
      && forallb (fun e : string * node =>
                    match e with (_, x) => well_formed x end) es
  end.

(** [p] is [q] or an ancestor of [q]. *)
Fixpoint is_prefix (p q : path) : bool :=
  match p, q with
  | [], _ => true
  | a :: p', b :: q' => String.eqb a b && is_prefix p' q'
  | _ :: _, [] => false
  end.

(** What the regular file at [p] holds, if there is one. *)
Definition content_at (root : node) (p : path) : option content :=
  match lookup p root with
  | Some (File c) => Some c
  | _ => None
  end.

(** The number of files [os.walk(p)] can reach. *)
Definition files_under (root : node) (p : path) : nat :=
  match lookup p root with
  | Some (Dir es) => count_files (Dir es)
  | _ => 0
  end.

End Fs.

(* ================================================================= *)
(** ** Python values, exceptions and effects *)

Module Py.
Import Chars Json.

Inductive exn : Type :=
| KeyError (key : string)
| TypeError (what : string)
| AttributeError (what : string)
| ValueError (what : string)
| Error (what : string)
| KeyboardInterrupt.

(** [isinstance(e, Exception)]: what [except Exception] catches.  [Error]
    stands for the exceptions of the operating system and of the [ftplib],
    [paramiko], [zipfile] and [watchdog] libraries, all derived from
    [Exception]; [KeyboardInterrupt] derives from [BaseException] only. *)
Definition is_Exception (e : exn) : bool :=
  match e with
  | KeyboardInterrupt => false
  | _ => true
  end.

(** Whether the float that a JSON number literal denotes is zero: the decimal
    [D * 10^E] is rounded to zero exactly when it is at most [2^-1075], half
    the least positive double. *)
Definition float_is_zero (lit : string) : bool :=
  let s := list_ascii_of_string lit in
  let s := match s with
           | c :: r => if Ascii.eqb c "-" then r else s
           | [] => s
           end in
  let (ip, r) := span_digits s in
  match ip with
  | [] => false
  | _ :: _ =>
      let (fp, r1) := match r with
                      | c :: r' => if Ascii.eqb c "." then span_digits r' else ([], r)
                      | [] => ([], r)
                      end in
      let ex := match r1 with
                | _ :: c :: r2 =>
                    if Ascii.eqb c "-" then (- int_of_digits r2)%Z
                    else if Ascii.eqb c "+" then int_of_digits r2
                    else int_of_digits (c :: r2)
                | _ => 0%Z
                end in
      let D := int_of_digits (ip ++ fp) in
      let E := (ex - Z.of_nat (List.length fp))%Z in
      ((D =? 0) || ((E <? 0) && (D * 2 ^ 1075 <=? 10 ^ (- E))))%Z
  end.

(** [bool(v)]. *)
Definition truthy (v : json) : bool :=
  match v with
  | JNull => false
  | JBool b => b
  | JInt n => negb (n =? 0)%Z
  | JFloat lit => negb (float_is_zero lit)
  | JString s => negb (String.eqb s "")
  | JArray l => match l with [] => false | _ :: _ => true end
  | JObject d => match d with [] => false | _ :: _ => true end
  end.

(** [v[k]] for a string key [k]. *)
Definition subscript (v : json) (k : string) : exn + json :=
  match v with
  | JObject d =>
      match dict_get k d with
      | Some x => inr x
      | None => inl (KeyError k)
      end
  | JArray _ => inl (TypeError "list indices must be integers or slices, not str")
  | JString _ => inl (TypeError "string indices must be integers, not 'str'")
  | _ => inl (TypeError "object is not subscriptable")
  end.

(** [v.get(k)]. *)
Definition get_method (v : json) (k : string) : exn + json :=
  match v with
  | JObject d =>
      match dict_get k d with
      | Some x => inr x
      | None => inr JNull
      end
  | _ => inl (AttributeError "object has no attribute 'get'")
  end.

(** The pieces of an f-string: literal text, a formatted value, a formatted
    exception. *)
Inductive piece : Type :=
| Lit (s : string)
| Val (v : json)
| Exc (e : exn).

Definition fstring := list piece.

(** A file-system event as [watchdog] hands it to a handler. *)
Inductive event_type : Type := Created | Modified | Deleted | Moved.

Record fs_event : Type := {
  kind : event_type;
  is_directory : bool;
  src_path : string
}.

(** The calls the script makes into the operating system and its libraries,
    with the arguments it passes. *)
Inductive call : Type :=
| open_w (name : string)
| open_r (name : string)
| open_rb (name : string)
| os_remove (name : string)
| ZipFile_open (zip_name : string)
| ZipFile_write (filename arcname : string)
| ZipFile_close
| FTP_connect (host port : json)
| FTP_login (user passwd : json)
| FTP_cwd (dirname : json)
| FTP_storbinary (cmd : fstring) (name : string)
| FTP_exit
| Transport (host port : json)
| RSAKey_from_private_key_file (filename : json)
| Transport_connect_pkey (username : json)
| Transport_connect_password (username password : json)
| SFTPClient_from_transport
| SFTPClient_put (localpath : string) (remotepath : fstring)
| SFTPClient_close
| Transport_close
| Observer_schedule (path : json)
| Observer_start
| Observer_stop
| Observer_join
| time_sleep.

Inductive level : Type := INFO | WARNING | ERROR.

(** What a run leaves behind, in order: the calls made, each with the error
    it failed with if it failed; a call that was made and never returned;
    the log records; the console traffic; the death of the observer thread
    on an exception of the handler. *)
Inductive event : Type :=
| Did (c : call) (failure : option exn)
| Log (lv : level) (msg : fstring)
| Blocked (c : call)
| Input (prompt line : string)
| Print (text : string)
| ObserverDied (e : exn).

(** What happens while the polling thread sleeps for one interval: the
    observer thread dispatches [modified] to the handler, the console
    receives the lines [typed], and a [KeyboardInterrupt] may reach the
    polling thread. *)
Record tick : Type := {
  modified : list fs_event;
  typed : list string;
  interrupt : bool
}.

(** The state a run works on.
    - [root], [cwd], [tmpdir]: the file tree, the working directory of the
      process and what [tempfile.gettempdir()] returns;
    - [faults]: the failures the environment inflicts: given the history so
      far, whether a call fails and with what message;
    - [history]: the events so far, oldest first;
    - [stop_event]: the flag of the [threading.Event] of [__main__];
    - [observer_alive]: the observer thread is running;
    - [listening]: the exit listener thread is reading the console;
    - [elapsed]: the number of intervals slept so far. *)
Record world : Type := {
  root : Fs.node;
  cwd : Fs.path;
  tmpdir : string;
  faults : list event -> call -> option string;
  history : list event;
  stop_event : bool;
  observer_alive : bool;
  listening : bool;
  elapsed : nat
}.

Definition with_root (r : Fs.node) (w : world) : world :=
  {| root := r; cwd := cwd w; tmpdir := tmpdir w; faults := faults w;
     history := history w; stop_event := stop_event w;
     observer_alive := observer_alive w; listening := listening w;
     elapsed := elapsed w |}.

Definition record (e : event) (w : world) : world :=
  {| root := root w; cwd := cwd w; tmpdir := tmpdir w; faults := faults w;
     history := history w ++ [e]; stop_event := stop_event w;
     observer_alive := observer_alive w; listening := listening w;
     elapsed := elapsed w |}.

Definition with_stop_event (b : bool) (w : world) : world :=
  {| root := root w; cwd := cwd w; tmpdir := tmpdir w; faults := faults w;
     history := history w; stop_event := b;
     observer_alive := observer_alive w; listening := listening w;
     elapsed := elapsed w |}.

Definition with_observer_alive (b : bool) (w : world) : world :=
  {| root := root w; cwd := cwd w; tmpdir := tmpdir w; faults := faults w;
     history := history w; stop_event := stop_event w;
     observer_alive := b; listening := listening w;
     elapsed := elapsed w |}.

Definition with_listening (b : bool) (w : world) : world :=
  {| root := root w; cwd := cwd w; tmpdir := tmpdir w; faults := faults w;
     history := history w; stop_event := stop_event w;
     observer_alive := observer_alive w; listening := b;
     elapsed := elapsed w |}.

Definition slept (w : world) : world :=
  {| root := root w; cwd := cwd w; tmpdir := tmpdir w; faults := faults w;
     history := history w; stop_event := stop_event w;
     observer_alive := observer_alive w; listening := listening w;
     elapsed := S (elapsed w) |}.

(** How a call ends: it returns a value, raises, or never returns. *)
Inductive result (A : Type) : Type :=
| Return (a : A)
| Raise (e : exn)
| Hang.

Arguments Return {A} a.
Arguments Raise {A} e.
Arguments Hang {A}.

(** A computation: from a world to a result and the world it leaves. *)
Definition M (A : Type) : Type := world -> result A * world.

Definition ret {A : Type} (a : A) : M A := fun w => (Return a, w).

Definition raise {A : Type} (e : exn) : M A := fun w => (Raise e, w).

Definition bind {A B : Type} (m : M A) (k : A -> M B) : M B :=
  fun w =>
    match m w with
    | (Return a, w') => k a w'
    | (Raise e, w') => (Raise e, w')
    | (Hang, w') => (Hang, w')
    end.

Declare Scope py_scope.
Delimit Scope py_scope with py.

Notation "x <- m ;; k" := (bind m (fun x => k))
  (at level 61, m at next level, right associativity) : py_scope.
Notation "m ;;; k" := (bind m (fun _ => k))
  (at level 61, right associativity) : py_scope.

Local Open Scope py_scope.

(** A value that is there or an exception to raise. *)
Definition lift {A : Type} (x : exn + A) : M A :=
  match x with
  | inl e => raise e
  | inr a => ret a
  end.

Definition emit (e : event) : M unit := fun w => (Return tt, record e w).

Definition log (lv : level) (msg : fstring) : M unit := emit (Log lv msg).

(** A call into the environment.  The environment may make it fail; if it
    does not, [effect] says what the call returns and does to the file tree,
    or why it cannot be done.  Either way the call enters the history. *)
Definition perform {A : Type} (c : call)
                   (effect : world -> string + (A * Fs.node)) : M A :=
  fun w =>
    match faults w (history w) c with
    | Some msg => (Raise (Error msg), record (Did c (Some (Error msg))) w)
    | None =>
        match effect w with
        | inl msg => (Raise (Error msg), record (Did c (Some (Error msg))) w)
        | inr (a, r) => (Return a, record (Did c None) (with_root r w))
        end
    end.

(** A call that leaves the file tree alone. *)
Definition invoke (c : call) : M unit := perform c (fun w => inr (tt, root w)).

(** A call that never returns. *)
Definition hang {A : Type} : M A := fun w => (Hang, w).

(** [try: body / except Exception as e: handler(e)]. *)
Definition try_except_Exception {A : Type} (body : M A) (handler : exn -> M A)
  : M A :=
  fun w =>
    match body w with
    | (Raise e, w') => if is_Exception e then handler e w' else (Raise e, w')
    | other => other
    end.

(** [try: body / except KeyboardInterrupt: handler]. *)
Definition try_except_KeyboardInterrupt {A : Type} (body handler : M A) : M A :=
  fun w =>
    match body w with
    | (Raise KeyboardInterrupt, w') => handler w'
    | other => other
    end.

(** [with ... : body], for a context manager whose [__exit__] is [leave] and
    does not suppress exceptions: [leave] runs when the body returns and
    when it raises; an exception of [leave] replaces that of the body. *)
Definition with_exit {A : Type} (body : M A) (leave : M unit) : M A :=
  fun w =>
    match body w with
    | (Return a, w') =>
        match leave w' with
        | (Return _, w'') => (Return a, w'')
        | (Raise e, w'') => (Raise e, w'')
        | (Hang, w'') => (Hang, w'')
        end
    | (Raise e, w') =>
        match leave w' with
        | (Return _, w'') => (Raise e, w'')
        | (Raise e', w'') => (Raise e', w'')
        | (Hang, w'') => (Hang, w'')
        end
    | (Hang, w') => (Hang, w')
    end.

End Py.

(* ================================================================= *)
(** ** The script *)

Module Uploader.
Import Chars Json Py.
Local Open Scope py_scope.

Definition CONFIG_FILE : string := "config.json".

Definition DEFAULT_CONFIG : json :=
  JObject
    [("plugin_dir", JString "/path/to/your/plugin");
     ("server_plugin_dir", JString "/path/to/server/plugins");
     ("plugin_name", JString "your_plugin_name.zip");
     ("auto_upload", JBool true);
     ("upload_method", JString "ftp");
     ("ftp", JObject
        [("host", JString "ftp.example.com");
         ("port", JInt 21);
         ("username", JString "your_ftp_username");
         ("password", JString "your_ftp_password")]);
     ("sftp", JObject
        [("host", JString "sftp.example.com");
         ("port", JInt 22);
         ("username", JString "your_sftp_username");
         ("password", JString "your_sftp_password");
         ("private_key_file", JString "/path/to/private/key")])].

(* ----------------------------------------------------------------- *)
(** *** Files *)

(** [os.path.exists(name)]. *)
Definition os_path_exists (name : string) (w : world) : bool :=
  match Fs.resolve (root w) (cwd w) name with
  | Some p => Fs.exists_at (root w) p
  | None => false
  end.

(** The effect of opening [name] for writing and leaving [c] in it. *)
Definition write (name : string) (c : Fs.content) (w : world)
  : string + (unit * Fs.node) :=
  match Fs.resolve (root w) (cwd w) name with
  | Some p =>
      match Fs.store p c (root w) with
      | Some r => inr (tt, r)
      | None => inl "cannot open for writing"
      end
  | None => inl "No such file or directory"
  end.

(** The effect of opening the regular file [name] and reading it. *)
Definition read (name : string) (w : world) : string + (Fs.content * Fs.node) :=
  match Fs.resolve (root w) (cwd w) name with
  | Some p =>
      match Fs.lookup p (root w) with
      | Some (Fs.File c) => inr (c, root w)
      | Some (Fs.Dir _) => inl "Is a directory"
      | None => inl "No such file or directory"
      end
  | None => inl "No such file or directory"
  end.

(** The effect of [os.remove(name)]. *)
Definition remove (name : string) (w : world) : string + (unit * Fs.node) :=
  match Fs.resolve (root w) (cwd w) name with
  | Some p =>
      match Fs.unlink p (root w) with
      | Some r => inr (tt, r)
      | None => inl "cannot remove"
      end
  | None => inl "No such file or directory"
  end.

(** [json.load(f)] on what the file holds. *)
Definition json_load (c : Fs.content) : M json :=
  match c with
  | Fs.Bytes text =>
      match loads text with
      | Parsed v => ret v
      | JSONDecodeError => raise (ValueError "JSONDecodeError")
      end
  | Fs.Archive _ => raise (ValueError "not a text document")
  end.

(* ----------------------------------------------------------------- *)
(** *** [load_config] *)

Definition load_config : M json :=
  fun w =>
    if negb (os_path_exists CONFIG_FILE w) then
      (log INFO [Lit "配置文件 "; Lit CONFIG_FILE;
                 Lit " 不存在，正在创建默认配置文件..."] ;;;
       perform (open_w CONFIG_FILE)
               (write CONFIG_FILE (Fs.Bytes (dumps 4 DEFAULT_CONFIG))) ;;;
       log INFO [Lit "已创建默认配置文件: "; Lit CONFIG_FILE] ;;;
       ret DEFAULT_CONFIG) w
    else
      (c <- perform (open_r CONFIG_FILE) (read CONFIG_FILE) ;;
       json_load c) w.

(* ----------------------------------------------------------------- *)
(** *** [create_zip_from_dir] *)

(** The effect of [zipfile.ZipFile(zip_name, 'w', ZIP_DEFLATED)]: the file is
    created, or emptied if it is there; the archive is written through the
    path found now. *)
Definition zip_create (zip_name : string) (w : world)
  : string + (Fs.path * Fs.node) :=
  match Fs.resolve (root w) (cwd w) zip_name with
  | Some zp =>
      match Fs.store zp (Fs.Archive []) (root w) with
      | Some r => inr (zp, r)
      | None => inl "cannot open for writing"
      end
  | None => inl "No such file or directory"
  end.

(** The name [os.walk(directory)] and [os.path.join] give the file at [rel]
    below [directory], and its [os.path.relpath] from [directory]. *)
Definition filename (directory : string) (rel : Fs.path) : string :=
  fold_left Fs.os_path_join rel directory.

Definition arcname (rel : Fs.path) : string := String.concat "/" rel.

(** The effect of [zipf.write(filename, arcname)] for the file at [rel] below
    [base], into the archive at [zp] that holds [entries] so far: the file is
    read as it is now and becomes the last entry.  When the file is the
    archive itself, what is read is the archive as it stands; [zipfile]
    copies it while it appends to it, which ends so for a short archive
    only.  What is proved of the entries is therefore stated for an archive
    that lies outside the directory it is made from. *)
Definition zip_write (base zp : Fs.path) (entries : list (string * Fs.content))
                     (rel : Fs.path) (w : world)
  : string + (list (string * Fs.content) * Fs.node) :=
  match Fs.lookup (base ++ rel) (root w) with
  | Some (Fs.File c) =>
      let entries' := entries ++ [(arcname rel, c)] in
      match Fs.store zp (Fs.Archive entries') (root w) with
      | Some r => inr (entries', r)
      | None => inl "cannot write the archive"
      end
  | _ => inl "No such file or directory"
  end.

(** The two nested loops over [os.walk(directory)], on the files still to
    come. *)
Fixpoint write_files (directory : string) (base zp : Fs.path)
                     (files : list Fs.path)
                     (entries : list (string * Fs.content)) : M unit :=
  match files with
  | [] => ret tt
  | rel :: rest =>
      entries' <- perform (ZipFile_write (filename directory rel) (arcname rel))
                          (zip_write base zp entries rel) ;;
      write_files directory base zp rest entries'
  end.

(** What [os.walk(directory)] finds; a directory that cannot be listed is
    passed over in silence. *)
Definition os_walk (base : option Fs.path) (w : world) : list Fs.path :=
  match base with
  | Some b =>
      match Fs.lookup b (root w) with
      | Some n => Fs.walk [] n
      | None => []
      end
  | None => []
  end.

Definition create_zip_from_dir (directory : json) (zip_name : string) : M unit :=
  zp <- perform (ZipFile_open zip_name) (zip_create zip_name) ;;
  with_exit
    (match directory with
     | JString d =>
         fun w =>
           let base := Fs.resolve (root w) (cwd w) d in
           write_files d (match base with Some b => b | None => [] end) zp
                       (os_walk base w) [] w
     | _ => raise (TypeError "expected str, bytes or os.PathLike object")
     end)
    (invoke ZipFile_close).

(* ----------------------------------------------------------------- *)
(** *** [upload_ftp] and [upload_sftp] *)

(** [v[k]] as a step of a computation. *)
Definition item (v : json) (k : string) : M json := lift (subscript v k).

Definition upload_ftp (config : json) (zip_path : string) : M unit :=
  ftp_config <- item config "ftp" ;;
  try_except_Exception
    (with_exit
       (host <- item ftp_config "host" ;;
        port <- item ftp_config "port" ;;
        invoke (FTP_connect host port) ;;;
        username <- item ftp_config "username" ;;
        password <- item ftp_config "password" ;;
        invoke (FTP_login username password) ;;;
        server_plugin_dir <- item config "server_plugin_dir" ;;
        invoke (FTP_cwd server_plugin_dir) ;;;
        perform (open_rb zip_path) (read zip_path) ;;;
        plugin_name <- item config "plugin_name" ;;
        invoke (FTP_storbinary [Lit "STOR "; Val plugin_name] zip_path) ;;;
        log INFO [Lit "插件已通过 FTP 上传到服务器: "; Lit zip_path])
       (invoke FTP_exit))
    (fun e => log ERROR [Lit "FTP 上传失败: "; Exc e]).

Definition upload_sftp (config : json) (zip_path : string) : M unit :=
  sftp_config <- item config "sftp" ;;
  try_except_Exception
    (host <- item sftp_config "host" ;;
     port <- item sftp_config "port" ;;
     invoke (Transport host port) ;;;
     private_key_file <- lift (get_method sftp_config "private_key_file") ;;
     (if truthy private_key_file then
        filename <- item sftp_config "private_key_file" ;;
        invoke (RSAKey_from_private_key_file filename) ;;;
        username <- item sftp_config "username" ;;
        invoke (Transport_connect_pkey username)
      else
        username <- item sftp_config "username" ;;
        password <- item sftp_config "password" ;;
        invoke (Transport_connect_password username password)) ;;;
     invoke SFTPClient_from_transport ;;;
     server_plugin_dir <- item config "server_plugin_dir" ;;
     plugin_name <- item config "plugin_name" ;;
     let remote_path := [Val server_plugin_dir; Lit "/"; Val plugin_name] in
     invoke (SFTPClient_put zip_path remote_path) ;;;
     invoke SFTPClient_close ;;;
     invoke Transport_close ;;;
     log INFO (Lit "插件已通过 SFTP 上传到服务器: " :: remote_path))
    (fun e => log ERROR [Lit "SFTP 上传失败: "; Exc e]).

(* ----------------------------------------------------------------- *)
(** *** [upload_plugin] *)

(** [tempfile.gettempdir()]. *)
Definition gettempdir : M string := fun w => (Return (tmpdir w), w).

(** [os.path.join(a, b)] for a value [b] of the configuration. *)
Definition os_path_join (a : string) (b : json) : M string :=
  match b with
  | JString s => ret (Fs.os_path_join a s)
  | _ => raise (TypeError "expected str, bytes or os.PathLike object")
  end.

(** [v == s] for a string [s]. *)
Definition equals (v : json) (s : string) : bool :=
  match v with
  | JString x => String.eqb x s
  | _ => false
  end.

Definition upload_plugin (config : json) : M unit :=
  temp_dir <- gettempdir ;;
  plugin_name <- item config "plugin_name" ;;
  zip_path <- os_path_join temp_dir plugin_name ;;
  plugin_dir <- item config "plugin_dir" ;;
  create_zip_from_dir plugin_dir zip_path ;;;
  upload_method <- item config "upload_method" ;;
  (if equals upload_method "ftp" then upload_ftp config zip_path
   else
     upload_method' <- item config "upload_method" ;;
     if equals upload_method' "sftp" then upload_sftp config zip_path
     else log ERROR [Lit "上传方法无效，请选择 'ftp' 或 'sftp'"]) ;;;
  try_except_Exception
    (perform (os_remove zip_path) (remove zip_path))
    (fun e => log WARNING [Lit "删除临时文件失败: "; Exc e]) ;;;
  log INFO [Lit "插件已重载"].

(* ----------------------------------------------------------------- *)
(** *** [WatcherHandler] and [start_watcher] *)

(** [WatcherHandler.on_modified].  The handler reads the module-level name
    [config], which [__main__] binds before any handler runs: it is the
    first argument here. *)
Definition on_modified (config : json) (event : fs_event) : M unit :=
  if is_directory event then ret tt
  else if endswith (src_path event) ".py" then
    log INFO [Lit "检测到文件变更: "; Lit (src_path event);
              Lit ", 正在重新打包并上传..."] ;;;
    upload_plugin config
  else ret tt.

(** [FileSystemEventHandler.dispatch]: only [on_modified] is overridden. *)
Definition handler_dispatch (config : json) (event : fs_event) : M unit :=
  match kind event with
  | Modified => on_modified config event
  | _ => ret tt
  end.

(** The observer thread, handed the events of one interval: it dispatches
    them in turn for as long as it runs, and dies on the first exception
    that leaves the handler. *)
Fixpoint observer_dispatch (config : json) (events : list fs_event) : M unit :=
  fun w =>
    match events with
    | [] => (Return tt, w)
    | event :: rest =>
        if observer_alive w then
          match handler_dispatch config event w with
          | (Return _, w') => observer_dispatch config rest w'
          | (Raise e, w') =>
              (Return tt, record (ObserverDied e) (with_observer_alive false w'))
          | (Hang, w') => (Hang, w')
          end
        else (Return tt, w)
    end.

(** The loop of [listen_for_exit] on the lines at hand: [true] once the exit
    word has been read and [stop_event] set, [false] when the lines run out
    first. *)
Fixpoint listen (lines : list string) : M bool :=
  match lines with
  | [] => ret false
  | command :: rest =>
      emit (Input "输入 'exit' 来停止自动监测并退出程序: " command) ;;;
      if String.eqb (lower command) "exit" then
        (fun w => (Return true, with_stop_event true w))
      else listen rest
  end.

(** [listen_for_exit(stop_event)], when [lines] is all the console will ever
    deliver: the call blocks in [input] once they are used up. *)
Definition listen_for_exit (lines : list string) : M unit :=
  done <- listen lines ;;
  if done then ret tt else hang.

(** The exit listener thread, handed the lines of one interval. *)
Definition listener_feed (lines : list string) : M unit :=
  fun w =>
    if listening w then
      match listen lines w with
      | (Return true, w') => (Return tt, with_listening false w')
      | (_, w') => (Return tt, w')
      end
    else (Return tt, w).

(** [time.sleep(1)]: one interval passes, in which the other threads run;
    a [KeyboardInterrupt] that arrives is raised here. *)
Definition sleep (config : json) (t : tick) : M unit :=
  emit (Did time_sleep None) ;;;
  (fun w => (Return tt, slept w)) ;;;
  observer_dispatch config (modified t) ;;;
  listener_feed (typed t) ;;;
  if interrupt t then raise KeyboardInterrupt else ret tt.

(** [while not stop_event.is_set(): time.sleep(1)], under the intervals
    [ticks] and nothing happening after them. *)
Fixpoint poll (config : json) (ticks : list tick) : M unit :=
  fun w =>
    if stop_event w then (Return tt, w)
    else
      match ticks with
      | [] => (Hang, w)
      | t :: rest => (sleep config t ;;; poll config rest) w
      end.

Definition observer_start : M unit :=
  invoke Observer_start ;;;
  fun w => (Return tt, with_observer_alive true w).

Definition observer_stop : M unit :=
  invoke Observer_stop ;;;
  fun w => (Return tt, with_observer_alive false w).

(** [observer.join()] returns once the observer thread has ended. *)
Definition observer_join : M unit :=
  fun w =>
    if observer_alive w then (Hang, record (Blocked Observer_join) w)
    else (Return tt, record (Did Observer_join None) w).

(** [start_watcher(config, stop_event)]; [global_config] is the module-level
    [config] the handler reads. *)
Definition start_watcher (global_config config : json) (ticks : list tick)
  : M unit :=
  plugin_dir <- item config "plugin_dir" ;;
  invoke (Observer_schedule plugin_dir) ;;;
  observer_start ;;;
  try_except_KeyboardInterrupt (poll global_config ticks) observer_stop ;;;
  observer_join.

(* ----------------------------------------------------------------- *)
(** *** [manual_upload] and [__main__] *)

(** [manual_upload(config)], when [lines] is all the console will ever
    deliver. *)
Fixpoint manual_upload (config : json) (lines : list string) : M unit :=
  match lines with
  | [] => hang
  | command :: rest =>
      emit (Input "请输入命令（'upload' 上传插件，'exit' 退出程序）: " command) ;;;
      if String.eqb (lower command) "upload" then
        upload_plugin config ;;; manual_upload config rest
      else if String.eqb (lower command) "exit" then ret tt
      else
        emit (Print "无效命令，请输入 'upload' 或 'exit'。") ;;;
        manual_upload config rest
  end.

Definition uninterrupted (t : tick) : tick :=
  {| modified := modified t; typed := typed t; interrupt := false |}.

(** The body of the script.  In automatic mode the watcher thread runs
    [start_watcher] over the intervals [ticks], in each of which the exit
    listener thread reads the lines typed; a thread that raises dies alone;
    the main thread waits for the listener, then for the watcher.  No
    [KeyboardInterrupt] is delivered: the interrupts of [ticks] are dropped.
    In manual mode the console delivers the lines of [ticks] in order. *)
Definition main (ticks : list tick) : M unit :=
  log INFO [Lit "插件自动化更新程序已启动，开始加载配置..."] ;;;
  config <- load_config ;;
  (fun w => (Return tt, with_stop_event false w)) ;;;
  auto_upload <- item config "auto_upload" ;;
  if truthy auto_upload then
    log INFO [Lit "启用自动上传模式，开始监视文件变化..."] ;;;
    fun w =>
      let w1 := with_listening true w in
      let (watcher, w2) :=
        start_watcher config config (map uninterrupted ticks) w1 in
      let later := skipn (elapsed w2 - elapsed w1) ticks in
      let (_, w3) := listener_feed (List.concat (map typed later)) w2 in
      if listening w3 then (Hang, w3)
      else
        match watcher with
        | Hang => (Hang, w3)
        | _ => log INFO [Lit "程序已退出"] w3
        end
  else
    log INFO [Lit "启用手动上传模式，等待用户命令..."] ;;;
    manual_upload config (List.concat (map typed ticks)).

End Uploader.

(* ================================================================= *)
(** ** Sample worlds *)

Module Samples.
Import Json Py Uploader.

(** An environment that inflicts no failure. *)
Definition calm : list event -> call -> option string := fun _ _ => None.

(** An FTP server that rejects the login. *)
Definition wrong_password : list event -> call -> option string :=
  fun _ c =>
    match c with
    | FTP_login _ _ => Some "530 Login incorrect"
    | _ => None
    end.

(** An SFTP server that accepts the connection and rejects the password. *)
Definition sftp_denied : list event -> call -> option string :=
  fun _ c =>
    match c with
    | Transport_connect_password _ _ => Some "Authentication failed."
    | _ => None
    end.

Definition plugin_tree : Fs.node :=
  Fs.Dir
    [("tmp", Fs.Dir []);
     ("home", Fs.Dir []);
     ("plug", Fs.Dir
        [("plugin.py", Fs.File (Fs.Bytes "print(1)"));
         ("readme.txt", Fs.File (Fs.Bytes "hello"));
         ("lib", Fs.Dir [("util.py", Fs.File (Fs.Bytes "pass"))])])].

Definition at_home (r : Fs.node) (f : list event -> call -> option string)
  : world :=
  {| root := r; cwd := ["home"]; tmpdir := "/tmp"; faults := f;
     history := []; stop_event := false; observer_alive := false;
     listening := false; elapsed := 0 |}.

Definition ftp_config (auto : bool) : json :=
  JObject
    [("plugin_dir", JString "/plug");
     ("server_plugin_dir", JString "/srv/plugins");
     ("plugin_name", JString "plugin.zip");
     ("auto_upload", JBool auto);
     ("upload_method", JString "ftp");
     ("ftp", JObject
        [("host", JString "ftp.example.com");
         ("port", JInt 21);
         ("username", JString "alice");
         ("password", JString "secret")])].

Definition sftp_config : json :=
  JObject
    [("plugin_dir", JString "/plug");
     ("server_plugin_dir", JString "/srv/plugins");
     ("plugin_name", JString "plugin.zip");
     ("auto_upload", JBool true);
     ("upload_method", JString "sftp");
     ("sftp", JObject
        [("host", JString "sftp.example.com");
         ("port", JInt 22);
         ("username", JString "alice");
         ("password", JString "secret")])].

(** A configuration that selects FTP and has no FTP block. *)
Definition blockless_config : json :=
  JObject
    [("plugin_dir", JString "/plug");
     ("server_plugin_dir", JString "/srv/plugins");
     ("plugin_name", JString "plugin.zip");
     ("auto_upload", JBool false);
     ("upload_method", JString "ftp")].

(** A tree whose working directory holds the configuration [text]. *)
Definition configured (text : string) : Fs.node :=
  Fs.Dir
    [("tmp", Fs.Dir []);
     ("home", Fs.Dir [("config.json", Fs.File (Fs.Bytes text))]);
     ("plug", Fs.Dir [("plugin.py", Fs.File (Fs.Bytes "print(1)"))])].

End Samples.

(* ================================================================= *)
(** ** What a computation adds to the history *)

Module Trace.
Import Py.

(** Every run of [m] extends the history by events that satisfy [P]. *)
Definition adds {A : Type} (P : event -> Prop) (m : M A) : Prop :=
  forall w r w',
    m w = (r, w') -> exists l, history w' = history w ++ l /\ Forall P l.

(** The events a run from [w] to [w'] has added. *)
Definition added (w w' : world) : list event :=
  skipn (List.length (history w)) (history w').

Definition is_zip_call (c : call) : bool :=
  match c with
  | ZipFile_open _ | ZipFile_write _ _ | ZipFile_close => true
  | _ => false
  end.

Definition is_ftp_call (c : call) : bool :=
  match c with
  | FTP_connect _ _ | FTP_login _ _ | FTP_cwd _ | FTP_storbinary _ _
  | FTP_exit | open_rb _ => true
  | _ => false
  end.

Definition is_sftp_call (c : call) : bool :=
  match c with
  | Transport _ _ | RSAKey_from_private_key_file _
  | Transport_connect_pkey _ | Transport_connect_password _ _
  | SFTPClient_from_transport | SFTPClient_put _ _ | SFTPClient_close
  | Transport_close => true
  | _ => false
  end.

Definition is_observer_call (c : call) : bool :=
  match c with
  | Observer_schedule _ | Observer_start | Observer_stop | Observer_join => true
  | _ => false
  end.

(** The events of the archiver: calls into [zipfile]. *)
Definition zip_event (e : event) : Prop :=
  match e with
  | Did c _ => is_zip_call c = true
  | _ => False
  end.

(** The events of a transport: its calls and its log records. *)
Definition transport_event (mine : call -> bool) (e : event) : Prop :=
  match e with
  | Did c _ => mine c = true
  | Log _ _ => True
  | _ => False
  end.

(** The events that do not touch the observer. *)
Definition unwatched (e : event) : Prop :=
  match e with
  | Did c _ | Blocked c => is_observer_call c = false
  | _ => True
  end.

(** What the orchestrator's attempt to delete [zip_path] leaves: the call
    with its outcome and, when it failed, the warning. *)
Definition cleanup (zip_path : string) (o : option exn) : list event :=
  Did (os_remove zip_path) o ::
  match o with
  | Some e => [Log WARNING [Lit "删除临时文件失败: "; Exc e]]
  | None => []
  end.

(** The events other than a call of [observer.stop()]. *)
Definition not_stop (e : event) : Prop :=
  match e with
  | Did Observer_stop _ => False
  | _ => True
  end.

(** An interval in which no [KeyboardInterrupt] arrives. *)
Definition uninterrupted_tick (t : tick) : Prop := interrupt t = false.

(** The steps of [upload_sftp] that follow the connection and precede the
    two [close] calls. *)
Definition after_connection (c : call) : bool :=
  match c with
  | RSAKey_from_private_key_file _ | Transport_connect_pkey _
  | Transport_connect_password _ _ | SFTPClient_from_transport
  | SFTPClient_put _ _ => true
  | _ => false
  end.

(** Every run of [m] leaves the part [f] of the world as it found it. *)
Definition preserves {X A : Type} (f : world -> X) (m : M A) : Prop :=
  forall w r w', m w = (r, w') -> f w' = f w.

(** Where the process stands: the working directory, the temp directory and
    the failures the environment has in store. *)
Definition surroundings (w : world)
  : Fs.path * string * (list event -> call -> option string) :=
  (cwd w, tmpdir w, faults w).

(** The files and where the process stands. *)
Definition place (w : world)
  : Fs.node * (Fs.path * string * (list event -> call -> option string)) :=
  (root w, surroundings w).

(** The state of the threads. *)
Definition threads (w : world) : bool * bool * bool * nat :=
  (stop_event w, observer_alive w, listening w, elapsed w).

(** The events that are no call of the kind [mine]. *)
Definition avoids (mine : call -> bool) (e : event) : Prop :=
  match e with
  | Did c _ | Blocked c => mine c = false
  | _ => True
  end.

Definition is_transport_call (c : call) : bool :=
  is_ftp_call c || is_sftp_call c.

(** The events that are no call at all: log records and console traffic. *)
Definition no_call (e : event) : Prop :=
  match e with
  | Did _ _ | Blocked _ => False
  | _ => True
  end.

(** What the exit listener leaves for the lines it reads. *)
Definition heard (lines : list string) : list event :=
  map (Input "输入 'exit' 来停止自动监测并退出程序: ") lines.

(** What the manual loop leaves for a command it does not know. *)
Definition rejected (command : string) : list event :=
  [Input "请输入命令（'upload' 上传插件，'exit' 退出程序）: " command;
   Print "无效命令，请输入 'upload' 或 'exit'。"].

(** From [w] to [w'] the history has grown, and the observer thread runs
    as before unless its death is on record. *)
Definition alive_unless_died (w w' : world) : Prop :=
  exists l,
    history w' = history w ++ l
    /\ (observer_alive w' = observer_alive w
        \/ exists e, In (ObserverDied e) l).

(** A line that is the word [word] in some mix of cases. *)
Definition says (word line : string) : bool :=
  String.eqb (Chars.lower line) word.

End Trace.

(* ================================================================= *)
(** ** The steps of the orchestrator *)

Module Steps.
Import Json Py Uploader.
Local Open Scope py_scope.

(** What follows the archive in [upload_plugin]: the choice of the
    transport, then the deletion of the scratch file and the completion
    record. *)
Definition dispatch (config : json) (zip_path : string) (method : json)
  : M unit :=
  if equals method "ftp" then upload_ftp config zip_path
  else
    upload_method' <- item config "upload_method" ;;
    if equals upload_method' "sftp" then upload_sftp config zip_path
    else log ERROR [Lit "上传方法无效，请选择 'ftp' 或 'sftp'"].

Definition finish (zip_path : string) : M unit :=
  try_except_Exception
    (perform (os_remove zip_path) (remove zip_path))
    (fun e => log WARNING [Lit "删除临时文件失败: "; Exc e]) ;;;
  log INFO [Lit "插件已重载"].

End Steps.

(* ================================================================= *)
(** ** The archive as the specification words it *)

Module ArchiveSpec.
Import Json Py Uploader.

(** In the words of the specification: archiving the directory [directory],
    which holds N files at any depth, leaves at [zip_name] an archive of
    exactly N entries, each named by the path of a file relative to
    [directory]. *)
Definition one_entry_per_file (w : world) (directory zip_name : string)
  : Prop :=
  forall w' base zp,
    create_zip_from_dir (JString directory) zip_name w = (Return tt, w') ->
    Fs.resolve (root w) (cwd w) directory = Some base ->
    Fs.resolve (root w) (cwd w) zip_name = Some zp ->
    exists entries,
      Fs.content_at (root w') zp = Some (Fs.Archive entries)
      /\ List.length entries = Fs.files_under (root w) base
      /\ map fst entries = map arcname (os_walk (Some base) w).

End ArchiveSpec.

(* ================================================================= *)
(** ** The orchestrator as the specification words it *)

Module OrchestratorSpec.
Import Json Py Uploader Trace.

(** In the words of the specification: however a run of [upload_plugin]
    goes, it attempts to delete the scratch archive [zip_path] and then logs
    completion. *)
Definition always_cleans_up (config : json) (zip_path : string) (w : world)
  : Prop :=
  forall r w',
    upload_plugin config w = (r, w') ->
    (exists o, In (Did (os_remove zip_path) o) (added w w'))
    /\ last (added w w') (Log INFO []) = Log INFO [Lit "插件已重载"].

End OrchestratorSpec.

(* ================================================================= *)
(** ** Facts about the file tree *)

Module FsFacts.
Import Fs.

Lemma assoc_put_same (name : string) (x : node) (es : list (string * node)) :
  assoc name (put name x es) = Some x.
Proof.
  induction es as [|[k y] es IH]; simpl.
  - now rewrite String.eqb_refl.
  - destruct (String.eqb name k) eqn:E; simpl.
    + apply String.eqb_eq in E. subst. now rewrite String.eqb_refl.
    + now rewrite E.
Qed.

Lemma assoc_put_other (name other : string) (x : node)
                      (es : list (string * node)) :
  other <> name -> assoc other (put name x es) = assoc other es.
Proof.
  intros Hne. induction es as [|[k y] es IH]; simpl.
  - apply String.eqb_neq in Hne. now rewrite Hne.
  - destruct (String.eqb name k) eqn:E; simpl.
    + apply String.eqb_eq in E. subst k.
      apply String.eqb_neq in Hne. now rewrite Hne.
    + now rewrite IH.
Qed.

Lemma put_put (name : string) (x y : node) (es : list (string * node)) :
  put name y (put name x es) = put name y es.
Proof.
  induction es as [|[k z] es IH]; simpl.
  - now rewrite String.eqb_refl.
  - destruct (String.eqb name k) eqn:E; simpl.
    + apply String.eqb_eq in E. subst. now rewrite String.eqb_refl.
    + now rewrite E, IH.
Qed.

Lemma lookup_app (p q : path) (r : node) :
  lookup (p ++ q) r =
  match lookup p r with
  | Some n => lookup q n
  | None => None
  end.
Proof.
  revert r. induction p as [|a p IH]; intros r; simpl.
  - reflexivity.
  - destruct r as [c|es]; [reflexivity|].
    destruct (assoc a es); [apply IH|reflexivity].
Qed.

(** The three shapes of [store], one equation each. *)
Lemma store_single (name : string) (c : content) (es : list (string * node)) :
  store [name] c (Dir es) =
  match assoc name es with
  | Some (Dir _) => None
  | _ => Some (Dir (put name (File c) es))
  end.
Proof. reflexivity. Qed.

Lemma store_deeper (name next : string) (p : path) (c : content)
                   (es : list (string * node)) :
  store (name :: next :: p) c (Dir es) =
  match assoc name es with
  | Some x =>
      match store (next :: p) c x with
      | Some x' => Some (Dir (put name x' es))
      | None => None
      end
  | None => None
  end.
Proof. reflexivity. Qed.

Lemma store_file (p : path) (c c0 : content) : store p c (File c0) = None.
Proof. destruct p as [|a [|b p]]; reflexivity. Qed.

(** After a store, the file is there with the content stored. *)
Lemma store_lookup_same (p : path) (c : content) (r r' : node) :
  store p c r = Some r' -> lookup p r' = Some (File c).
Proof.
  revert r r'. induction p as [|a p IH]; intros r r' H.
  - discriminate.
  - destruct r as [c0|es]; [now rewrite store_file in H|].
    destruct p as [|b p].
    + rewrite store_single in H.
      assert (r' = Dir (put a (File c) es)) as ->
        by (destruct (assoc a es) as [[?|?]|]; congruence).
      simpl. now rewrite assoc_put_same.
    + rewrite store_deeper in H.
      destruct (assoc a es) as [x|] eqn:Ea; [|discriminate].
      destruct (store (b :: p) c x) as [x'|] eqn:Es; [|discriminate].
      injection H as <-.
      change (lookup (a :: b :: p) (Dir (put a x' es)))
        with (match assoc a (put a x' es) with
              | Some y => lookup (b :: p) y
              | None => None
              end).
      rewrite assoc_put_same. eapply IH; eauto.
Qed.

(** A store into a directory that exists succeeds unless the name is that of
    a directory. *)
Lemma store_in_directory (p : path) (name : string) (c : content) (r : node) :
  is_dir r p = true ->
  (forall es, lookup (p ++ [name]) r <> Some (Dir es)) ->
  exists r', store (p ++ [name]) c r = Some r'.
Proof.
  revert r. induction p as [|a p IH]; intros r Hd Hn.
  - unfold is_dir in Hd. simpl in Hd. destruct r as [c0|es]; [discriminate|].
    simpl app. rewrite store_single.
    simpl in Hn.
    destruct (assoc name es) as [[c1|es1]|]; eauto.
    exfalso. now apply (Hn es1).
  - unfold is_dir in Hd. simpl in Hd.
    destruct r as [c0|es]; [discriminate|].
    destruct (assoc a es) as [x|] eqn:Ea; [|discriminate].
    assert (exists b q, p ++ [name] = b :: q) as (b & q & Hq)
      by (destruct p; simpl; eauto).
    simpl app. rewrite Hq, store_deeper, Ea, <- Hq.
    destruct (IH x) as [x' Hx'].
    + exact Hd.
    + intros es1 Hl. apply (Hn es1). simpl. now rewrite Ea.
    + rewrite Hx'. eauto.
Qed.


Lemma store_result_is_dir (p : path) (c : content) (r r' : node) :
  store p c r = Some r' -> exists es, r' = Dir es.
Proof.
  destruct p as [|a [|b p]]; destruct r as [c0|es]; try discriminate.
  - rewrite store_single.
    destruct (assoc a es) as [[?|?]|]; intros H; inversion H; eauto.
  - rewrite store_deeper.
    destruct (assoc a es) as [x|]; [|discriminate].
    destruct (store (b :: p) c x); intros H; inversion H; eauto.
Qed.

(** A store keeps every directory in place. *)
Lemma store_keeps_dirs (p : path) (c : content) :
  forall (r r' : node) (q : path),
    store p c r = Some r' -> is_dir r q = true -> is_dir r' q = true.
Proof.
  induction p as [|a p IH]; intros r r' q H Hd; [discriminate|].
  destruct r as [c0|es]; [now rewrite store_file in H|].
  destruct q as [|b q].
  - destruct (store_result_is_dir _ _ _ _ H) as [es' ->]. reflexivity.
  - unfold is_dir in *. simpl in Hd.
    destruct (assoc b es) as [y|] eqn:Eb; [|discriminate].
    destruct (String.eqb b a) eqn:Eab.
    + apply String.eqb_eq in Eab. subst b.
      destruct p as [|b p].
      * rewrite store_single, Eb in H.
        destruct y as [c1|es1]; [|discriminate].
        destruct q; discriminate.
      * rewrite store_deeper, Eb in H.
        destruct (store (b :: p) c y) as [y'|] eqn:Es; [|discriminate].
        injection H as <-. simpl. rewrite assoc_put_same.
        apply (IH y y' q Es Hd).
    + apply String.eqb_neq in Eab.
      assert (exists x', r' = Dir (put a x' es)) as (x' & ->).
      { destruct p as [|b' p].
        - rewrite store_single in H.
          destruct (assoc a es) as [[?|?]|]; inversion H; eauto.
        - rewrite store_deeper in H.
          destruct (assoc a es) as [x|]; [|discriminate].
          destruct (store (b' :: p) c x); inversion H; eauto. }
      simpl. rewrite assoc_put_other by assumption. now rewrite Eb.
Qed.

Lemma store_any_content (p : path) (c1 c2 : content) :
  forall r r1, store p c1 r = Some r1 -> exists r2, store p c2 r = Some r2.
Proof.
  induction p as [|a p IH]; intros r r1 H; [discriminate|].
  destruct r as [c0|es]; [now rewrite store_file in H|].
  destruct p as [|b p].
  - rewrite store_single in *.
    destruct (assoc a es) as [[?|?]|]; [eauto|discriminate|eauto].
  - rewrite store_deeper in *.
    destruct (assoc a es) as [x|]; [|discriminate].
    destruct (store (b :: p) c1 x) as [x1|] eqn:E1; [|discriminate].
    destruct (IH _ _ E1) as [x2 ->]. eauto.
Qed.

(** A second store into the same file replaces the first. *)
Lemma store_store (p : path) (c1 c2 : content) :
  forall r r1, store p c1 r = Some r1 -> store p c2 r1 = store p c2 r.
Proof.
  induction p as [|a p IH]; intros r r1 H; [discriminate|].
  destruct r as [c0|es]; [now rewrite store_file in H|].
  destruct p as [|b p].
  - rewrite store_single in H.
    assert (Hn : forall es1, assoc a es <> Some (Dir es1))
      by (intros es1 E; rewrite E in H; discriminate).
    assert (r1 = Dir (put a (File c1) es)) as ->
      by (destruct (assoc a es) as [[?|?]|]; congruence).
    rewrite !store_single, assoc_put_same, put_put.
    destruct (assoc a es) as [[?|es1]|]; try reflexivity.
    now destruct (Hn es1).
  - rewrite store_deeper in H.
    destruct (assoc a es) as [x|] eqn:Ea; [|discriminate].
    destruct (store (b :: p) c1 x) as [x1|] eqn:E1; [|discriminate].
    injection H as <-.
    rewrite !store_deeper, assoc_put_same, Ea, (IH _ _ E1).
    destruct (store (b :: p) c2 x); [now rewrite put_put | reflexivity].
Qed.

(** A store changes nothing at a path that is neither the file nor one of
    its ancestors. *)
Lemma lookup_store_outside (p : path) (c : content) :
  forall r r' q,
    store p c r = Some r' -> is_prefix q p = false ->
    lookup q r' = lookup q r.
Proof.
  induction p as [|a p IH]; intros r r' q H Hq; [discriminate|].
  destruct r as [c0|es]; [now rewrite store_file in H|].
  destruct q as [|b q]; [discriminate|].
  simpl in Hq.
  destruct p as [|a' p].
  - rewrite store_single in H.
    assert (Hn : forall es1, assoc a es <> Some (Dir es1))
      by (intros es1 E; rewrite E in H; discriminate).
    assert (r' = Dir (put a (File c) es)) as ->
      by (destruct (assoc a es) as [[?|?]|]; congruence).
    simpl. destruct (String.eqb b a) eqn:Eb.
    + apply String.eqb_eq in Eb. subst b. rewrite assoc_put_same.
      destruct q as [|b' q]; [discriminate|]. simpl.
      destruct (assoc a es) as [[?|es1]|]; try reflexivity.
      now destruct (Hn es1).
    + apply String.eqb_neq in Eb. now rewrite assoc_put_other.
  - rewrite store_deeper in H.
    destruct (assoc a es) as [x|] eqn:Ea; [|discriminate].
    destruct (store (a' :: p) c x) as [x'|] eqn:Es; [|discriminate].
    injection H as <-. simpl.
    destruct (String.eqb b a) eqn:Eb.
    + apply String.eqb_eq in Eb. subst b.
      rewrite assoc_put_same, Ea. eapply IH; eauto.
    + apply String.eqb_neq in Eb. now rewrite assoc_put_other.
Qed.

(** A store leaves every other regular file in place. *)
Lemma lookup_store_file (p : path) (c : content) :
  forall r r' q x,
    store p c r = Some r' -> q <> p ->
    lookup q r = Some (File x) -> lookup q r' = Some (File x).
Proof.
  induction p as [|a p IH]; intros r r' q x H Hq Hl; [discriminate|].
  destruct r as [c0|es]; [now rewrite store_file in H|].
  destruct q as [|b q]; [discriminate|].
  simpl in Hl.
  destruct (assoc b es) as [y|] eqn:Eb; [|discriminate].
  destruct p as [|a' p].
  - rewrite store_single in H.
    assert (Hn : forall es1, assoc a es <> Some (Dir es1))
      by (intros es1 E; rewrite E in H; discriminate).
    assert (r' = Dir (put a (File c) es)) as ->
      by (destruct (assoc a es) as [[?|?]|]; congruence).
    simpl. destruct (String.eqb b a) eqn:Eab.
    + apply String.eqb_eq in Eab. subst b. exfalso.
      destruct q as [|b' q]; [now apply Hq|].
      destruct y as [c1|es1]; [discriminate|]. now apply (Hn es1).
    + apply String.eqb_neq in Eab. now rewrite assoc_put_other, Eb.
  - rewrite store_deeper in H.
    destruct (assoc a es) as [z|] eqn:Ea; [|discriminate].
    destruct (store (a' :: p) c z) as [z'|] eqn:Es; [|discriminate].
    injection H as <-. simpl.
    destruct (String.eqb b a) eqn:Eab.
    + apply String.eqb_eq in Eab. subst b.
      rewrite assoc_put_same. rewrite Ea in Eb. injection Eb as <-.
      eapply IH; eauto. congruence.
    + apply String.eqb_neq in Eab. now rewrite assoc_put_other, Eb.
Qed.

(** A store neither makes nor unmakes a directory. *)
Lemma is_dir_store (p : path) (c : content) :
  forall r r' q, store p c r = Some r' -> is_dir r' q = is_dir r q.
Proof.
  induction p as [|a p IH]; intros r r' q H; [discriminate|].
  destruct r as [c0|es]; [now rewrite store_file in H|].
  destruct q as [|b q].
  - destruct (store_result_is_dir _ _ _ _ H) as [es' ->]. reflexivity.
  - unfold is_dir. simpl.
    destruct p as [|a' p].
    + rewrite store_single in H.
      assert (Hn : forall es1, assoc a es <> Some (Dir es1))
        by (intros es1 E; rewrite E in H; discriminate).
      assert (r' = Dir (put a (File c) es)) as ->
        by (destruct (assoc a es) as [[?|?]|]; congruence).
      simpl. destruct (String.eqb b a) eqn:Eab.
      * apply String.eqb_eq in Eab. subst b. rewrite assoc_put_same.
        destruct (assoc a es) as [[c1|es1]|];
          [| now destruct (Hn es1) |]; destruct q; reflexivity.
      * apply String.eqb_neq in Eab. now rewrite assoc_put_other.
    + rewrite store_deeper in H.
      destruct (assoc a es) as [z|] eqn:Ea; [|discriminate].
      destruct (store (a' :: p) c z) as [z'|] eqn:Es; [|discriminate].
      injection H as <-. simpl.
      destruct (String.eqb b a) eqn:Eab.
      * apply String.eqb_eq in Eab. subst b.
        rewrite assoc_put_same, Ea. apply (IH z z' q Es).
      * apply String.eqb_neq in Eab. now rewrite assoc_put_other.
Qed.

Lemma namei_store (p : path) (c : content) (r r' : node) :
  store p c r = Some r' ->
  forall comps cur, namei r' cur comps = namei r cur comps.
Proof.
  intros H. induction comps as [|x comps IH]; intros cur; simpl.
  - reflexivity.
  - rewrite (is_dir_store _ _ _ _ _ H). now rewrite IH.
Qed.

(** A store does not change what names denote. *)
Lemma resolve_store (p : path) (c : content) (r r' : node) (cwd : path)
                    (s : string) :
  store p c r = Some r' -> resolve r' cwd s = resolve r cwd s.
Proof.
  intros H. unfold resolve. destruct (String.eqb s ""); [reflexivity|].
  apply (namei_store _ _ _ _ H).
Qed.

Lemma assoc_in (name : string) (x : node) (es : list (string * node)) :
  assoc name es = Some x -> In (name, x) es.
Proof.
  induction es as [|[k y] es IH]; simpl; [discriminate|].
  destruct (String.eqb name k) eqn:E.
  - apply String.eqb_eq in E. subst. intros H. injection H as <-. now left.
  - intros H. right. auto.
Qed.

Lemma existsb_names (name : string) (x : node) (es : list (string * node)) :
  In (name, x) es -> existsb (String.eqb name) (map fst es) = true.
Proof.
  intros H. apply existsb_exists. exists name. split.
  - apply in_map_iff. now exists (name, x).
  - apply String.eqb_refl.
Qed.

(** Where names are distinct, an entry is found under its name. *)
Lemma assoc_distinct (name : string) (x : node) (es : list (string * node)) :
  distinct (map fst es) = true -> In (name, x) es -> assoc name es = Some x.
Proof.
  induction es as [|[k y] es IH]; simpl; [easy|].
  intros Hd Hin. apply andb_true_iff in Hd. destruct Hd as [Hk Hd].
  destruct Hin as [Heq|Hin].
  - injection Heq as -> ->. now rewrite String.eqb_refl.
  - destruct (String.eqb name k) eqn:E; [|auto].
    apply String.eqb_eq in E. subst k.
    rewrite (existsb_names _ _ _ Hin) in Hk. discriminate.
Qed.

Lemma well_formed_dir (es : list (string * node)) :
  well_formed (Dir es) = true <->
  distinct (map fst es) = true
  /\ forall name x, In (name, x) es -> well_formed x = true.
Proof.
  simpl. rewrite andb_true_iff, forallb_forall. split.
  - intros [Hd Hall]. split; [exact Hd|].
    intros name x Hin. exact (Hall _ Hin).
  - intros [Hd Hall]. split; [exact Hd|].
    intros [name x] Hin. eauto.
Qed.

Lemma well_formed_lookup (p : path) :
  forall r n, well_formed r = true -> lookup p r = Some n ->
              well_formed n = true.
Proof.
  induction p as [|a p IH]; intros r n Hw Hl; simpl in Hl.
  - now injection Hl as <-.
  - destruct r as [c|es]; [discriminate|].
    destruct (assoc a es) as [x|] eqn:Ea; [|discriminate].
    apply well_formed_dir in Hw. destruct Hw as [_ Hall].
    apply (IH x n); [|exact Hl]. eapply Hall, assoc_in; eauto.
Qed.

Lemma existsb_put (k name : string) (x : node) (es : list (string * node)) :
  k <> name ->
  existsb (String.eqb k) (map fst (put name x es))
  = existsb (String.eqb k) (map fst es).
Proof.
  intros Hne. induction es as [|[k' y] es IH]; simpl.
  - apply String.eqb_neq in Hne. now rewrite Hne.
  - destruct (String.eqb name k'); simpl; [reflexivity | now rewrite IH].
Qed.

Lemma distinct_put (name : string) (x : node) (es : list (string * node)) :
  distinct (map fst es) = true -> distinct (map fst (put name x es)) = true.
Proof.
  induction es as [|[k y] es IH]; simpl; [reflexivity|].
  intros Hd. apply andb_true_iff in Hd. destruct Hd as [Hk Hd].
  destruct (String.eqb name k) eqn:E; simpl.
  - now rewrite Hk, Hd.
  - apply String.eqb_neq in E.
    rewrite existsb_put by congruence. now rewrite Hk, IH.
Qed.

Lemma in_put (name : string) (x : node) (es : list (string * node))
             (k : string) (y : node) :
  In (k, y) (put name x es) -> (k, y) = (name, x) \/ In (k, y) es.
Proof.
  induction es as [|[k' z] es IH]; simpl.
  - intros [H|[]]. left. now symmetry.
  - destruct (String.eqb name k') eqn:E; simpl.
    + apply String.eqb_eq in E. subst k'.
      intros [H|H]; [left; now symmetry | right; now right].
    + intros [H|H]; [right; now left|].
      destruct (IH H); [now left | right; now right].
Qed.

Lemma well_formed_put (name : string) (x : node) (es : list (string * node)) :
  well_formed (Dir es) = true -> well_formed x = true ->
  well_formed (Dir (put name x es)) = true.
Proof.
  intros Hw Hx. apply well_formed_dir in Hw. destruct Hw as [Hd Hall].
  apply well_formed_dir. split; [now apply distinct_put|].
  intros k y Hin. apply in_put in Hin. destruct Hin as [Heq|Hin].
  - now injection Heq as -> ->.
  - eauto.
Qed.

(** A store keeps the tree well formed. *)
Lemma well_formed_store (p : path) (c : content) :
  forall r r', store p c r = Some r' -> well_formed r = true ->
               well_formed r' = true.
Proof.
  induction p as [|a p IH]; intros r r' H Hw; [discriminate|].
  destruct r as [c0|es]; [now rewrite store_file in H|].
  destruct p as [|b p].
  - rewrite store_single in H.
    assert (r' = Dir (put a (File c) es)) as ->
      by (destruct (assoc a es) as [[?|?]|]; congruence).
    now apply well_formed_put.
  - rewrite store_deeper in H.
    destruct (assoc a es) as [x|] eqn:Ea; [|discriminate].
    destruct (store (b :: p) c x) as [x'|] eqn:Es; [|discriminate].
    injection H as <-. apply well_formed_put; [exact Hw|].
    apply (IH x x' Es). apply well_formed_dir in Hw.
    destruct Hw as [_ Hall]. eapply Hall, assoc_in; eauto.
Qed.

(** Every path [walk] reports is that of a regular file of the tree. *)
Lemma walk_finds_files (n : node) :
  well_formed n = true ->
  forall pre rel,
    In rel (walk pre n) ->
    exists rel' c, rel = pre ++ rel' /\ lookup rel' n = Some (File c).
Proof.
  induction n as [c|es IH] using node_induction; intros Hw pre rel Hin.
  - destruct Hin.
  - apply well_formed_dir in Hw. destruct Hw as [Hd Hall].
    simpl in Hin. apply in_app_or in Hin. destruct Hin as [Hin|Hin];
      apply in_flat_map in Hin; destruct Hin as ([name x] & He & Hin).
    + destruct x as [c|sub]; [|destruct Hin].
      destruct Hin as [<-|[]].
      exists [name], c. split; [reflexivity|].
      simpl. now rewrite (assoc_distinct _ _ _ Hd He).
    + destruct x as [c|sub]; [destruct Hin|].
      rewrite Forall_forall in IH. specialize (IH _ He). simpl in IH.
      destruct (IH (Hall _ _ He) _ _ Hin) as (rel' & c & -> & Hl).
      exists (name :: rel'), c. split.
      * now rewrite <- app_assoc.
      * simpl. now rewrite (assoc_distinct _ _ _ Hd He).
Qed.

(** [walk] reports as many paths as a directory has files below it. *)
Lemma walk_length (n : node) :
  forall pre,
    List.length (walk pre n)
    = match n with File _ => 0 | Dir _ => count_files n end.
Proof.
  induction n as [c|es IH] using node_induction; intros pre; [reflexivity|].
  simpl. rewrite length_app.
  induction es as [|[name x] es IHes]; [reflexivity|].
  inversion IH as [|? ? Hx Hes]; subst. simpl in Hx.
  specialize (IHes Hes).
  cbn [flat_map map list_sum fold_right]. unfold list_sum in IHes.
  rewrite <- IHes. rewrite !length_app.
  destruct x as [c|sub].
  - simpl. reflexivity.
  - rewrite (Hx (pre ++ [name])). cbn [List.length].
    assert (Harith : forall a b c, 0 + a + (c + b) = c + (a + b)) by lia.
    apply Harith.
Qed.
End FsFacts.

(* ================================================================= *)
(** ** The decoder never runs out of fuel *)

Module JsonFacts.
Import Chars Json.

Lemma skip_ws_length (s : list ascii) :
  List.length (skip_ws s) <= List.length s.
Proof.
  induction s as [|c s IH]; simpl; [lia|].
  destruct (is_ws c); simpl; lia.
Qed.

Lemma span_digits_length (s ds r : list ascii) :
  span_digits s = (ds, r) -> List.length r <= List.length s.
Proof.
  revert ds r. induction s as [|c s IH]; simpl; intros ds r H.
  - injection H as <- <-. simpl. lia.
  - destruct (is_digit c).
    + destruct (span_digits s) as [ds' r'] eqn:E.
      injection H as <- <-. specialize (IH _ _ eq_refl). lia.
    + injection H as <- <-. simpl. lia.
Qed.

Lemma starts_with_length (p s : list ascii) :
  starts_with p s = true -> List.length p <= List.length s.
Proof.
  revert s. induction p as [|a p IH]; intros s H; simpl; [lia|].
  destruct s as [|b s]; [discriminate|]. simpl in H.
  apply andb_true_iff in H. destruct H as [_ H]. apply IH in H. simpl. lia.
Qed.

Lemma literal_length (word : string) (v v' : json) (s r : list ascii) :
  word <> EmptyString ->
  literal word v s = Some (v', r) -> List.length r < List.length s.
Proof.
  intros Hw H. unfold literal in H.
  destruct (starts_with (list_ascii_of_string word) s) eqn:E; [|discriminate].
  injection H as _ <-. apply starts_with_length in E.
  rewrite length_skipn.
  destruct word as [|c word]; [congruence|]. simpl in *. lia.
Qed.

Lemma match_int_length (s i r : list ascii) :
  match_int s = Some (i, r) -> List.length r < List.length s.
Proof.
  unfold match_int. intros H.
  assert (Hdigits : forall t i' r',
             match t with
             | c :: r0 =>
                 if Ascii.eqb c "0" then Some (i' ++ [c], r0)
                 else if is_digit c
                      then let (ds, r1) := span_digits t in Some (i' ++ ds, r1)
                      else None
             | [] => None
             end = Some (i, r') ->
             List.length r' < List.length t).
  { intros t i' r' Ht. destruct t as [|c r0]; [discriminate|].
    destruct (Ascii.eqb c "0").
    - injection Ht as _ <-. simpl. lia.
    - destruct (is_digit c) eqn:Ed; [|discriminate].
      destruct (span_digits (c :: r0)) as [ds r1] eqn:Es.
      injection Ht as _ <-. simpl in Es. rewrite Ed in Es.
      destruct (span_digits r0) as [ds' r2] eqn:Es'.
      injection Es as _ <-. apply span_digits_length in Es'. simpl. lia. }
  destruct s as [|c r0]; [discriminate|].
  destruct (Ascii.eqb c "-").
  - apply Hdigits in H. simpl. lia.
  - apply (Hdigits (c :: r0)) in H. exact H.
Qed.

Lemma match_frac_length (s f r : list ascii) :
  match_frac s = (f, r) -> List.length r <= List.length s.
Proof.
  unfold match_frac. intros H. destruct s as [|c r0].
  - injection H as _ <-. lia.
  - destruct (Ascii.eqb c ".").
    + destruct (span_digits r0) as [[|d ds] r1] eqn:Es.
      * injection H as _ <-. lia.
      * injection H as _ <-. apply span_digits_length in Es. simpl. lia.
    + injection H as _ <-. lia.
Qed.

Lemma match_exp_length (s e r : list ascii) :
  match_exp s = (e, r) -> List.length r <= List.length s.
Proof.
  unfold match_exp. intros H. destruct s as [|c r0].
  - injection H as _ <-. lia.
  - destruct (Ascii.eqb c "e" || Ascii.eqb c "E").
    + assert (Hsign : exists sg r1,
                 match r0 with
                 | d :: r' =>
                     if Ascii.eqb d "+" || Ascii.eqb d "-"
                     then ([d], r') else ([], r0)
                 | [] => ([], r0)
                 end = (sg, r1) /\ List.length r1 <= List.length r0).
      { destruct r0 as [|d r']; [eexists _, _; split; [reflexivity|lia]|].
        destruct (Ascii.eqb d "+" || Ascii.eqb d "-");
          eexists _, _; (split; [reflexivity|simpl; lia]). }
      destruct Hsign as (sg & r1 & Hs & Hl). rewrite Hs in H.
      destruct (span_digits r1) as [[|d ds] r2] eqn:Es.
      * injection H as _ <-. lia.
      * injection H as _ <-. apply span_digits_length in Es. simpl. lia.
    + injection H as _ <-. lia.
Qed.

Lemma match_number_length (s r : list ascii) (v : json) :
  match_number s = Some (v, r) -> List.length r < List.length s.
Proof.
  unfold match_number. intros H.
  destruct (match_int s) as [[i r0]|] eqn:Ei; [|discriminate].
  destruct (match_frac r0) as [f r1] eqn:Ef.
  destruct (match_exp r1) as [e r2] eqn:Ee.
  apply match_int_length in Ei. apply match_frac_length in Ef.
  apply match_exp_length in Ee.
  assert (r = r2) as -> by (destruct f, e; congruence). lia.
Qed.


Lemma scanstring_length (n : nat) :
  forall s acc str r,
    List.length s <= n ->
    scanstring s acc = Some (str, r) -> List.length r < List.length s.
Proof.
  induction n as [|n IH]; intros s acc str r Hn H.
  - destruct s; [discriminate | simpl in Hn; lia].
  - destruct s as [|c s1]; [discriminate|].
    cbn [scanstring] in H.
    destruct (Ascii.eqb c dquote); [injection H as _ <-; simpl; lia|].
    destruct (Ascii.eqb c backslash).
    + destruct s1 as [|e s2]; [discriminate|].
      destruct (Ascii.eqb e "u").
      * destruct s2 as [|h1 [|h2 [|h3 [|h4 s6]]]]; try discriminate.
        destruct (hex4 h1 h2 h3 h4) as [uni|]; [|discriminate].
        cbv zeta in H.
        assert (Hsingle : forall acc',
                   scanstring s6 acc' = Some (str, r) ->
                   List.length r
                   < List.length (c :: e :: h1 :: h2 :: h3 :: h4 :: s6)).
        { intros acc' Hs. apply IH in Hs; cbn [List.length] in *; lia. }
        destruct (is_high_surrogate uni); [|eauto].
        destruct s6 as [|b [|u s8]]; [eauto | eauto |].
        destruct (Ascii.eqb b backslash && Ascii.eqb u "u") eqn:Ebu.
        -- destruct s8 as [|g1 [|g2 [|g3 [|g4 s12]]]];
             cbv iota beta in H; rewrite ?Ebu in H; try discriminate.
           destruct (hex4 g1 g2 g3 g4) as [uni2|]; [|discriminate].
           destruct (is_low_surrogate uni2); [|eauto].
           apply IH in H; cbn [List.length] in *; lia.
        -- destruct s8 as [|g1 [|g2 [|g3 [|g4 s12]]]];
             cbv iota beta in H; rewrite ?Ebu in H; eauto.
      * destruct (simple_escape e); [|discriminate].
        apply IH in H; cbn [List.length] in *; lia.
    + destruct (code c <? 32)%N; [discriminate|].
      apply IH in H; cbn [List.length] in *; lia.
Qed.

Lemma array_items_enough (scan : list ascii -> scan_result) (bound : nat) :
  (forall s, List.length s < bound ->
             scan s <> Exhausted
             /\ forall v r, scan s = Value v r -> List.length r < List.length s) ->
  forall n acc s,
    List.length s < n -> n <= bound ->
    array_items scan n acc s <> Exhausted
    /\ forall v r, array_items scan n acc s = Value v r ->
                   List.length r < List.length s.
Proof.
  intros Hscan. induction n as [|n IH]; intros acc s Hs Hn; [lia|].
  simpl. destruct (Hscan s) as [Hne Hlen]; [lia|].
  destruct (scan s) as [v r| |] eqn:E;
    [| split; [discriminate | intros; discriminate] | congruence].
  specialize (Hlen _ _ eq_refl). pose proof (skip_ws_length r) as Hw.
  destruct (skip_ws r) as [|c r'] eqn:Er;
    [split; [discriminate | intros; discriminate]|].
  destruct (Ascii.eqb c "]").
  { split; [discriminate|]. intros v' r'' H. injection H as _ <-.
    simpl in *. lia. }
  destruct (Ascii.eqb c ",").
  { pose proof (skip_ws_length r') as Hw'.
    destruct (IH (v :: acc) (skip_ws r')) as [A B];
      [simpl in *; lia | lia |].
    split; [exact A|]. intros v' r'' H. apply B in H. simpl in *. lia. }
  split; [discriminate | intros; discriminate].
Qed.

Lemma object_members_enough (scan : list ascii -> scan_result) (bound : nat) :
  (forall s, List.length s < bound ->
             scan s <> Exhausted
             /\ forall v r, scan s = Value v r -> List.length r < List.length s) ->
  forall n acc s,
    List.length s < n -> n <= bound ->
    object_members scan n acc s <> Exhausted
    /\ forall v r, object_members scan n acc s = Value v r ->
                   List.length r < List.length s.
Proof.
  intros Hscan. induction n as [|n IH]; intros acc s Hs Hn; [lia|].
  simpl.
  destruct s as [|q r0]; [split; [discriminate | intros; discriminate]|].
  destruct (Ascii.eqb q dquote);
    [|split; [discriminate | intros; discriminate]].
  destruct (scanstring r0 []) as [[key r]|] eqn:Ek;
    [|split; [discriminate | intros; discriminate]].
  apply (scanstring_length _ _ _ _ _ (le_n _)) in Ek.
  pose proof (skip_ws_length r) as Hw.
  destruct (skip_ws r) as [|c r1] eqn:Er;
    [split; [discriminate | intros; discriminate]|].
  destruct (Ascii.eqb c ":");
    [|split; [discriminate | intros; discriminate]].
  pose proof (skip_ws_length r1) as Hw1.
  destruct (Hscan (skip_ws r1)) as [Hne Hlen]; [simpl in *; lia|].
  destruct (scan (skip_ws r1)) as [v r2| |] eqn:E;
    [| split; [discriminate | intros; discriminate] | congruence].
  specialize (Hlen _ _ eq_refl). pose proof (skip_ws_length r2) as Hw2.
  destruct (skip_ws r2) as [|d r3] eqn:Er2;
    [split; [discriminate | intros; discriminate]|].
  destruct (Ascii.eqb d "}").
  { split; [discriminate|]. intros v' r'' H. injection H as _ <-.
    simpl in *. lia. }
  destruct (Ascii.eqb d ",").
  { pose proof (skip_ws_length r3) as Hw3.
    destruct (IH (dict_set key v acc) (skip_ws r3)) as [A B];
      [simpl in *; lia | lia |].
    split; [exact A|]. intros v' r'' H. apply B in H. simpl in *. lia. }
  split; [discriminate | intros; discriminate].
Qed.

(** With more fuel than characters, the scanner decides, and a value it
    reads uses up at least one character. *)
Lemma scan_once_enough (fuel : nat) :
  forall s,
    List.length s < fuel ->
    scan_once fuel s <> Exhausted
    /\ forall v r, scan_once fuel s = Value v r ->
                   List.length r < List.length s.
Proof.
  induction fuel as [|fuel IH]; intros s Hs; [lia|].
  destruct s as [|c r]; cbn [scan_once];
    [split; [discriminate | intros; discriminate]|].
  destruct (Ascii.eqb c dquote).
  { destruct (scanstring r []) as [[str r']|] eqn:E;
      (split; [discriminate|]); intros v r0 H; [|discriminate].
    injection H as _ <-.
    apply (scanstring_length _ _ _ _ _ (le_n _)) in E. simpl. lia. }
  destruct (Ascii.eqb c "{").
  { pose proof (skip_ws_length r) as Hw.
    destruct (skip_ws r) as [|d r'] eqn:Er;
      [split; [discriminate | intros; discriminate]|].
    destruct (Ascii.eqb d "}").
    { split; [discriminate|]. intros v r0 H. injection H as _ <-.
      simpl in *. lia. }
    destruct (object_members_enough (scan_once fuel) fuel IH fuel []
                                    (d :: r')) as [A B];
      [simpl in *; lia | lia |].
    split; [exact A|]. intros v r0 H. apply B in H. simpl in *. lia. }
  destruct (Ascii.eqb c "[").
  { pose proof (skip_ws_length r) as Hw.
    destruct (skip_ws r) as [|d r'] eqn:Er;
      [split; [discriminate | intros; discriminate]|].
    destruct (Ascii.eqb d "]").
    { split; [discriminate|]. intros v r0 H. injection H as _ <-.
      simpl in *. lia. }
    destruct (array_items_enough (scan_once fuel) fuel IH fuel []
                                 (d :: r')) as [A B];
      [simpl in *; lia | lia |].
    split; [exact A|]. intros v r0 H. apply B in H. simpl in *. lia. }
  cbv zeta beta.
  destruct (literal "null" JNull (c :: r)) as [[v0 r0]|] eqn:E1.
  { split; [discriminate|]. intros v r1 H. injection H as _ <-.
    now apply literal_length in E1. }
  destruct (literal "true" (JBool true) (c :: r)) as [[v0 r0]|] eqn:E2.
  { split; [discriminate|]. intros v r1 H. injection H as _ <-.
    now apply literal_length in E2. }
  destruct (literal "false" (JBool false) (c :: r)) as [[v0 r0]|] eqn:E3.
  { split; [discriminate|]. intros v r1 H. injection H as _ <-.
    now apply literal_length in E3. }
  destruct (match_number (c :: r)) as [[v0 r0]|] eqn:E4.
  { split; [discriminate|]. intros v r1 H. injection H as _ <-.
    now apply match_number_length in E4. }
  destruct (literal "NaN" (JFloat "NaN") (c :: r)) as [[v0 r0]|] eqn:E5.
  { split; [discriminate|]. intros v r1 H. injection H as _ <-.
    now apply literal_length in E5. }
  destruct (literal "Infinity" (JFloat "Infinity") (c :: r))
    as [[v0 r0]|] eqn:E6.
  { split; [discriminate|]. intros v r1 H. injection H as _ <-.
    now apply literal_length in E6. }
  destruct (literal "-Infinity" (JFloat "-Infinity") (c :: r))
    as [[v0 r0]|] eqn:E7.
  { split; [discriminate|]. intros v r1 H. injection H as _ <-.
    now apply literal_length in E7. }
  split; [discriminate | intros; discriminate].
Qed.

(** [loads] gives the scanner enough fuel: its error is never for lack of
    it. *)
Lemma loads_never_exhausted (text : string) :
  let s := list_ascii_of_string text in
  scan_once (S (List.length s)) (skip_ws s) <> Exhausted.
Proof.
  intros s. apply scan_once_enough.
  pose proof (skip_ws_length s). lia.
Qed.
End JsonFacts.

(* ================================================================= *)
(** ** The configuration loader *)

Module ConfigProps.
Import Chars Json Py Uploader.

Lemma resolve_CONFIG_FILE (r : Fs.node) (d : Fs.path) :
  Fs.resolve r d CONFIG_FILE =
  if Fs.is_dir r d then Some (d ++ [CONFIG_FILE]) else None.
Proof.
  unfold Fs.resolve, CONFIG_FILE. cbn [String.eqb Ascii.eqb Bool.eqb].
  cbn [Fs.is_absolute Ascii.eqb Bool.eqb Fs.split_on].
  cbn [Fs.namei]. destruct (Fs.is_dir r d); reflexivity.
Qed.

(** The text the loader writes is read back as the value it returns. *)
Lemma default_config_round_trip :
  loads (dumps 4 DEFAULT_CONFIG) = Parsed DEFAULT_CONFIG.
Proof. vm_compute. reflexivity. Qed.


(** C6.  When no configuration file exists (and the working directory does,
    and the environment lets the file be opened for writing), [load_config]
    returns [DEFAULT_CONFIG], whose auto-upload flag is on and whose method
    is FTP; the file it leaves holds the indented dump of [DEFAULT_CONFIG];
    reading and parsing that file yields exactly the value returned. *)
Theorem load_config_writes_defaults (w : world) :
  Fs.is_dir (root w) (cwd w) = true ->
  os_path_exists CONFIG_FILE w = false ->
  (forall h, faults w h (open_w CONFIG_FILE) = None) ->
  exists w',
    load_config w = (Return DEFAULT_CONFIG, w')
    /\ subscript DEFAULT_CONFIG "auto_upload" = inr (JBool true)
    /\ subscript DEFAULT_CONFIG "upload_method" = inr (JString "ftp")
    /\ read CONFIG_FILE w' = inr (Fs.Bytes (dumps 4 DEFAULT_CONFIG), root w')
    /\ json_load (Fs.Bytes (dumps 4 DEFAULT_CONFIG)) w'
       = (Return DEFAULT_CONFIG, w').
Proof.
  intros Hcwd Hnone Hcalm.
  assert (Hres : Fs.resolve (root w) (cwd w) CONFIG_FILE
                 = Some (cwd w ++ [CONFIG_FILE]))
    by (rewrite resolve_CONFIG_FILE, Hcwd; reflexivity).
  assert (Habsent : Fs.lookup (cwd w ++ [CONFIG_FILE]) (root w) = None).
  { unfold os_path_exists in Hnone. rewrite Hres in Hnone.
    unfold Fs.exists_at in Hnone.
    destruct (Fs.lookup (cwd w ++ [CONFIG_FILE]) (root w)); congruence. }
  destruct (FsFacts.store_in_directory (cwd w) CONFIG_FILE
              (Fs.Bytes (dumps 4 DEFAULT_CONFIG)) (root w) Hcwd) as [r' Hst].
  { intros es. rewrite Habsent. discriminate. }
  eexists. split.
  { unfold load_config. rewrite Hnone.
    unfold bind, log, emit, perform, ret, write.
    cbn [negb record history faults root cwd].
    rewrite Hcalm, Hres, Hst. reflexivity. }
  split; [reflexivity|]. split; [reflexivity|]. split.
  - unfold read. cbn [root cwd record with_root].
    rewrite resolve_CONFIG_FILE.
    rewrite (FsFacts.store_keeps_dirs _ _ _ _ _ Hst Hcwd).
    now rewrite (FsFacts.store_lookup_same _ _ _ _ Hst).
  - unfold json_load. now rewrite default_config_round_trip.
Qed.

(** C7.  When the configuration file holds a text that parses, to [d] say,
    [load_config] returns [d] itself, whatever [d] is, and leaves the file
    tree as it was. *)
Theorem load_config_returns_stored (w : world) (p : Fs.path) (text : string)
                                   (d : json) :
  Fs.resolve (root w) (cwd w) CONFIG_FILE = Some p ->
  Fs.lookup p (root w) = Some (Fs.File (Fs.Bytes text)) ->
  loads text = Parsed d ->
  (forall h, faults w h (open_r CONFIG_FILE) = None) ->
  exists w',
    load_config w = (Return d, w')
    /\ root w' = root w
    /\ history w' = history w ++ [Did (open_r CONFIG_FILE) None].
Proof.
  intros Hres Hfile Hparse Hcalm.
  eexists. split.
  { unfold load_config, os_path_exists, Fs.exists_at.
    rewrite Hres, Hfile. unfold bind, perform, read, json_load.
    cbn [negb]. rewrite Hcalm, Hres, Hfile, Hparse. reflexivity. }
  split; reflexivity.
Qed.

(** C8.  When the configuration file holds a text that does not parse,
    [load_config] raises the decoding error and leaves the file tree as it
    was: nothing is written.  The script, which calls [load_config] outside
    any [try], ends with that error. *)
Theorem load_config_malformed_raises (w : world) (p : Fs.path) (text : string) :
  Fs.resolve (root w) (cwd w) CONFIG_FILE = Some p ->
  Fs.lookup p (root w) = Some (Fs.File (Fs.Bytes text)) ->
  loads text = JSONDecodeError ->
  (forall h, faults w h (open_r CONFIG_FILE) = None) ->
  (exists w',
      load_config w = (Raise (ValueError "JSONDecodeError"), w')
      /\ root w' = root w
      /\ history w' = history w ++ [Did (open_r CONFIG_FILE) None])
  /\ (forall ticks, exists w',
        main ticks w = (Raise (ValueError "JSONDecodeError"), w')
        /\ root w' = root w).
Proof.
  intros Hres Hfile Hparse Hcalm.
  assert (Hload : forall v : world,
             root v = root w -> cwd v = cwd w -> faults v = faults w ->
             exists v', load_config v = (Raise (ValueError "JSONDecodeError"), v')
                        /\ root v' = root w
                        /\ history v' = history v ++ [Did (open_r CONFIG_FILE) None]).
  { intros v Hr Hc Hf. eexists. split.
    { unfold load_config, os_path_exists, Fs.exists_at.
      rewrite Hr, Hc, Hres, Hfile. unfold bind, perform, read, json_load.
      cbn [negb]. rewrite Hf, Hcalm, Hr, Hc, Hres, Hfile, Hparse.
      reflexivity. }
    split; reflexivity. }
  split.
  - apply Hload; reflexivity.
  - intros ticks. unfold main.
    unfold bind at 1. unfold log at 1, emit at 1. unfold bind at 1.
    destruct (Hload (record (Log INFO
                [Lit "插件自动化更新程序已启动，开始加载配置..."]) w))
      as (v' & Hv & Hroot & _); try reflexivity.
    rewrite Hv. eauto.
Qed.

(** The defaults are written in a tree that has no [config.json]. *)
Lemma load_config_writes_defaults_witness :
  let w := Samples.at_home Samples.plugin_tree Samples.calm in
  Fs.is_dir (root w) (cwd w) = true
  /\ os_path_exists CONFIG_FILE w = false
  /\ exists w',
       load_config w = (Return DEFAULT_CONFIG, w')
       /\ read CONFIG_FILE w' = inr (Fs.Bytes (dumps 4 DEFAULT_CONFIG), root w').
Proof.
  intros w. split; [reflexivity|]. split; [reflexivity|].
  destruct (load_config_writes_defaults w) as (w' & H & _ & _ & Hr & _);
    [reflexivity | reflexivity | intros; reflexivity |].
  exists w'. split; assumption.
Defined.

(** A stored document of one field is returned as it is. *)
Lemma load_config_returns_stored_witness :
  let d := JObject [("auto_upload", JBool false)] in
  let w := Samples.at_home (Samples.configured (dumps 4 d)) Samples.calm in
  loads (dumps 4 d) = Parsed d
  /\ exists w', load_config w = (Return d, w') /\ root w' = root w.
Proof.
  intros d w. split; [reflexivity|].
  destruct (load_config_returns_stored w ["home"; "config.json"] (dumps 4 d) d)
    as (w' & H & Hr & _);
    [reflexivity | reflexivity | reflexivity | intros; reflexivity |].
  exists w'. split; assumption.
Defined.

(** A lone opening brace is rejected. *)
Lemma load_config_malformed_raises_witness :
  let w := Samples.at_home (Samples.configured "{") Samples.calm in
  loads "{" = JSONDecodeError
  /\ exists w',
       load_config w = (Raise (ValueError "JSONDecodeError"), w')
       /\ root w' = root w.
Proof.
  intros w. split; [reflexivity|].
  destruct (load_config_malformed_raises w ["home"; "config.json"] "{")
    as ((w' & H & Hr & _) & _);
    [reflexivity | reflexivity | reflexivity | intros; reflexivity |].
  exists w'. split; assumption.
Defined.
End ConfigProps.

(* ================================================================= *)
(** ** The transports *)

Module TransportProps.
Import Chars Json Py Uploader Trace.

(** Symbolic execution of a straight-line computation: unfold the monad,
    then split on the outcome of each step in turn. *)
Ltac tidy H :=
  cbv beta iota delta [ret raise hang] in H;
  cbn [record with_root history faults root cwd is_Exception] in H;
  repeat (match goal with
          | E : is_Exception _ = true |- _ => rewrite E in H
          end;
          cbv beta iota in H).

Ltac unfold_monad H :=
  unfold item, lift, log, emit, invoke, perform,
         try_except_Exception, with_exit, bind in H;
  tidy H.

Lemma subscript_Exception (v : json) (k : string) (e : exn) :
  subscript v k = inl e -> is_Exception e = true.
Proof.
  destruct v; simpl; try (intros H; injection H as <-; reflexivity).
  destruct (dict_get k members); intros H; inversion H; reflexivity.
Qed.

Lemma get_method_Exception (v : json) (k : string) (e : exn) :
  get_method v k = inl e -> is_Exception e = true.
Proof.
  destruct v; simpl; try (intros H; injection H as <-; reflexivity).
  destruct (dict_get k members); discriminate.
Qed.

Ltac split_step H :=
  match type of H with
  | context [match subscript ?v ?k with _ => _ end] =>
      let E := fresh "E" in
      destruct (subscript v k) eqn:E;
      [apply subscript_Exception in E|]
  | context [match get_method ?v ?k with _ => _ end] =>
      let E := fresh "E" in
      destruct (get_method v k) eqn:E;
      [apply get_method_Exception in E|]
  | context [match faults ?w ?h ?c with _ => _ end] =>
      destruct (faults w h c) eqn:?
  | context [match read ?n ?w with _ => _ end] =>
      destruct (read n w) as [?|[? ?]] eqn:?
  | context [if truthy ?v then _ else _] =>
      destruct (truthy v) eqn:?
  end;
  tidy H.

(** Closing a branch: the events added are read off the final world. *)
Ltac added H :=
  injection H as <- <-;
  cbn [record with_root history];
  rewrite <- ?app_assoc;
  eexists; split; [first [reflexivity | symmetry; apply app_nil_r]|];
  cbn [app].

Ltac absurd_member H :=
  exfalso; cbn [In] in H;
  repeat (destruct H as [H|H]; [discriminate H|]); exact H.

Lemma added_app (w w' : world) (l : list event) :
  history w' = history w ++ l -> added w w' = l.
Proof.
  intros H. unfold added. rewrite H.
  rewrite skipn_app, skipn_all, Nat.sub_diag. reflexivity.
Qed.

(** Membership in an explicit list of events: the impossible members are
    discarded, the possible ones identified. *)
Ltac member H :=
  cbn [In] in H;
  repeat (destruct H as [H|H]; [try discriminate H|]);
  try contradiction.

Lemma upload_ftp_try (config : json) (zip_path : string) (w : world) :
  forall r w',
    upload_ftp config zip_path w = (r, w') ->
    exists l,
      history w' = history w ++ l
      /\ (forall c x, In (Did c (Some x)) l ->
          r = Return tt
          /\ exists e, last l (Log INFO [])
                       = Log ERROR [Lit "FTP 上传失败: "; Exc e]).
Proof.
  intros r w' H. unfold upload_ftp in H. unfold_monad H.
  repeat split_step H.
  all: added H.
  all: intros c0 x0 Hin.
  all: first [ absurd_member Hin
             | split; [reflexivity | eexists; reflexivity] ].
Qed.

Lemma upload_sftp_try (config : json) (zip_path : string) (w : world) :
  forall r w',
    upload_sftp config zip_path w = (r, w') ->
    exists l,
      history w' = history w ++ l
      /\ (forall c x, In (Did c (Some x)) l ->
          r = Return tt
          /\ exists e, last l (Log INFO [])
                       = Log ERROR [Lit "SFTP 上传失败: "; Exc e]).
Proof.
  intros r w' H. unfold upload_sftp in H. unfold_monad H.
  repeat split_step H.
  all: added H.
  all: intros c0 x0 Hin.
  all: first [ absurd_member Hin
             | split; [reflexivity | eexists; reflexivity] ].
Qed.

(** With its block of the configuration at hand, a transport returns
    normally whatever happens. *)
Lemma upload_ftp_returns (config b : json) (zip_path : string) (w : world) :
  subscript config "ftp" = inr b ->
  exists w', upload_ftp config zip_path w = (Return tt, w').
Proof.
  intros Hb. destruct (upload_ftp config zip_path w) as [r w'] eqn:H.
  unfold upload_ftp in H. unfold_monad H. rewrite Hb in H. tidy H.
  repeat split_step H.
  all: injection H as <- <-; eauto.
Qed.

Lemma upload_sftp_returns (config b : json) (zip_path : string) (w : world) :
  subscript config "sftp" = inr b ->
  exists w', upload_sftp config zip_path w = (Return tt, w').
Proof.
  intros Hb. destruct (upload_sftp config zip_path w) as [r w'] eqn:H.
  unfold upload_sftp in H. unfold_monad H. rewrite Hb in H. tidy H.
  repeat split_step H.
  all: injection H as <- <-; eauto.
Qed.
(** C2.  Whatever the configuration, the file and the environment: when a
    call made by [upload_ftp] or by [upload_sftp] fails (connecting, logging
    in, changing directory, opening the session or the file, transferring,
    leaving), the function returns normally and the last thing it did was to
    log the error.  Once past the lookup of its block of the configuration,
    which precedes the [try], either function returns normally in every
    run. *)
Theorem transports_catch_failures (config : json) (zip_path : string)
                                  (w : world) :
  (forall r w',
      upload_ftp config zip_path w = (r, w') ->
      history w' = history w ++ added w w'
      /\ forall c x,
           In (Did c (Some x)) (added w w') ->
           r = Return tt
           /\ exists e, last (added w w') (Log INFO [])
                        = Log ERROR [Lit "FTP 上传失败: "; Exc e])
  /\ (forall r w',
      upload_sftp config zip_path w = (r, w') ->
      history w' = history w ++ added w w'
      /\ forall c x,
           In (Did c (Some x)) (added w w') ->
           r = Return tt
           /\ exists e, last (added w w') (Log INFO [])
                        = Log ERROR [Lit "SFTP 上传失败: "; Exc e])
  /\ (forall b, subscript config "ftp" = inr b ->
                exists w', upload_ftp config zip_path w = (Return tt, w'))
  /\ (forall b, subscript config "sftp" = inr b ->
                exists w', upload_sftp config zip_path w = (Return tt, w')).
Proof.
  split; [|split; [|split]].
  - intros r w' Hrun.
    destruct (upload_ftp_try _ _ _ _ _ Hrun) as (l & Hl & Hc).
    rewrite (added_app _ _ _ Hl). auto.
  - intros r w' Hrun.
    destruct (upload_sftp_try _ _ _ _ _ Hrun) as (l & Hl & Hc).
    rewrite (added_app _ _ _ Hl). auto.
  - intros b Hb. exact (upload_ftp_returns _ _ _ _ Hb).
  - intros b Hb. exact (upload_sftp_returns _ _ _ _ Hb).
Qed.

Ltac identify H := inversion H; subst; clear H.

Lemma upload_sftp_closes (config : json) (zip_path : string) (w : world) :
  forall r w',
    upload_sftp config zip_path w = (r, w') ->
    exists l,
      history w' = history w ++ l
      /\ (forall h p c x,
            In (Did (Transport h p) None) l ->
            after_connection c = true ->
            In (Did c (Some x)) l ->
            r = Return tt
            /\ last l (Log INFO []) = Log ERROR [Lit "SFTP 上传失败: "; Exc x]
            /\ (forall o, ~ In (Did SFTPClient_close o) l)
            /\ (forall o, ~ In (Did Transport_close o) l))
      /\ (forall o c x,
            In (Did SFTPClient_close o) l -> In (Did c (Some x)) l ->
            c = SFTPClient_close \/ c = Transport_close)
      /\ (forall o c x,
            In (Did Transport_close o) l -> In (Did c (Some x)) l ->
            c = Transport_close).
Proof.
  intros r w' H. unfold upload_sftp in H. unfold_monad H.
  repeat split_step H.
  all: added H.
  all: split; [|split].
  all: try (intros h0 p0 c0 x0 _ Hc Hf; member Hf; identify Hf;
            first [ discriminate Hc
                  | repeat split; try reflexivity;
                    intros o Hin; absurd_member Hin ]).
  all: intros o c0 x0 Hclose Hf; member Hf; identify Hf;
       first [ absurd_member Hclose | auto ].
Qed.

(** C10.  In a run of [upload_sftp] that has opened the transport and in
    which a later step (loading the key, authenticating, opening the SFTP
    session, putting the file) fails, the function logs that failure and
    returns normally, and it calls neither [sftp.close()] nor
    [transport.close()].  A run that calls [transport.close()] is one in
    which no earlier call failed, and one that calls [sftp.close()] one in
    which nothing failed before it. *)
Theorem upload_sftp_leaks_transport (config : json) (zip_path : string)
                                    (w : world) :
  forall r w',
    upload_sftp config zip_path w = (r, w') ->
    history w' = history w ++ added w w'
    /\ (forall h p c x,
        In (Did (Transport h p) None) (added w w') ->
        after_connection c = true ->
        In (Did c (Some x)) (added w w') ->
        r = Return tt
        /\ last (added w w') (Log INFO [])
           = Log ERROR [Lit "SFTP 上传失败: "; Exc x]
        /\ (forall o, ~ In (Did SFTPClient_close o) (added w w'))
        /\ (forall o, ~ In (Did Transport_close o) (added w w')))
    /\ (forall o c x,
          In (Did SFTPClient_close o) (added w w') ->
          In (Did c (Some x)) (added w w') ->
          c = SFTPClient_close \/ c = Transport_close)
    /\ (forall o c x,
          In (Did Transport_close o) (added w w') ->
          In (Did c (Some x)) (added w w') ->
          c = Transport_close).
Proof.
  intros r w' Hrun.
  destruct (upload_sftp_closes _ _ _ _ _ Hrun) as (l & Hl & H).
  rewrite (added_app _ _ _ Hl). split; [exact Hl | exact H].
Qed.

(** A rejected password after the connection: no [close] is called. *)
Lemma upload_sftp_leaks_transport_witness :
  let w := Samples.at_home Samples.plugin_tree Samples.sftp_denied in
  let run := upload_sftp Samples.sftp_config "/tmp/plugin.zip" w in
  In (Did (Transport (JString "sftp.example.com") (JInt 22)) None)
     (added w (snd run))
  /\ fst run = Return tt
  /\ (forall o, ~ In (Did SFTPClient_close o) (added w (snd run)))
  /\ (forall o, ~ In (Did Transport_close o) (added w (snd run))).
Proof.
  intros w run.
  assert (Ht : In (Did (Transport (JString "sftp.example.com") (JInt 22)) None)
                  (added w (snd run)))
    by (vm_compute; tauto).
  split; [exact Ht|].
  destruct (proj1 (proj2 (upload_sftp_leaks_transport
                            Samples.sftp_config "/tmp/plugin.zip" w
                            (fst run) (snd run) eq_refl))
                  _ _
                  (Transport_connect_password (JString "alice") (JString "secret"))
                  (Error "Authentication failed.") Ht eq_refl)
    as (Hr & _ & Hs & Hc).
  - vm_compute. tauto.
  - split; [exact Hr|]. split; assumption.
Defined.


(** A rejected login is caught and logged. *)
Lemma transports_catch_failures_witness :
  let w := Samples.at_home Samples.plugin_tree Samples.wrong_password in
  let run := upload_ftp (Samples.ftp_config false) "/tmp/plugin.zip" w in
  In (Did (FTP_login (JString "alice") (JString "secret"))
          (Some (Error "530 Login incorrect")))
     (added w (snd run))
  /\ fst run = Return tt
  /\ exists e, last (added w (snd run)) (Log INFO [])
               = Log ERROR [Lit "FTP 上传失败: "; Exc e].
Proof.
  intros w run.
  assert (Hin : In (Did (FTP_login (JString "alice") (JString "secret"))
                        (Some (Error "530 Login incorrect")))
                   (added w (snd run)))
    by (vm_compute; tauto).
  split; [exact Hin|].
  apply (proj2 (proj1 (transports_catch_failures
                         (Samples.ftp_config false) "/tmp/plugin.zip" w)
                      (fst run) (snd run) eq_refl)
               _ _ Hin).
Defined.
End TransportProps.

(* ================================================================= *)
(** ** Rules for what computations add to the history *)

Module TraceFacts.
Import Json Py Uploader Trace.
Local Open Scope py_scope.

Section Rules.
Context {A B : Type} (P : event -> Prop).

Lemma adds_ret (a : A) : adds P (ret a).
Proof.
  intros w r w' H. injection H as <- <-. exists []. now rewrite app_nil_r.
Qed.

Lemma adds_raise (e : exn) : adds P (@raise A e).
Proof.
  intros w r w' H. injection H as <- <-. exists []. now rewrite app_nil_r.
Qed.

Lemma adds_hang : adds P (@hang A).
Proof.
  intros w r w' H. injection H as <- <-. exists []. now rewrite app_nil_r.
Qed.

Lemma adds_lift (x : exn + A) : adds P (lift x).
Proof. destruct x; [apply adds_raise | apply adds_ret]. Qed.

(** A step that changes the world and not its history. *)
Lemma adds_silent (a : A) (f : world -> world) :
  (forall w, history (f w) = history w) ->
  adds P (fun w => (Return a, f w)).
Proof.
  intros Hf w r w' H. injection H as <- <-. exists [].
  now rewrite Hf, app_nil_r.
Qed.

Lemma adds_bind (m : M A) (k : A -> M B) :
  adds P m -> (forall a, adds P (k a)) -> adds P (bind m k).
Proof.
  intros Hm Hk w r w' H. unfold bind in H.
  destruct (m w) as [[a|e|] w1] eqn:Em.
  - destruct (Hm _ _ _ Em) as (l1 & H1 & F1).
    destruct (Hk a _ _ _ H) as (l2 & H2 & F2).
    exists (l1 ++ l2). rewrite H2, H1, app_assoc. split; [reflexivity|].
    apply Forall_app; auto.
  - injection H as <- <-. eauto.
  - injection H as <- <-. eauto.
Qed.

Lemma adds_perform (c : call) (effect : world -> string + (A * Fs.node)) :
  (forall o, P (Did c o)) -> adds P (perform c effect).
Proof.
  intros Hc w r w' H. unfold perform in H.
  destruct (faults w (history w) c) as [msg|].
  - injection H as <- <-. eexists. split; [reflexivity|]. auto.
  - destruct (effect w) as [msg|[a rt]]; injection H as <- <-;
      (eexists; split; [reflexivity|]; auto).
Qed.

Lemma adds_try (body : M A) (handler : exn -> M A) :
  adds P body -> (forall e, adds P (handler e)) ->
  adds P (try_except_Exception body handler).
Proof.
  intros Hb Hh w r w' H. unfold try_except_Exception in H.
  destruct (body w) as [[a|e|] w1] eqn:Eb.
  - injection H as <- <-. eauto.
  - destruct (Hb _ _ _ Eb) as (l1 & H1 & F1).
    destruct (is_Exception e).
    + destruct (Hh e _ _ _ H) as (l2 & H2 & F2).
      exists (l1 ++ l2). rewrite H2, H1, app_assoc. split; [reflexivity|].
      apply Forall_app; auto.
    + injection H as <- <-. eauto.
  - injection H as <- <-. eauto.
Qed.

Lemma adds_with_exit (body : M A) (leave : M unit) :
  adds P body -> adds P leave -> adds P (with_exit body leave).
Proof.
  intros Hb Hl w r w' H. unfold with_exit in H.
  destruct (body w) as [[a|e|] w1] eqn:Eb;
    destruct (Hb _ _ _ Eb) as (l1 & H1 & F1).
  - destruct (leave w1) as [[u|e|] w2] eqn:El;
      destruct (Hl _ _ _ El) as (l2 & H2 & F2);
      injection H as <- <-;
      (exists (l1 ++ l2); rewrite H2, H1, app_assoc; split; [reflexivity|];
       apply Forall_app; auto).
  - destruct (leave w1) as [[u|e'|] w2] eqn:El;
      destruct (Hl _ _ _ El) as (l2 & H2 & F2);
      injection H as <- <-;
      (exists (l1 ++ l2); rewrite H2, H1, app_assoc; split; [reflexivity|];
       apply Forall_app; auto).
  - injection H as <- <-. eauto.
Qed.

Lemma adds_weaken (Q : event -> Prop) (m : M A) :
  (forall e, Q e -> P e) -> adds Q m -> adds P m.
Proof.
  intros HQ Hm w r w' H. destruct (Hm _ _ _ H) as (l & Hl & F).
  exists l. split; [exact Hl|]. eapply Forall_impl; eauto.
Qed.

End Rules.

Lemma adds_emit (P : event -> Prop) (e : event) : P e -> adds P (emit e).
Proof.
  intros He w r w' H. injection H as <- <-. exists [e]. split; auto.
Qed.

Lemma adds_invoke (P : event -> Prop) (c : call) :
  (forall o, P (Did c o)) -> adds P (invoke c).
Proof. apply adds_perform. Qed.

Lemma adds_item (P : event -> Prop) (v : json) (k : string) :
  adds P (item v k).
Proof. apply adds_lift. Qed.

(** The rules, applied as far as they go. *)
Ltac adds_rules :=
  repeat first
    [ apply adds_ret | apply adds_raise | apply adds_hang
    | apply adds_item | apply adds_lift
    | apply adds_emit; [exact I || reflexivity]
    | apply adds_invoke; [intros ?; exact I || reflexivity]
    | apply adds_perform; [intros ?; exact I || reflexivity]
    | apply adds_try; [|intros ?]
    | apply adds_with_exit
    | apply adds_bind; [|intros ?]
    | match goal with
      | |- adds _ (if ?b then _ else _) => destruct b
      end ].

End TraceFacts.

(* ================================================================= *)
(** ** The orchestrator *)

Module OrchestratorProps.
Import Chars Json Py Uploader Trace TraceFacts.
Local Open Scope py_scope.

Lemma bind_return {A B : Type} (m : M A) (k : A -> M B) (w w1 : world) (a : A) :
  m w = (Return a, w1) -> bind m k w = k a w1.
Proof. intros H. unfold bind. now rewrite H. Qed.

Lemma bind_raise {A B : Type} (m : M A) (k : A -> M B) (w w1 : world) (e : exn) :
  m w = (Raise e, w1) -> bind m k w = (Raise e, w1).
Proof. intros H. unfold bind. now rewrite H. Qed.

Lemma item_return (v x : json) (k : string) (w : world) :
  subscript v k = inr x -> item v k w = (Return x, w).
Proof. intros H. unfold item. now rewrite H. Qed.

Lemma zip_unwatched (e : event) : zip_event e -> unwatched e.
Proof. destruct e as [c o|lv m|c|p l|t|x]; simpl; try easy. now destruct c. Qed.

Lemma transport_unwatched (mine : call -> bool) (e : event) :
  (forall c, mine c = true -> is_observer_call c = false) ->
  transport_event mine e -> unwatched e.
Proof. intros Hm. destruct e as [c o|lv m|c|p l|t|x]; simpl; try easy. auto. Qed.

Lemma ftp_not_observer (c : call) :
  is_ftp_call c = true -> is_observer_call c = false.
Proof. now destruct c. Qed.

Lemma sftp_not_observer (c : call) :
  is_sftp_call c = true -> is_observer_call c = false.
Proof. now destruct c. Qed.

Lemma write_files_adds (directory : string) (base zp : Fs.path)
                       (files : list Fs.path) :
  forall entries,
    adds zip_event (write_files directory base zp files entries).
Proof.
  induction files as [|rel rest IH]; intros entries; simpl.
  - apply adds_ret.
  - apply adds_bind; [apply adds_perform; reflexivity | intros; apply IH].
Qed.

Lemma create_zip_adds (directory : json) (zip_name : string) :
  adds zip_event (create_zip_from_dir directory zip_name).
Proof.
  unfold create_zip_from_dir.
  apply adds_bind; [apply adds_perform; reflexivity | intros zp].
  apply adds_with_exit; [|apply adds_invoke; reflexivity].
  destruct directory; try apply adds_raise.
  intros w r w' H. eapply write_files_adds; eauto.
Qed.

Lemma upload_ftp_adds (config : json) (zip_path : string) :
  adds (transport_event is_ftp_call) (upload_ftp config zip_path).
Proof. unfold upload_ftp. adds_rules. Qed.

Lemma upload_sftp_adds (config : json) (zip_path : string) :
  adds (transport_event is_sftp_call) (upload_sftp config zip_path).
Proof. unfold upload_sftp. adds_rules. Qed.

Lemma upload_plugin_adds (config : json) :
  adds unwatched (upload_plugin config).
Proof.
  unfold upload_plugin.
  apply adds_bind; [intros w r w' H; injection H as <- <-; exists [];
                    now rewrite app_nil_r | intros temp_dir].
  apply adds_bind; [apply adds_item | intros plugin_name].
  apply adds_bind; [destruct plugin_name; adds_rules | intros zip_path].
  apply adds_bind; [apply adds_item | intros plugin_dir].
  apply adds_bind;
    [apply (adds_weaken _ _ _ zip_unwatched), create_zip_adds | intros _].
  apply adds_bind; [apply adds_item | intros method].
  apply adds_bind; [|intros _; adds_rules].
  destruct (equals method "ftp").
  - apply (adds_weaken _ (transport_event is_ftp_call)), upload_ftp_adds.
    intros e. apply transport_unwatched, ftp_not_observer.
  - apply adds_bind; [apply adds_item | intros method'].
    destruct (equals method' "sftp"); [|adds_rules].
    apply (adds_weaken _ (transport_event is_sftp_call)), upload_sftp_adds.
    intros e. apply transport_unwatched, sftp_not_observer.
Qed.


(** An archive that is built starts with the opening of the output file. *)
Lemma create_zip_opens_first (directory : json) (zip_name : string)
                             (w w1 : world) (u : unit) :
  create_zip_from_dir directory zip_name w = (Return u, w1) ->
  exists l, history w1 = history w ++ Did (ZipFile_open zip_name) None :: l.
Proof.
  unfold create_zip_from_dir. intros H. unfold bind at 1 in H.
  destruct (perform (ZipFile_open zip_name) (zip_create zip_name) w)
    as [[zp|e|] w0] eqn:Eo; try discriminate.
  assert (Hw0 : history w0 = history w ++ [Did (ZipFile_open zip_name) None]).
  { unfold perform in Eo.
    destruct (faults w (history w) (ZipFile_open zip_name)); [discriminate|].
    destruct (zip_create zip_name w) as [msg|[a rt]]; [discriminate|].
    injection Eo as _ <-. reflexivity. }
  assert (Hrest : adds zip_event
            (with_exit
               match directory with
               | JString d =>
                   fun w =>
                     let base := Fs.resolve (root w) (cwd w) d in
                     write_files d (match base with Some b => b | None => [] end)
                                 zp (os_walk base w) [] w
               | _ => raise (TypeError "expected str, bytes or os.PathLike object")
               end
               (invoke ZipFile_close))).
  { apply adds_with_exit; [|apply adds_invoke; reflexivity].
    destruct directory; try apply adds_raise.
    intros v r v' Hv. eapply write_files_adds; eauto. }
  destruct (Hrest _ _ _ H) as (l & Hl & _).
  exists l. rewrite Hl, Hw0, <- app_assoc. reflexivity.
Qed.

Lemma perform_no_hang {A : Type} (c : call)
                       (effect : world -> string + (A * Fs.node))
                       (w w' : world) :
  perform c effect w <> (Hang, w').
Proof.
  unfold perform. destruct (faults w (history w) c); [discriminate|].
  destruct (effect w) as [?|[? ?]]; discriminate.
Qed.

Lemma write_files_no_hang (directory : string) (base zp : Fs.path)
                          (files : list Fs.path) :
  forall entries w w',
    write_files directory base zp files entries w <> (Hang, w').
Proof.
  induction files as [|rel rest IH]; intros entries w w'; simpl.
  - discriminate.
  - unfold bind.
    destruct (perform (ZipFile_write (filename directory rel) (arcname rel))
                      (zip_write base zp entries rel) w)
      as [[entries'|e|] w0] eqn:E.
    + apply IH.
    + discriminate.
    + now apply perform_no_hang in E.
Qed.

(** The archiver returns or raises. *)
Lemma create_zip_no_hang (directory : json) (zip_name : string) (w w' : world) :
  create_zip_from_dir directory zip_name w <> (Hang, w').
Proof.
  unfold create_zip_from_dir, bind.
  destruct (perform (ZipFile_open zip_name) (zip_create zip_name) w)
    as [[zp|e|] w0] eqn:E.
  - unfold with_exit.
    match goal with
    | |- context [match ?body w0 with _ => _ end] =>
        destruct (body w0) as [[u|e|] w1] eqn:Eb
    end.
    + destruct (invoke ZipFile_close w1) as [[?|?|] ?] eqn:Ec;
        try discriminate. now apply perform_no_hang in Ec.
    + destruct (invoke ZipFile_close w1) as [[?|?|] ?] eqn:Ec;
        try discriminate. now apply perform_no_hang in Ec.
    + exfalso. destruct directory; try discriminate.
      now apply write_files_no_hang in Eb.
  - discriminate.
  - now apply perform_no_hang in E.
Qed.

(** The attempt to delete the scratch file always returns. *)
Lemma cleanup_returns (zip_path : string) (w : world) :
  exists o w',
    try_except_Exception
      (perform (os_remove zip_path) (remove zip_path))
      (fun e => log WARNING [Lit "删除临时文件失败: "; Exc e]) w
    = (Return tt, w')
    /\ history w' = history w ++ cleanup zip_path o.
Proof.
  unfold try_except_Exception, perform, log, emit.
  destruct (faults w (history w) (os_remove zip_path)) as [msg|].
  - exists (Some (Error msg)). eexists. split; [reflexivity|].
    cbn [is_Exception record history cleanup]. now rewrite <- app_assoc.
  - destruct (remove zip_path w) as [msg|[[] rt]].
    + exists (Some (Error msg)). eexists. split; [reflexivity|].
      cbn [is_Exception record history cleanup]. now rewrite <- app_assoc.
    + exists None. eexists. split; reflexivity.
Qed.

(** C3 (as amended).  For a configuration that names the archive, the source
    directory and the method, and holds the block of the method it selects:
    [upload_plugin] builds the archive at the temp directory joined with the
    archive name; if that raises, so does [upload_plugin], having done
    nothing else.  Otherwise it hands the archive to FTP or SFTP as the
    method says, or logs an error if the method is neither; the transport
    returns whatever happens to it; then comes the attempt to delete the
    scratch file, with a warning if it fails; then the completion record;
    and [upload_plugin] returns.  The history shows these steps in this
    order and nothing else. *)
Theorem upload_plugin_steps (config : json) (w : world) (name : string)
                            (dir method : json) :
  subscript config "plugin_name" = inr (JString name) ->
  subscript config "plugin_dir" = inr dir ->
  subscript config "upload_method" = inr method ->
  (equals method "ftp" = true -> exists b, subscript config "ftp" = inr b) ->
  (equals method "sftp" = true -> exists b, subscript config "sftp" = inr b) ->
  forall r1 w1,
    create_zip_from_dir dir (Fs.os_path_join (tmpdir w) name) w = (r1, w1) ->
    let zip_path := Fs.os_path_join (tmpdir w) name in
    Forall zip_event (added w w1)
    /\ match r1 with
       | Return _ =>
           exists w2 o w',
             hd_error (added w w1) = Some (Did (ZipFile_open zip_path) None)
             /\ (if equals method "ftp" then
                   upload_ftp config zip_path w1 = (Return tt, w2)
                   /\ Forall (transport_event is_ftp_call) (added w1 w2)
                 else if equals method "sftp" then
                   upload_sftp config zip_path w1 = (Return tt, w2)
                   /\ Forall (transport_event is_sftp_call) (added w1 w2)
                 else
                   added w1 w2
                   = [Log ERROR [Lit "上传方法无效，请选择 'ftp' 或 'sftp'"]])
             /\ upload_plugin config w = (Return tt, w')
             /\ history w' = history w ++ added w w'
             /\ added w w'
                = added w w1 ++ added w1 w2 ++ cleanup zip_path o
                  ++ [Log INFO [Lit "插件已重载"]]
       | Raise e => upload_plugin config w = (Raise e, w1)
       | Hang => False
       end.
Proof.
  intros Hname Hdir Hmethod Hftp Hsftp r1 w1 Hzip zip_path.
  destruct (create_zip_adds _ _ _ _ _ Hzip) as (A & HA & FA).
  rewrite (TransportProps.added_app _ _ _ HA).
  split; [exact FA|].
  assert (Hstart :
             upload_plugin config w
             = bind (create_zip_from_dir dir zip_path)
                    (fun _ =>
                       upload_method <- item config "upload_method" ;;
                       (if equals upload_method "ftp"
                        then upload_ftp config zip_path
                        else
                          upload_method' <- item config "upload_method" ;;
                          if equals upload_method' "sftp"
                          then upload_sftp config zip_path
                          else log ERROR
                                 [Lit "上传方法无效，请选择 'ftp' 或 'sftp'"]) ;;;
                       try_except_Exception
                         (perform (os_remove zip_path) (remove zip_path))
                         (fun e => log WARNING [Lit "删除临时文件失败: "; Exc e]) ;;;
                       log INFO [Lit "插件已重载"]) w).
  { unfold upload_plugin.
    rewrite (bind_return gettempdir _ w w (tmpdir w)) by reflexivity.
    rewrite (bind_return _ _ w w _ (item_return _ _ _ w Hname)).
    rewrite (bind_return (os_path_join (tmpdir w) (JString name)) _ w w zip_path)
      by reflexivity.
    rewrite (bind_return _ _ w w _ (item_return _ _ _ w Hdir)).
    reflexivity. }
  rewrite Hstart. clear Hstart.
  destruct r1 as [u|e|].
  - rewrite (bind_return _ _ _ _ _ Hzip).
    rewrite (bind_return _ _ w1 w1 _ (item_return _ _ _ w1 Hmethod)).
    destruct (create_zip_opens_first _ _ _ _ _ Hzip) as (l & Hl).
    assert (HAl : A = Did (ZipFile_open zip_path) None :: l)
      by (rewrite Hl in HA; now apply app_inv_head in HA).
    assert (Htransport : exists w2,
              (if equals method "ftp" then upload_ftp config zip_path
               else
                 upload_method' <- item config "upload_method" ;;
                 if equals upload_method' "sftp"
                 then upload_sftp config zip_path
                 else log ERROR [Lit "上传方法无效，请选择 'ftp' 或 'sftp'"]) w1
              = (Return tt, w2)
              /\ exists T, history w2 = history w1 ++ T
              /\ (if equals method "ftp" then
                   upload_ftp config zip_path w1 = (Return tt, w2)
                   /\ Forall (transport_event is_ftp_call) T
                 else if equals method "sftp" then
                   upload_sftp config zip_path w1 = (Return tt, w2)
                   /\ Forall (transport_event is_sftp_call) T
                 else
                   T = [Log ERROR [Lit "上传方法无效，请选择 'ftp' 或 'sftp'"]])).
    { destruct (equals method "ftp") eqn:Ef.
      - destruct (Hftp eq_refl) as (b & Hb).
        destruct (TransportProps.upload_ftp_returns _ _ zip_path w1 Hb)
          as (w2 & Hw2).
        destruct (upload_ftp_adds _ _ _ _ _ Hw2) as (T & HT & FT).
        exists w2. split; [exact Hw2|]. exists T. auto.
      - rewrite (bind_return _ _ w1 w1 _ (item_return _ _ _ w1 Hmethod)).
        destruct (equals method "sftp") eqn:Es.
        + destruct (Hsftp eq_refl) as (b & Hb).
          destruct (TransportProps.upload_sftp_returns _ _ zip_path w1 Hb)
            as (w2 & Hw2).
          destruct (upload_sftp_adds _ _ _ _ _ Hw2) as (T & HT & FT).
          exists w2. split; [exact Hw2|]. exists T. auto.
        + eexists. split; [reflexivity|]. eexists. split; reflexivity. }
    destruct Htransport as (w2 & Hw2 & T & HT & Hkind).
    rewrite (bind_return _ _ _ _ _ Hw2).
    destruct (cleanup_returns zip_path w2) as (o & w3 & Hw3 & Hh3).
    rewrite (bind_return _ _ _ _ _ Hw3).
    exists w2, o, (record (Log INFO [Lit "插件已重载"]) w3).
    rewrite (TransportProps.added_app _ _ _ HT).
    split; [now rewrite HAl|]. split; [exact Hkind|].
    split; [reflexivity|].
    assert (Hall : history (record (Log INFO [Lit "插件已重载"]) w3)
                   = history w
                     ++ A ++ T ++ cleanup zip_path o
                        ++ [Log INFO [Lit "插件已重载"]])
      by (cbn [record history]; rewrite Hh3, HT, HA;
          now rewrite <- !app_assoc).
    rewrite (TransportProps.added_app _ _ _ Hall). split; [exact Hall|].
    reflexivity.
  - now rewrite (bind_raise _ _ _ _ _ Hzip).
  - exact (create_zip_no_hang _ _ _ _ Hzip).
Qed.

(** After a rejected FTP login the scratch file is deleted and completion
    logged. *)
Lemma upload_plugin_steps_witness :
  let w := Samples.at_home Samples.plugin_tree Samples.wrong_password in
  let config := Samples.ftp_config false in
  In (Did (FTP_login (JString "alice") (JString "secret"))
          (Some (Error "530 Login incorrect")))
     (added w (snd (upload_plugin config w)))
  /\ exists o w',
       upload_plugin config w = (Return tt, w')
       /\ In (Did (os_remove "/tmp/plugin.zip") o) (added w w')
       /\ last (added w w') (Log INFO []) = Log INFO [Lit "插件已重载"].
Proof.
  intros w config. split; [vm_compute; tauto|].
  pose proof (upload_plugin_steps config w "plugin.zip" (JString "/plug")
                (JString "ftp") eq_refl eq_refl eq_refl) as H.
  specialize (H (fun _ => ex_intro _ _ eq_refl)).
  specialize (H (fun E : equals (JString "ftp") "sftp" = true =>
                   False_ind _ (Bool.diff_false_true E))).
  assert (Hzip : create_zip_from_dir (JString "/plug") "/tmp/plugin.zip" w
                 = (Return tt,
                    snd (create_zip_from_dir (JString "/plug")
                                             "/tmp/plugin.zip" w)))
    by (vm_compute; reflexivity).
  specialize (H (Return tt) _ Hzip).
  destruct H as (_ & w2 & o & w' & _ & _ & Hrun & _ & Hadd).
  exists o, w'. split; [exact Hrun|]. rewrite Hadd. split.
  - apply in_or_app. right. apply in_or_app. right.
    apply in_or_app. left. left. reflexivity.
  - rewrite !app_assoc. apply last_last.
Defined.

(** C3 (counterexample).  A configuration that selects FTP and has no FTP
    block: the archive is built, [config["ftp"]] raises before the [try] of
    [upload_ftp], and [upload_plugin] ends there: no deletion attempt, no
    completion record, and the scratch archive stays in the temp
    directory. *)
Lemma missing_block_skips_cleanup :
  let w := Samples.at_home Samples.plugin_tree Samples.calm in
  let run := upload_plugin Samples.blockless_config w in
  fst run = Raise (KeyError "ftp")
  /\ Fs.content_at (root (snd run)) ["tmp"; "plugin.zip"] <> None
  /\ ~ OrchestratorSpec.always_cleans_up
         Samples.blockless_config "/tmp/plugin.zip" w.
Proof.
  intros w run.
  assert (Hrun : upload_plugin Samples.blockless_config w = (fst run, snd run))
    by (vm_compute; reflexivity).
  split; [vm_compute; reflexivity|]. split; [vm_compute; discriminate|].
  intros H. destruct (H _ _ Hrun) as [_ Hlast].
  vm_compute in Hlast. discriminate.
Qed.
End OrchestratorProps.

(* ================================================================= *)
(** ** The watcher *)

Module WatcherProps.
Import Chars Json Py Uploader Trace TraceFacts OrchestratorProps.
Import TransportProps.
Local Open Scope py_scope.

(** C4.  A modification event for a file (not a directory) whose path ends
    in [.py] makes the handler log the change and call [upload_plugin]
    exactly once, and the handler does nothing else; the observer thread
    calls the handler once for such an event while it runs.  A modification
    event for a directory, or for a path that does not end in [.py], leaves
    the world as it was: no upload cycle. *)
Theorem on_modified_uploads_once (config : json) (event : fs_event)
                                 (w : world) :
  (is_directory event = false ->
   endswith (src_path event) ".py" = true ->
   let logged :=
     record (Log INFO [Lit "检测到文件变更: "; Lit (src_path event);
                       Lit ", 正在重新打包并上传..."]) w in
   on_modified config event w = upload_plugin config logged
   /\ (kind event = Modified -> observer_alive w = true ->
       observer_dispatch config [event] w =
       match upload_plugin config logged with
       | (Return _, w') => (Return tt, w')
       | (Raise e, w') =>
           (Return tt, record (ObserverDied e) (with_observer_alive false w'))
       | (Hang, w') => (Hang, w')
       end))
  /\ (is_directory event = true \/ endswith (src_path event) ".py" = false ->
      on_modified config event w = (Return tt, w)
      /\ observer_dispatch config [event] w = (Return tt, w)).
Proof.
  split.
  - intros Hfile Hpy logged.
    assert (Hon : on_modified config event w = upload_plugin config logged)
      by (unfold on_modified; rewrite Hfile, Hpy; reflexivity).
    split; [exact Hon|].
    intros Hkind Halive. simpl. rewrite Halive.
    unfold handler_dispatch. rewrite Hkind, Hon.
    destruct (upload_plugin config logged) as [[u|e|] w']; reflexivity.
  - intros Hskip.
    assert (Hon : on_modified config event w = (Return tt, w)).
    { unfold on_modified.
      destruct Hskip as [Hdir|Hother].
      - now rewrite Hdir.
      - rewrite Hother. now destruct (is_directory event). }
    split; [exact Hon|].
    simpl. destruct (observer_alive w); [|reflexivity].
    unfold handler_dispatch. destruct (kind event); try reflexivity.
    now rewrite Hon.
Qed.

(** [plugin.py] starts one cycle, [readme.txt] none. *)
Lemma on_modified_uploads_once_witness :
  let w := with_observer_alive true
             (Samples.at_home Samples.plugin_tree Samples.calm) in
  let config := Samples.ftp_config true in
  let changed (p : string) :=
    {| kind := Modified; is_directory := false; src_path := p |} in
  endswith "plugin.py" ".py" = true
  /\ endswith "readme.txt" ".py" = false
  /\ on_modified config (changed "plugin.py") w
     = upload_plugin config
         (record (Log INFO [Lit "检测到文件变更: "; Lit "plugin.py";
                            Lit ", 正在重新打包并上传..."]) w)
  /\ on_modified config (changed "readme.txt") w = (Return tt, w).
Proof.
  intros w config changed.
  split; [reflexivity|]. split; [reflexivity|]. split.
  - exact (proj1 (proj1 (on_modified_uploads_once config (changed "plugin.py") w)
                        eq_refl eq_refl)).
  - exact (proj1 (proj2 (on_modified_uploads_once config (changed "readme.txt") w)
                        (or_intror eq_refl))).
Defined.


Lemma on_modified_adds (config : json) (event : fs_event) :
  adds unwatched (on_modified config event).
Proof.
  unfold on_modified.
  destruct (is_directory event); [apply adds_ret|].
  destruct (endswith (src_path event) ".py"); [|apply adds_ret].
  apply adds_bind; [apply adds_emit; exact I | intros _].
  apply upload_plugin_adds.
Qed.

Lemma handler_dispatch_adds (config : json) (event : fs_event) :
  adds unwatched (handler_dispatch config event).
Proof.
  unfold handler_dispatch.
  destruct (kind event); try apply adds_ret. apply on_modified_adds.
Qed.

Lemma observer_dispatch_adds (config : json) (events : list fs_event) :
  adds unwatched (observer_dispatch config events).
Proof.
  induction events as [|event rest IH]; intros w r w' H; simpl in H.
  - injection H as <- <-. exists []. now rewrite app_nil_r.
  - destruct (observer_alive w).
    + destruct (handler_dispatch config event w) as [[u|e|] w1] eqn:Eh;
        destruct (handler_dispatch_adds _ _ _ _ _ Eh) as (l1 & H1 & F1).
      * destruct (IH _ _ _ H) as (l2 & H2 & F2).
        exists (l1 ++ l2). rewrite H2, H1, app_assoc. split; [reflexivity|].
        apply Forall_app; auto.
      * injection H as <- <-. exists (l1 ++ [ObserverDied e]).
        cbn [record with_observer_alive history].
        rewrite H1, app_assoc. split; [reflexivity|].
        apply Forall_app; split; [exact F1|]. repeat constructor.
      * injection H as <- <-. eauto.
    + injection H as <- <-. exists []. now rewrite app_nil_r.
Qed.

(** An exception of the handler ends the observer thread and goes no
    further. *)
Lemma observer_dispatch_no_raise (config : json) (events : list fs_event) :
  forall w e w', observer_dispatch config events w <> (Raise e, w').
Proof.
  induction events as [|event rest IH]; intros w e w'; simpl.
  - discriminate.
  - destruct (observer_alive w); [|discriminate].
    destruct (handler_dispatch config event w) as [[u|e0|] w1];
      [apply IH | discriminate | discriminate].
Qed.

Lemma listen_adds (lines : list string) : adds unwatched (listen lines).
Proof.
  induction lines as [|command rest IH]; simpl.
  - apply adds_ret.
  - apply adds_bind; [apply adds_emit; exact I | intros _].
    destruct (String.eqb (lower command) "exit"); [|exact IH].
    now apply adds_silent.
Qed.

Lemma listener_feed_adds (lines : list string) :
  adds unwatched (listener_feed lines).
Proof.
  intros w r w' H. unfold listener_feed in H.
  destruct (listening w).
  - destruct (listen lines w) as [[[|]|e|] w1] eqn:El;
      destruct (listen_adds _ _ _ _ El) as (l & Hl & F);
      injection H as <- <-; eauto.
  - injection H as <- <-. exists []. now rewrite app_nil_r.
Qed.

Lemma listener_feed_returns (lines : list string) (w : world) :
  exists w', listener_feed lines w = (Return tt, w').
Proof.
  unfold listener_feed. destruct (listening w); [|eauto].
  destruct (listen lines w) as [[[|]|e|] w1]; eauto.
Qed.

Lemma sleep_adds (config : json) (t : tick) : adds unwatched (sleep config t).
Proof.
  unfold sleep.
  apply adds_bind; [apply adds_emit; reflexivity | intros _].
  apply adds_bind; [now apply adds_silent | intros _].
  apply adds_bind; [apply observer_dispatch_adds | intros _].
  apply adds_bind; [apply listener_feed_adds | intros _].
  destruct (interrupt t); [apply adds_raise | apply adds_ret].
Qed.

Lemma sleep_no_raise (config : json) (t : tick) :
  uninterrupted_tick t ->
  forall w e w', sleep config t w <> (Raise e, w').
Proof.
  intros Ht w e w'. unfold sleep, bind, emit.
  destruct (observer_dispatch config (modified t) (slept (record _ w)))
    as [[u|e0|] w1] eqn:Ed.
  - destruct (listener_feed_returns (typed t) w1) as (w2 & ->).
    rewrite Ht. discriminate.
  - now apply observer_dispatch_no_raise in Ed.
  - discriminate.
Qed.

Lemma poll_adds (config : json) (ticks : list tick) :
  adds unwatched (poll config ticks).
Proof.
  induction ticks as [|t rest IH]; intros w r w' H; simpl in H.
  - exists []. rewrite app_nil_r.
    destruct (stop_event w); injection H as <- <-; auto.
  - destruct (stop_event w).
    + injection H as <- <-. exists []. now rewrite app_nil_r.
    + revert H. apply adds_bind; [apply sleep_adds | intros _; exact IH].
Qed.

(** Without a [KeyboardInterrupt] the polling loop raises nothing. *)
Lemma poll_no_raise (config : json) (ticks : list tick) :
  Forall uninterrupted_tick ticks ->
  forall w e w', poll config ticks w <> (Raise e, w').
Proof.
  induction 1 as [|t rest Ht _ IH]; intros w e w'; simpl.
  - destruct (stop_event w); discriminate.
  - destruct (stop_event w); [discriminate|].
    unfold bind. destruct (sleep config t w) as [[u|e0|] w1] eqn:Es.
    + apply IH.
    + now apply sleep_no_raise in Es.
    + discriminate.
Qed.

Lemma unwatched_not_stop (e : event) : unwatched e -> not_stop e.
Proof. destruct e as [c o|lv m|c|p l|t|x]; simpl; try easy. now destruct c. Qed.

Lemma poll_return_stop (config : json) (ticks : list tick) :
  forall w u w', poll config ticks w = (Return u, w') -> stop_event w' = true.
Proof.
  induction ticks as [|t rest IH]; intros w u w' H; simpl in H.
  - destruct (stop_event w) eqn:Es; [|discriminate].
    injection H as _ <-. exact Es.
  - destruct (stop_event w) eqn:Es.
    + injection H as _ <-. exact Es.
    + unfold bind in H. destruct (sleep config t w) as [[v|e|] w1];
        [eapply IH; eauto | discriminate | discriminate].
Qed.

Lemma no_blocked_join (l : list event) :
  Forall unwatched l -> ~ In (Blocked Observer_join) l.
Proof.
  intros F Hin. rewrite Forall_forall in F. now apply F in Hin.
Qed.

(** The runs of [start_watcher] in which no [KeyboardInterrupt] arrives:
    the history and the result tell how far each got. *)
Lemma start_watcher_runs (global_config config : json) (ticks : list tick)
                         (w : world) :
  Forall uninterrupted_tick ticks ->
  forall r w',
    start_watcher global_config config ticks w = (r, w') ->
    exists l,
      history w' = history w ++ l
      /\ Forall not_stop l
      /\ (r = Return tt -> observer_alive w' = false)
      /\ (In (Blocked Observer_join) l ->
          r = Hang /\ stop_event w' = true /\ observer_alive w' = true).
Proof.
  intros Hq r w' H. unfold start_watcher in H.
  unfold bind at 1 in H. unfold item, lift in H.
  destruct (subscript config "plugin_dir") as [e|plugin_dir].
  { injection H as <- <-. exists []. rewrite app_nil_r.
    split; [reflexivity|]. split; [constructor|].
    split; [discriminate | intros []]. }
  cbv beta iota delta [ret] in H.
  unfold bind at 1 in H. unfold invoke at 1, perform at 1 in H.
  destruct (faults w (history w) (Observer_schedule plugin_dir)) as [msg|].
  { injection H as <- <-. eexists. split; [reflexivity|].
    split; [repeat constructor|].
    split; [discriminate | intros Hin; member Hin]. }
  unfold bind at 1 in H. unfold observer_start at 1 in H.
  unfold bind at 1 in H. unfold invoke at 1, perform at 1 in H.
  cbn [record with_root history faults] in H.
  destruct (faults w (history w ++ [Did (Observer_schedule plugin_dir) None])
                   Observer_start) as [msg|].
  { injection H as <- <-. eexists.
    cbn [record with_root history]. rewrite <- app_assoc.
    split; [reflexivity|]. cbn [app].
    split; [repeat constructor|].
    split; [discriminate | intros Hin; member Hin]. }
  match type of H with
  | _ ?v = _ => set (w0 := v) in H
  end.
  assert (Hw0 : history w0 = history w ++ [Did (Observer_schedule plugin_dir) None;
                                           Did Observer_start None]).
  { subst w0. cbn [with_observer_alive record with_root history].
    now rewrite <- app_assoc. }
  unfold bind at 1 in H. unfold try_except_KeyboardInterrupt in H.
  destruct (poll global_config ticks w0) as [[[]|e|] w1] eqn:Ep.
  - destruct (poll_adds _ _ _ _ _ Ep) as (l & Hl & Fl).
    pose proof (poll_return_stop _ _ _ _ _ Ep) as Hstop.
    unfold observer_join in H.
    destruct (observer_alive w1) eqn:Ea; injection H as <- <-.
    + eexists. cbn [record history]. rewrite Hl, Hw0, <- !app_assoc.
      split; [reflexivity|]. cbn [app].
      split; [|split; [discriminate | intros _; auto]].
      repeat constructor.
      apply Forall_app. split; [|repeat constructor].
      eapply Forall_impl; [apply unwatched_not_stop | exact Fl].
    + eexists. cbn [record history]. rewrite Hl, Hw0, <- !app_assoc.
      split; [reflexivity|]. cbn [app].
      split; [|split; [intros _; exact Ea|]].
      * repeat constructor.
        apply Forall_app. split; [|repeat constructor].
        eapply Forall_impl; [apply unwatched_not_stop | exact Fl].
      * intros Hin. exfalso.
        destruct Hin as [Hin|[Hin|Hin]]; try discriminate.
        apply in_app_or in Hin. destruct Hin as [Hin|Hin].
        -- now apply (no_blocked_join _ Fl).
        -- member Hin.
  - now apply (poll_no_raise _ _ Hq) in Ep.
  - injection H as <- <-.
    destruct (poll_adds _ _ _ _ _ Ep) as (l & Hl & Fl).
    eexists. rewrite Hl, Hw0, <- !app_assoc.
    split; [reflexivity|]. cbn [app].
    split; [|split; [discriminate|]].
    + repeat constructor.
      eapply Forall_impl; [apply unwatched_not_stop | exact Fl].
    + intros Hin. exfalso.
      destruct Hin as [Hin|[Hin|Hin]]; try discriminate.
      now apply (no_blocked_join _ Fl).
Qed.

(** C1 (what the code does instead).  In a run of [start_watcher] in which
    no [KeyboardInterrupt] arrives, so that the loop can only end because
    [stop_event] is set, [observer.stop()] is never called; the call returns
    only if the observer thread had ended by itself; and when [observer.join()]
    is reached with the flag set and the observer running, the call never
    returns. *)
Theorem start_watcher_never_stops_observer
        (global_config config : json) (ticks : list tick) (w : world) :
  Forall uninterrupted_tick ticks ->
  forall r w',
    start_watcher global_config config ticks w = (r, w') ->
    history w' = history w ++ added w w'
    /\ Forall not_stop (added w w')
    /\ (r = Return tt -> observer_alive w' = false)
    /\ (In (Blocked Observer_join) (added w w') ->
        r = Hang /\ stop_event w' = true /\ observer_alive w' = true).
Proof.
  intros Hq r w' H.
  destruct (start_watcher_runs _ _ _ _ Hq _ _ H) as (l & Hl & Hrest).
  rewrite (added_app _ _ _ Hl). split; [exact Hl | exact Hrest].
Qed.

(** The exit word typed during the first interval: the loop ends, the
    observer is joined without having been stopped, and the call hangs. *)
Lemma start_watcher_never_stops_observer_witness :
  let w := with_listening true
             (Samples.at_home Samples.plugin_tree Samples.calm) in
  let config := Samples.ftp_config true in
  let ticks := [{| modified := []; typed := ["exit"]; interrupt := false |}] in
  let run := start_watcher config config ticks w in
  added w (snd run)
  = [Did (Observer_schedule (JString "/plug")) None;
     Did Observer_start None;
     Did time_sleep None;
     Input "输入 'exit' 来停止自动监测并退出程序: " "exit";
     Blocked Observer_join]
  /\ fst run = Hang
  /\ stop_event (snd run) = true
  /\ Forall not_stop (added w (snd run)).
Proof.
  intros w config ticks run.
  assert (Hadd : added w (snd run)
                 = [Did (Observer_schedule (JString "/plug")) None;
                    Did Observer_start None;
                    Did time_sleep None;
                    Input "输入 'exit' 来停止自动监测并退出程序: " "exit";
                    Blocked Observer_join])
    by (vm_compute; reflexivity).
  assert (Hrun : start_watcher config config ticks w = (fst run, snd run))
    by (vm_compute; reflexivity).
  assert (Hq : Forall uninterrupted_tick ticks)
    by (repeat constructor).
  destruct (start_watcher_never_stops_observer config config ticks w Hq
              _ _ Hrun) as (_ & Hns & _ & Hb).
  destruct Hb as (Hr & Hs & _).
  - rewrite Hadd. simpl. tauto.
  - split; [exact Hadd|]. split; [exact Hr|]. split; assumption.
Defined.
End WatcherProps.

(* ================================================================= *)
(** ** The command interface *)

Module MainProps.
Import Chars Json Py Uploader Trace TraceFacts OrchestratorProps.
Local Open Scope py_scope.

Lemma load_config_adds : adds unwatched load_config.
Proof.
  intros w r w' H. unfold load_config in H.
  destruct (negb (os_path_exists CONFIG_FILE w)); revert H.
  - apply adds_bind; [apply adds_emit; exact I | intros _].
    apply adds_bind; [apply adds_perform; reflexivity | intros _].
    apply adds_bind; [apply adds_emit; exact I | intros _].
    apply adds_ret.
  - apply adds_bind; [apply adds_perform; reflexivity | intros c].
    unfold json_load. destruct c as [text|entries]; [|apply adds_raise].
    destruct (loads text); [apply adds_ret | apply adds_raise].
Qed.

Lemma manual_upload_adds (config : json) (lines : list string) :
  adds unwatched (manual_upload config lines).
Proof.
  induction lines as [|command rest IH]; simpl.
  - apply adds_hang.
  - apply adds_bind; [apply adds_emit; exact I | intros _].
    destruct (String.eqb (lower command) "upload").
    + apply adds_bind; [apply upload_plugin_adds | intros _; exact IH].
    + destruct (String.eqb (lower command) "exit"); [apply adds_ret|].
      apply adds_bind; [apply adds_emit; exact I | intros _; exact IH].
Qed.

(** C9.  When the configuration that [load_config] returns has a false
    auto-upload flag, the script goes on as [manual_upload] on the lines of
    the console, and whatever the console delivers and however the run
    ends, the script makes no call on an observer: nothing is scheduled,
    started, stopped or joined. *)
Theorem manual_mode_never_watches (ticks : list tick) (w w1 : world)
                                  (config flag : json) :
  load_config
    (record (Log INFO [Lit "插件自动化更新程序已启动，开始加载配置..."]) w)
  = (Return config, w1) ->
  subscript config "auto_upload" = inr flag ->
  truthy flag = false ->
  main ticks w
  = manual_upload config (List.concat (map typed ticks))
      (record (Log INFO [Lit "启用手动上传模式，等待用户命令..."])
              (with_stop_event false w1))
  /\ forall r w',
       main ticks w = (r, w') ->
       history w' = history w ++ added w w'
       /\ Forall unwatched (added w w').
Proof.
  intros Hload Hflag Hfalse.
  assert (Hmain : main ticks w
            = manual_upload config (List.concat (map typed ticks))
                (record (Log INFO [Lit "启用手动上传模式，等待用户命令..."])
                        (with_stop_event false w1))).
  { unfold main, bind, log, emit, item, lift.
    rewrite Hload, Hflag. cbv beta iota delta [ret]. rewrite Hfalse.
    reflexivity. }
  split; [exact Hmain|].
  intros r w' Hrun. rewrite Hmain in Hrun.
  destruct (load_config_adds _ _ _ Hload) as (l1 & H1 & F1).
  destruct (manual_upload_adds _ _ _ _ _ Hrun) as (l2 & H2 & F2).
  cbn [record with_stop_event history] in H1, H2.
  assert (Hl : history w'
               = history w
                 ++ Log INFO [Lit "插件自动化更新程序已启动，开始加载配置..."]
                    :: l1 ++ Log INFO [Lit "启用手动上传模式，等待用户命令..."] :: l2)
    by (rewrite H2, H1, <- !app_assoc; reflexivity).
  rewrite (TransportProps.added_app _ _ _ Hl). split; [exact Hl|].
  constructor; [exact I|]. apply Forall_app. split; [exact F1|].
  constructor; [exact I | exact F2].
Qed.

(** A manual session: one upload, then exit. *)
Lemma manual_mode_never_watches_witness :
  let d := Samples.ftp_config false in
  let w := Samples.at_home (Samples.configured (dumps 4 d)) Samples.calm in
  let ticks := [{| modified := []; typed := ["upload"; "exit"];
                   interrupt := false |}] in
  fst (main ticks w) = Return tt
  /\ Forall unwatched (added w (snd (main ticks w))).
Proof.
  intros d w ticks.
  assert (Hload : load_config
            (record (Log INFO [Lit "插件自动化更新程序已启动，开始加载配置..."]) w)
            = (Return d,
               snd (load_config
                      (record (Log INFO
                         [Lit "插件自动化更新程序已启动，开始加载配置..."]) w))))
    by (vm_compute; reflexivity).
  assert (Hrun : main ticks w = (Return tt, snd (main ticks w)))
    by (vm_compute; reflexivity).
  split; [now rewrite Hrun|].
  exact (proj2 (proj2 (manual_mode_never_watches ticks w _ d (JBool false)
                         Hload eq_refl eq_refl)
                      _ _ Hrun)).
Defined.

End MainProps.

(* ================================================================= *)
(** ** The archiver *)

Module ArchiveProps.
Import Chars Json Py Uploader Trace Fs FsFacts.
Local Open Scope py_scope.

Lemma is_prefix_app (p q z : path) :
  is_prefix (p ++ q) z = true -> is_prefix p z = true.
Proof.
  revert z. induction p as [|a p IH]; intros z H; [reflexivity|].
  destruct z as [|b z]; [discriminate|]. simpl in *.
  apply andb_true_iff in H. destruct H as [-> H]. simpl. auto.
Qed.

Lemma not_prefix_app (p q z : path) :
  is_prefix p z = false -> is_prefix (p ++ q) z = false.
Proof.
  intros H. destruct (is_prefix (p ++ q) z) eqn:E; [|reflexivity].
  apply is_prefix_app in E. congruence.
Qed.

(** The loop of the archiver, from any point on: with no failure inflicted
    and every file still to come in place, it runs to its end, and the
    archive grows by one entry per file, named by [arcname]. *)
Lemma write_files_run (d : string) (base zp : path) (R0 : node) :
  forall files entries w,
    (forall h c, is_zip_call c = true -> faults w h c = None) ->
    store zp (Archive entries) R0 = Some (root w) ->
    (forall rel, In rel files ->
                 exists c, lookup (base ++ rel) (root w) = Some (File c)) ->
    exists w' more,
      write_files d base zp files entries w = (Return tt, w')
      /\ store zp (Archive (entries ++ more)) R0 = Some (root w')
      /\ map fst more = map arcname files
      /\ (is_prefix base zp = false ->
          map (fun e => Some (snd e)) more
          = map (fun rel => content_at R0 (base ++ rel)) files)
      /\ faults w' = faults w.
Proof.
  induction files as [|rel rest IH]; intros entries w Hcalm Hinv Hfiles.
  - exists w, []. rewrite app_nil_r. repeat split; auto.
  - destruct (Hfiles rel (or_introl eq_refl)) as [c Hc].
    destruct (store_any_content zp _ (Archive (entries ++ [(arcname rel, c)]))
                                _ _ Hinv) as [r2 Hr2].
    assert (Hstep : store zp (Archive (entries ++ [(arcname rel, c)])) (root w)
                    = Some r2)
      by (rewrite (store_store _ _ _ _ _ Hinv); exact Hr2).
    set (w1 := record (Did (ZipFile_write (filename d rel) (arcname rel)) None)
                      (with_root r2 w)).
    destruct (IH (entries ++ [(arcname rel, c)]) w1) as (w' & more & Hrun & Hst & Hnames & Hdata & Hf).
    + exact Hcalm.
    + exact Hr2.
    + intros rel' Hin. cbn [w1 record with_root root].
      destruct (Hfiles rel' (or_intror Hin)) as [c' Hc'].
      destruct (list_eq_dec string_dec (base ++ rel') zp) as [->|Hne].
      * eexists. apply (store_lookup_same _ _ _ _ Hstep).
      * exists c'. apply (lookup_store_file _ _ _ _ _ _ Hstep Hne Hc').
    + exists w', ((arcname rel, c) :: more).
      split; [|split; [|split; [|split]]].
      * cbn [write_files]. unfold bind at 1, perform.
        rewrite Hcalm by reflexivity.
        unfold zip_write. rewrite Hc, Hstep. exact Hrun.
      * rewrite <- app_assoc in Hst. exact Hst.
      * cbn [map fst]. now rewrite Hnames.
      * intros Hout. cbn [map snd]. rewrite (Hdata Hout). f_equal.
        unfold content_at.
        rewrite <- (lookup_store_outside _ _ _ _ _ Hinv
                      (not_prefix_app _ rel _ Hout)).
        now rewrite Hc.
      * exact Hf.
Qed.


Lemma os_walk_length (base : path) (w : world) :
  List.length (os_walk (Some base) w) = files_under (root w) base.
Proof.
  unfold os_walk, files_under.
  destruct (lookup base (root w)) as [n|]; [|reflexivity].
  rewrite walk_length. now destruct n.
Qed.

(** C5 (as amended).  In a well-formed tree, with no failure inflicted on the
    archiver, an output file that can be created and that does not lie
    inside the source directory: [create_zip_from_dir] returns; the tree it
    leaves is the one it found with the output file holding the archive, in
    place of whatever was there; the archive has exactly one entry for each
    of the N files the source directory holds at any depth, named by the
    path of the file relative to the source directory and holding the
    content of the file. *)
Theorem create_zip_archives_tree (w : world) (d zip_name : string)
                                 (zp : path) (r1 : node) :
  well_formed (root w) = true ->
  (forall h c, is_zip_call c = true -> faults w h c = None) ->
  zip_create zip_name w = inr (zp, r1) ->
  (forall base,
      resolve (root w) (cwd w) d = Some base -> is_prefix base zp = false) ->
  exists w' entries,
    create_zip_from_dir (JString d) zip_name w = (Return tt, w')
    /\ store zp (Archive entries) (root w) = Some (root w')
    /\ content_at (root w') zp = Some (Archive entries)
    /\ (resolve (root w) (cwd w) d = None -> entries = [])
    /\ (forall base,
          resolve (root w) (cwd w) d = Some base ->
          List.length entries = files_under (root w) base
          /\ map fst entries = map arcname (os_walk (Some base) w)
          /\ map (fun e => Some (snd e)) entries
             = map (fun rel => content_at (root w) (base ++ rel))
                   (os_walk (Some base) w)).
Proof.
  intros Hwf Hcalm Hcreate Houtside.
  assert (Hzp : resolve (root w) (cwd w) zip_name = Some zp
                /\ store zp (Archive []) (root w) = Some r1).
  { unfold zip_create in Hcreate.
    destruct (resolve (root w) (cwd w) zip_name) as [zp'|]; [|discriminate].
    destruct (store zp' (Archive []) (root w)) as [r|] eqn:Es; [|discriminate].
    injection Hcreate as -> ->. auto. }
  destruct Hzp as [Hres Hst].
  set (w0 := record (Did (ZipFile_open zip_name) None) (with_root r1 w)).
  set (base := resolve (root w) (cwd w) d) in *.
  assert (Hbase : resolve (root w0) (cwd w0) d = base)
    by (apply (resolve_store _ _ _ _ _ _ Hst)).
  destruct (write_files_run d (match base with Some b => b | None => [] end)
              zp (root w) (os_walk base w0) [] w0)
    as (w1 & entries & Hrun & Hinv & Hnames & Hdata & Hf).
  { exact Hcalm. }
  { exact Hst. }
  { intros rel Hin. unfold os_walk in Hin.
    destruct base as [b|]; [|destruct Hin].
    cbn [w0 record with_root root] in *.
    destruct (lookup b r1) as [n|] eqn:En; [|destruct Hin].
    assert (Hn : well_formed n = true).
    { eapply well_formed_lookup; [|exact En].
      eapply well_formed_store; eauto. }
    destruct (walk_finds_files n Hn [] rel Hin) as (rel' & c & -> & Hl).
    exists c. rewrite lookup_app, En. exact Hl. }
  cbn [app] in Hinv.
  exists (record (Did ZipFile_close None) (with_root (root w1) w1)), entries.
  split; [|split; [|split; [|split]]].
  - unfold create_zip_from_dir, bind, perform at 1.
    rewrite Hcalm by reflexivity. rewrite Hcreate.
    unfold with_exit. fold w0. rewrite Hbase. rewrite Hrun.
    unfold invoke, perform. rewrite Hf.
    cbn [w0 record with_root faults].
    rewrite Hcalm by reflexivity. reflexivity.
  - exact Hinv.
  - unfold content_at. cbn [record with_root root].
    now rewrite (store_lookup_same _ _ _ _ Hinv).
  - intros Hnone. rewrite Hnone in Hnames.
    destruct entries; [reflexivity | discriminate].
  - intros b Hb. pose proof (Houtside b Hb) as Hout. rewrite Hb in *.
    assert (Hsame : os_walk (Some b) w0 = os_walk (Some b) w).
    { unfold os_walk. cbn [w0 record with_root root].
      now rewrite (lookup_store_outside _ _ _ _ _ Hst Hout). }
    rewrite Hsame in *. split; [|split].
    + rewrite <- (length_map fst), Hnames, length_map.
      apply os_walk_length.
    + exact Hnames.
    + exact (Hdata Hout).
Qed.

(** C5 (counterexample).  With the output file inside the source directory
    and not there before, the archive lists itself: the directory held three
    files and the archive has four entries. *)
Lemma archive_inside_source_lists_itself :
  ~ ArchiveSpec.one_entry_per_file
      (Samples.at_home Samples.plugin_tree Samples.calm)
      "/plug" "/plug/out.zip".
Proof.
  intros H.
  set (w := Samples.at_home Samples.plugin_tree Samples.calm) in H.
  assert (Hrun : create_zip_from_dir (JString "/plug") "/plug/out.zip" w
                 = (Return tt,
                    snd (create_zip_from_dir (JString "/plug")
                                             "/plug/out.zip" w)))
    by (vm_compute; reflexivity).
  destruct (H _ ["plug"] ["plug"; "out.zip"] Hrun eq_refl eq_refl)
    as (entries & Hc & Hlen & _).
  vm_compute in Hc. injection Hc as <-.
  vm_compute in Hlen. discriminate.
Qed.

(** The three files of the sample plugin, archived into the temp
    directory. *)
Lemma create_zip_archives_tree_witness :
  let w := Samples.at_home Samples.plugin_tree Samples.calm in
  well_formed (root w) = true
  /\ is_prefix ["plug"] ["tmp"; "plugin.zip"] = false
  /\ exists w' entries,
       create_zip_from_dir (JString "/plug") "/tmp/plugin.zip" w
       = (Return tt, w')
       /\ content_at (root w') ["tmp"; "plugin.zip"] = Some (Archive entries)
       /\ List.length entries = 3
       /\ map fst entries = ["plugin.py"; "readme.txt"; "lib/util.py"].
Proof.
  intros w. split; [reflexivity|]. split; [reflexivity|].
  assert (Hcreate : zip_create "/tmp/plugin.zip" w
                    = inr (["tmp"; "plugin.zip"],
                           match store ["tmp"; "plugin.zip"] (Archive []) (root w)
                           with Some r => r | None => root w end))
    by (vm_compute; reflexivity).
  assert (Houtside : forall base,
             resolve (root w) (cwd w) "/plug" = Some base ->
             is_prefix base ["tmp"; "plugin.zip"] = false).
  { intros base Hb. vm_compute in Hb. injection Hb as <-. reflexivity. }
  destruct (create_zip_archives_tree w "/plug" "/tmp/plugin.zip" _ _
              eq_refl (fun _ _ _ => eq_refl) Hcreate Houtside)
    as (w' & entries & Hrun & _ & Hc & _ & Hb).
  destruct (Hb ["plug"] eq_refl) as (Hlen & Hnames & _).
  exists w', entries. split; [exact Hrun|]. split; [exact Hc|].
  split; [exact Hlen | exact Hnames].
Defined.
End ArchiveProps.

(* ================================================================= *)
(** ** Rules for what computations leave alone *)

Module FrameFacts.
Import Json Py Uploader Trace.
Local Open Scope py_scope.

Section Rules.
Context {X A B : Type} (f : world -> X).
Hypothesis f_record : forall e w, f (record e w) = f w.
Hypothesis f_same_root : forall w, f (with_root (root w) w) = f w.

Lemma preserves_ret (a : A) : preserves f (ret a).
Proof. intros w r w' H. now injection H as <- <-. Qed.

Lemma preserves_raise (e : exn) : preserves f (@raise A e).
Proof. intros w r w' H. now injection H as <- <-. Qed.

Lemma preserves_hang : preserves f (@hang A).
Proof. intros w r w' H. now injection H as <- <-. Qed.

Lemma preserves_lift (x : exn + A) : preserves f (lift x).
Proof. destruct x; [apply preserves_raise | apply preserves_ret]. Qed.

Lemma preserves_bind (m : M A) (k : A -> M B) :
  preserves f m -> (forall a, preserves f (k a)) -> preserves f (bind m k).
Proof.
  intros Hm Hk w r w' H. unfold bind in H.
  destruct (m w) as [[a|e|] w1] eqn:Em.
  - rewrite (Hk a _ _ _ H). eauto.
  - injection H as <- <-. eauto.
  - injection H as <- <-. eauto.
Qed.

(** A call whose effect on the file tree does not show in [f]. *)
Lemma preserves_perform (c : call) (effect : world -> string + (A * Fs.node)) :
  (forall w a r, effect w = inr (a, r) -> f (with_root r w) = f w) ->
  preserves f (perform c effect).
Proof.
  intros He w r w' H. unfold perform in H.
  destruct (faults w (history w) c) as [msg|].
  - injection H as <- <-. apply f_record.
  - destruct (effect w) as [msg|[a rt]] eqn:E; injection H as <- <-.
    + apply f_record.
    + rewrite f_record. eauto.
Qed.

Lemma preserves_try (body : M A) (handler : exn -> M A) :
  preserves f body -> (forall e, preserves f (handler e)) ->
  preserves f (try_except_Exception body handler).
Proof.
  intros Hb Hh w r w' H. unfold try_except_Exception in H.
  destruct (body w) as [[a|e|] w1] eqn:Eb.
  - injection H as <- <-. eauto.
  - destruct (is_Exception e).
    + rewrite (Hh e _ _ _ H). eauto.
    + injection H as <- <-. eauto.
  - injection H as <- <-. eauto.
Qed.

Lemma preserves_with_exit (body : M A) (leave : M unit) :
  preserves f body -> preserves f leave -> preserves f (with_exit body leave).
Proof.
  intros Hb Hl w r w' H. unfold with_exit in H.
  destruct (body w) as [[a|e|] w1] eqn:Eb.
  - destruct (leave w1) as [[u|e|] w2] eqn:El; injection H as <- <-;
      rewrite (Hl _ _ _ El); eauto.
  - destruct (leave w1) as [[u|e'|] w2] eqn:El; injection H as <- <-;
      rewrite (Hl _ _ _ El); eauto.
  - injection H as <- <-. eauto.
Qed.

End Rules.

Section Calls.
Context {X : Type} (f : world -> X).
Hypothesis f_record : forall e w, f (record e w) = f w.
Hypothesis f_same_root : forall w, f (with_root (root w) w) = f w.

Lemma preserves_emit (e : event) : preserves f (emit e).
Proof. intros w r w' H. injection H as <- <-. apply f_record. Qed.

Lemma preserves_invoke (c : call) : preserves f (invoke c).
Proof.
  apply preserves_perform; [exact f_record|].
  intros w a r H. injection H as <- <-. apply f_same_root.
Qed.

Lemma preserves_item (v : json) (k : string) : preserves f (item v k).
Proof. apply preserves_lift. Qed.

(** Opening a file to read it changes no file. *)
Lemma preserves_read (c : call) (name : string) :
  preserves f (perform c (read name)).
Proof.
  apply preserves_perform; [exact f_record|].
  intros w a r H. unfold read in H.
  destruct (Fs.resolve (root w) (cwd w) name); [|discriminate].
  destruct (Fs.lookup p (root w)) as [[c0|es]|]; try discriminate.
  injection H as <- <-. apply f_same_root.
Qed.

End Calls.

(** The rules, applied as far as they go, for a part [f] of the world on
    which [record] and [with_root (root w)] compute away. *)
Ltac preserves_rules :=
  repeat first
    [ apply preserves_ret | apply preserves_raise | apply preserves_hang
    | apply preserves_item | apply preserves_lift
    | apply preserves_emit; reflexivity
    | apply preserves_invoke; reflexivity
    | apply preserves_read; reflexivity
    | apply preserves_try; [|intros ?]
    | apply preserves_with_exit
    | apply preserves_bind; [|intros ?]
    | match goal with
      | |- preserves _ (if ?b then _ else _) => destruct b
      end ].

Lemma upload_ftp_preserves {X : Type} (f : world -> X) (config : json)
                           (zip_path : string) :
  (forall e w, f (record e w) = f w) ->
  (forall w, f (with_root (root w) w) = f w) ->
  preserves f (upload_ftp config zip_path).
Proof.
  intros Hr Hs. unfold upload_ftp, log.
  repeat first
    [ apply preserves_item | apply preserves_emit; exact Hr
    | apply preserves_invoke; assumption
    | apply preserves_read; assumption
    | apply preserves_try; [|intros ?]
    | apply preserves_with_exit
    | apply preserves_bind; [|intros ?] ].
Qed.

Lemma upload_sftp_preserves {X : Type} (f : world -> X) (config : json)
                            (zip_path : string) :
  (forall e w, f (record e w) = f w) ->
  (forall w, f (with_root (root w) w) = f w) ->
  preserves f (upload_sftp config zip_path).
Proof.
  intros Hr Hs. unfold upload_sftp, log.
  repeat first
    [ apply preserves_item | apply preserves_lift
    | apply preserves_emit; exact Hr
    | apply preserves_invoke; assumption
    | apply preserves_try; [|intros ?]
    | apply preserves_bind; [|intros ?]
    | match goal with
      | |- preserves _ (if ?b then _ else _) => destruct b
      end ].
Qed.

End FrameFacts.

(* ================================================================= *)
(** ** The order of the calls of a transport *)

Module TransportOrder.
Import Chars Json Py Uploader Trace TransportProps FrameFacts.

(** X1.  Neither transport creates, changes or deletes a local file, moves the
    process or touches the state of the threads: whatever the configuration
    and whatever fails, the file tree, the working directory and the thread
    flags after [upload_ftp] and after [upload_sftp] are those before. *)
Theorem transports_leave_world_alone (config : json) (zip_path : string)
                                     (w : world) :
  let ftp := snd (upload_ftp config zip_path w) in
  let sftp := snd (upload_sftp config zip_path w) in
  (place ftp = place w /\ threads ftp = threads w)
  /\ (place sftp = place w /\ threads sftp = threads w).
Proof.
  intros ftp sftp. subst ftp sftp.
  destruct (upload_ftp config zip_path w) as [r1 w1] eqn:E1.
  destruct (upload_sftp config zip_path w) as [r2 w2] eqn:E2.
  cbn [snd]. repeat split.
  - now apply (upload_ftp_preserves place) in E1.
  - now apply (upload_ftp_preserves threads) in E1.
  - now apply (upload_sftp_preserves place) in E2.
  - now apply (upload_sftp_preserves threads) in E2.
Qed.

(** An event that is in an explicit list. *)
Ltac here :=
  cbn [In]; solve [repeat (first [left; reflexivity | right])].

(** Membership in an explicit list: one case for each member it can be. *)
Ltac pick H :=
  cbn [In] in H;
  repeat match type of H with
         | _ \/ _ => destruct H as [H|H]; [try discriminate H|]
         end;
  try contradiction.

Ltac single H := pick H; inversion H; subst; clear H.

Ltac sent :=
  split; [reflexivity|];
  split; [eexists; split; [first [reflexivity | eassumption] | reflexivity]|];
  repeat split; repeat eexists; here.

Ltac found := eexists; here.

Lemma upload_ftp_order (config : json) (zip_path : string) (w : world) :
  forall r w',
    upload_ftp config zip_path w = (r, w') ->
    exists l,
      history w' = history w ++ l
      /\ (forall cmd n o,
            In (Did (FTP_storbinary cmd n) o) l ->
            n = zip_path
            /\ (exists name, subscript config "plugin_name" = inr name
                             /\ cmd = [Lit "STOR "; Val name])
            /\ (exists h p, In (Did (FTP_connect h p) None) l)
            /\ (exists u pw, In (Did (FTP_login u pw) None) l)
            /\ (exists d, In (Did (FTP_cwd d) None) l)
            /\ In (Did (open_rb zip_path) None) l)
      /\ (forall b, subscript config "ftp" = inr b ->
                    exists o, In (Did FTP_exit o) l)
      /\ (forall msg,
            In (Log INFO msg) l ->
            exists cmd, In (Did (FTP_storbinary cmd zip_path) None) l).
Proof.
  intros r w' H. unfold upload_ftp in H. unfold_monad H.
  repeat split_step H.
  all: added H.
  all: split; [|split].
  all: try (intros cmd0 n0 o0 Hin; single Hin; sent).
  all: try (intros b Hb; first [congruence | found]).
  all: intros msg Hin; single Hin; found.
Qed.

(** X2.  In every run of [upload_ftp]: a [STOR] is sent only after the
    connection, the login and the change of directory have succeeded and the
    archive has been opened, it transfers the archive under the configured
    [plugin_name], and success is logged only after a transfer that did not
    fail. Once the FTP block of the configuration has been read, the
    connection object is left through its [__exit__] whatever happened in
    between. *)
Theorem upload_ftp_transfers_after_login (config : json) (zip_path : string)
                                         (w : world) :
  forall r w',
    upload_ftp config zip_path w = (r, w') ->
    history w' = history w ++ added w w'
    /\ (forall cmd n o,
          In (Did (FTP_storbinary cmd n) o) (added w w') ->
          n = zip_path
          /\ (exists name, subscript config "plugin_name" = inr name
                           /\ cmd = [Lit "STOR "; Val name])
          /\ (exists h p, In (Did (FTP_connect h p) None) (added w w'))
          /\ (exists u pw, In (Did (FTP_login u pw) None) (added w w'))
          /\ (exists d, In (Did (FTP_cwd d) None) (added w w'))
          /\ In (Did (open_rb zip_path) None) (added w w'))
    /\ (forall b, subscript config "ftp" = inr b ->
                  exists o, In (Did FTP_exit o) (added w w'))
    /\ (forall msg,
          In (Log INFO msg) (added w w') ->
          exists cmd, In (Did (FTP_storbinary cmd zip_path) None) (added w w')).
Proof.
  intros r w' Hrun.
  destruct (upload_ftp_order _ _ _ _ _ Hrun) as (l & Hl & H).
  rewrite (added_app _ _ _ Hl). split; [exact Hl | exact H].
Qed.

(** A run against a server that rejects the login: no [STOR], and the
    connection object is left. *)
Lemma upload_ftp_transfers_after_login_witness :
  let w := Samples.at_home Samples.plugin_tree Samples.wrong_password in
  let run := upload_ftp (Samples.ftp_config false) "/tmp/plugin.zip" w in
  (exists o, In (Did FTP_exit o) (added w (snd run)))
  /\ forall msg, In (Log INFO msg) (added w (snd run)) ->
       exists cmd,
         In (Did (FTP_storbinary cmd "/tmp/plugin.zip") None) (added w (snd run)).
Proof.
  intros w run.
  assert (Hrun : upload_ftp (Samples.ftp_config false) "/tmp/plugin.zip" w
                 = (fst run, snd run))
    by (vm_compute; reflexivity).
  destruct (upload_ftp_transfers_after_login _ _ _ _ _ Hrun)
    as (_ & _ & Hexit & Hlog).
  split; [|exact Hlog].
  apply (Hexit (JObject
                  [("host", JString "ftp.example.com"); ("port", JInt 21);
                   ("username", JString "alice");
                   ("password", JString "secret")])).
  reflexivity.
Defined.

Lemma get_subscript (b k : json) (key : string) :
  get_method b key = inr k -> truthy k = true -> subscript b key = inr k.
Proof.
  destruct b; simpl; try discriminate.
  destruct (dict_get key members); intros H; injection H as <-.
  - reflexivity.
  - discriminate.
Qed.

Lemma upload_sftp_credential (config b k : json) (zip_path : string)
                             (w : world) :
  subscript config "sftp" = inr b ->
  get_method b "private_key_file" = inr k ->
  forall r w',
    upload_sftp config zip_path w = (r, w') ->
    exists l,
      history w' = history w ++ l
      /\ if truthy k then
           (forall u p o, ~ In (Did (Transport_connect_password u p) o) l)
           /\ (forall f o, In (Did (RSAKey_from_private_key_file f) o) l ->
                           f = k)
           /\ (forall u o, In (Did (Transport_connect_pkey u) o) l ->
                           In (Did (RSAKey_from_private_key_file k) None) l)
         else
           (forall f o, ~ In (Did (RSAKey_from_private_key_file f) o) l)
           /\ (forall u o, ~ In (Did (Transport_connect_pkey u) o) l).
Proof.
  intros Hb Hk r w' H. unfold upload_sftp in H. unfold_monad H.
  rewrite Hb in H. tidy H.
  destruct (truthy k) eqn:Ht.
  - pose proof (get_subscript _ _ _ Hk Ht) as Hs.
    repeat (first [rewrite Hk in H | rewrite Ht in H | rewrite Hs in H
                  | split_step H]; tidy H).
    all: added H.
    all: split; [|split].
    all: try (intros u p o Hin; absurd_member Hin).
    all: try (intros f o Hin; single Hin; reflexivity).
    all: intros u o Hin; single Hin; here.
  - repeat (first [rewrite Hk in H | rewrite Ht in H | split_step H]; tidy H).
    all: added H.
    all: split.
    all: try (intros f o Hin; absurd_member Hin).
    all: intros u o Hin; absurd_member Hin.
Qed.

(** X3.  [upload_sftp] authenticates in one way only, chosen by the truth
    value of [private_key_file] in the SFTP block: when it is there and
    truthy, the key is loaded from that file, the password is never sent, and
    the transport is connected with a key only after the load succeeded; when
    it is missing, null or empty, no key file is read and the password is the
    only credential used. *)
Theorem upload_sftp_uses_one_credential (config b k : json)
                                        (zip_path : string) (w : world) :
  subscript config "sftp" = inr b ->
  get_method b "private_key_file" = inr k ->
  forall r w',
    upload_sftp config zip_path w = (r, w') ->
    history w' = history w ++ added w w'
    /\ if truthy k then
         (forall u p o,
             ~ In (Did (Transport_connect_password u p) o) (added w w'))
         /\ (forall f o,
               In (Did (RSAKey_from_private_key_file f) o) (added w w') ->
               f = k)
         /\ (forall u o,
               In (Did (Transport_connect_pkey u) o) (added w w') ->
               In (Did (RSAKey_from_private_key_file k) None) (added w w'))
       else
         (forall f o,
             ~ In (Did (RSAKey_from_private_key_file f) o) (added w w'))
         /\ (forall u o, ~ In (Did (Transport_connect_pkey u) o) (added w w')).
Proof.
  intros Hb Hk r w' Hrun.
  destruct (upload_sftp_credential _ _ _ _ _ Hb Hk _ _ Hrun) as (l & Hl & H).
  rewrite (added_app _ _ _ Hl). split; [exact Hl | exact H].
Qed.

(** The sample SFTP block has no key file: the password is used. *)
Lemma upload_sftp_uses_one_credential_witness :
  let w := Samples.at_home Samples.plugin_tree Samples.calm in
  let run := upload_sftp Samples.sftp_config "/tmp/plugin.zip" w in
  (forall f o,
      ~ In (Did (RSAKey_from_private_key_file f) o) (added w (snd run)))
  /\ (forall u o, ~ In (Did (Transport_connect_pkey u) o) (added w (snd run))).
Proof.
  intros w run.
  assert (Hrun : upload_sftp Samples.sftp_config "/tmp/plugin.zip" w
                 = (fst run, snd run))
    by (vm_compute; reflexivity).
  assert (Hb : subscript Samples.sftp_config "sftp"
               = inr (JObject
                        [("host", JString "sftp.example.com");
                         ("port", JInt 22);
                         ("username", JString "alice");
                         ("password", JString "secret")]))
    by reflexivity.
  exact (proj2 (upload_sftp_uses_one_credential
                  _ _ JNull _ _ Hb eq_refl _ _ Hrun)).
Defined.

End TransportOrder.

(* ================================================================= *)
(** ** The console loops *)

Module ConsoleProps.
Import Chars Json Py Uploader Trace.
Local Open Scope py_scope.

(** The listener on lines that are not the exit word: it reads them all and
    sets nothing. *)
Lemma listen_deaf (lines : list string) :
  Forall (fun l => says "exit" l = false) lines ->
  forall w,
    exists w',
      listen lines w = (Return false, w')
      /\ history w' = history w ++ heard lines
      /\ place w' = place w
      /\ threads w' = threads w.
Proof.
  induction 1 as [|line rest Hline _ IH]; intros w.
  - exists w. cbn [heard map]. rewrite app_nil_r. auto.
  - cbn [listen]. unfold bind, emit. unfold says in Hline. rewrite Hline.
    destruct (IH (record (Input "输入 'exit' 来停止自动监测并退出程序: " line) w))
      as (w' & Hrun & Hh & Hp & Ht).
    exists w'. split; [exact Hrun|].
    cbn [record history] in Hh. rewrite Hh, <- app_assoc.
    split; [reflexivity|]. split; [exact Hp | exact Ht].
Qed.

(** The listener up to the first exit word. *)
Lemma listen_exit (before after : list string) (line : string) :
  Forall (fun l => says "exit" l = false) before ->
  says "exit" line = true ->
  forall w,
    exists w',
      listen (before ++ line :: after) w = (Return true, w')
      /\ history w' = history w ++ heard (before ++ [line])
      /\ place w' = place w
      /\ stop_event w' = true
      /\ observer_alive w' = observer_alive w
      /\ listening w' = listening w.
Proof.
  intros Hbefore Hline.
  induction Hbefore as [|first rest Hfirst _ IH]; intros w.
  - cbn [app listen]. unfold bind, emit. unfold says in Hline. rewrite Hline.
    eexists. split; [reflexivity|]. repeat split.
  - cbn [app listen]. unfold bind, emit. unfold says in Hfirst.
    rewrite Hfirst.
    destruct (IH (record (Input "输入 'exit' 来停止自动监测并退出程序: " first) w))
      as (w' & Hrun & Hh & Hrest).
    exists w'. split; [exact Hrun|].
    cbn [record history] in Hh. rewrite Hh, <- app_assoc.
    split; [reflexivity | exact Hrest].
Qed.

(** X4.  [listen_for_exit] returns exactly when a line that is the exit word
    in some mix of cases arrives: it reads the lines before it, which change
    nothing but the console traffic, then that line, sets [stop_event], and
    reads nothing of what follows. On lines none of which is the exit word it
    reads them all, leaves [stop_event] as it was, and stays blocked in
    [input]. *)
Theorem listen_for_exit_waits_for_exit (before : list string) (w : world) :
  Forall (fun l => says "exit" l = false) before ->
  (exists w',
      listen_for_exit before w = (Hang, w')
      /\ history w' = history w ++ heard before
      /\ stop_event w' = stop_event w
      /\ place w' = place w)
  /\ (forall line after,
        says "exit" line = true ->
        exists w',
          listen_for_exit (before ++ line :: after) w = (Return tt, w')
          /\ history w' = history w ++ heard (before ++ [line])
          /\ stop_event w' = true
          /\ place w' = place w).
Proof.
  intros Hbefore. split.
  - destruct (listen_deaf _ Hbefore w) as (w' & Hrun & Hh & Hp & Ht).
    exists w'. unfold listen_for_exit, bind. rewrite Hrun.
    split; [reflexivity|]. split; [exact Hh|]. split; [|exact Hp].
    unfold threads in Ht. congruence.
  - intros line after Hline.
    destruct (listen_exit _ after _ Hbefore Hline w)
      as (w' & Hrun & Hh & Hp & Hs & _).
    exists w'. unfold listen_for_exit, bind. rewrite Hrun.
    split; [reflexivity|]. auto.
Qed.

(** Two lines of chatter, then the exit word in capitals, then a line that
    is never read. *)
Lemma listen_for_exit_waits_for_exit_witness :
  let w := Samples.at_home Samples.plugin_tree Samples.calm in
  exists w',
    listen_for_exit ["hello"; "quit"; "EXIT"; "upload"] w = (Return tt, w')
    /\ history w' = heard ["hello"; "quit"; "EXIT"]
    /\ stop_event w' = true.
Proof.
  intros w.
  assert (Hbefore : Forall (fun l => says "exit" l = false) ["hello"; "quit"])
    by (repeat constructor).
  destruct (proj2 (listen_for_exit_waits_for_exit ["hello"; "quit"] w Hbefore)
                  "EXIT" ["upload"] eq_refl)
    as (w' & Hrun & Hh & Hs & _).
  exists w'. split; [exact Hrun|]. split; [exact Hh | exact Hs].
Defined.

Lemma says_one_word (line : string) :
  says "exit" line = true -> says "upload" line = false.
Proof.
  unfold says. intros H. apply String.eqb_eq in H. now rewrite H.
Qed.

(** X5.  Under any configuration, [manual_upload] answers each command that is
    neither the upload word nor the exit word, in any mix of cases, with the
    invalid-command notice and asks again; such commands touch no file, make
    no call and start no upload. The first exit word ends the loop with a
    normal return, and nothing typed after it is read. *)
Theorem manual_upload_rejects_until_exit (config : json)
                                         (before after : list string)
                                         (line : string) (w : world) :
  Forall (fun l => says "upload" l = false /\ says "exit" l = false) before ->
  says "exit" line = true ->
  exists w',
    manual_upload config (before ++ line :: after) w = (Return tt, w')
    /\ history w'
       = history w ++ flat_map rejected before
         ++ [Input "请输入命令（'upload' 上传插件，'exit' 退出程序）: " line]
    /\ place w' = place w
    /\ threads w' = threads w.
Proof.
  intros Hbefore Hline.
  pose proof (says_one_word _ Hline) as Hnot.
  revert w. induction Hbefore as [|first rest [Hup Hex] _ IH]; intros w.
  - cbn [app manual_upload]. unfold bind, emit. unfold says in Hline, Hnot.
    rewrite Hnot, Hline.
    eexists. split; [reflexivity|]. repeat split.
  - cbn [app manual_upload]. unfold bind, emit. unfold says in Hup, Hex.
    rewrite Hup, Hex.
    match goal with
    | |- exists w', manual_upload _ _ ?v = _ /\ _ =>
        destruct (IH v) as (w' & Hrun & Hh & Hrest)
    end.
    exists w'. split; [exact Hrun|].
    cbn [record history] in Hh. rewrite Hh, <- !app_assoc.
    split; [reflexivity | exact Hrest].
Qed.

(** A mistyped command, then [Exit]; the [upload] that follows is never
    read, whatever the configuration. *)
Lemma manual_upload_rejects_until_exit_witness :
  let w := Samples.at_home Samples.plugin_tree Samples.calm in
  exists w',
    manual_upload JNull ["uplaod"; "Exit"; "upload"] w = (Return tt, w')
    /\ history w'
       = rejected "uplaod"
         ++ [Input "请输入命令（'upload' 上传插件，'exit' 退出程序）: " "Exit"]
    /\ root w' = root w.
Proof.
  intros w.
  assert (Hbefore : Forall (fun l => says "upload" l = false
                                     /\ says "exit" l = false) ["uplaod"])
    by (repeat constructor).
  destruct (manual_upload_rejects_until_exit JNull ["uplaod"] ["upload"]
              "Exit" w Hbefore eq_refl)
    as (w' & Hrun & Hh & Hp & _).
  exists w'. split; [exact Hrun|]. split; [exact Hh|].
  unfold place in Hp. congruence.
Defined.

End ConsoleProps.

(* ================================================================= *)
(** ** The watcher under a keyboard interrupt *)

Module InterruptProps.
Import Chars Json Py Uploader Trace TraceFacts OrchestratorProps.
Import TransportProps WatcherProps.
Local Open Scope py_scope.

Lemma unwatched_no_stop (l : list event) (o : option exn) :
  Forall unwatched l -> ~ In (Did Observer_stop o) l.
Proof.
  intros F Hin. rewrite Forall_forall in F. now apply F in Hin.
Qed.

(** The polling loop raises only when a [KeyboardInterrupt] arrives. *)
Lemma sleep_raise_interrupt (config : json) (t : tick) (w w' : world)
                            (e : exn) :
  sleep config t w = (Raise e, w') -> interrupt t = true.
Proof.
  intros H. destruct (interrupt t) eqn:Ei; [reflexivity|].
  now apply (sleep_no_raise config t Ei) in H.
Qed.

Lemma poll_raise_interrupt (config : json) (ticks : list tick) :
  forall w e w',
    poll config ticks w = (Raise e, w') ->
    Exists (fun t => interrupt t = true) ticks.
Proof.
  induction ticks as [|t rest IH]; intros w e w' H; simpl in H.
  - destruct (stop_event w); discriminate.
  - destruct (stop_event w); [discriminate|].
    unfold bind in H. destruct (sleep config t w) as [[u|e0|] w1] eqn:Es.
    + apply Exists_cons_tl. eapply IH; eauto.
    + apply Exists_cons_hd. eapply sleep_raise_interrupt; eauto.
    + discriminate.
Qed.

(** The runs of [start_watcher] in which [observer.stop()] is called and
    succeeds. *)
Lemma start_watcher_stopped (global_config config : json) (ticks : list tick)
                            (w : world) :
  forall r w',
    start_watcher global_config config ticks w = (r, w') ->
    exists l,
      history w' = history w ++ l
      /\ (In (Did Observer_stop None) l ->
          r = Return tt
          /\ observer_alive w' = false
          /\ Exists (fun t => interrupt t = true) ticks
          /\ exists d during,
               subscript config "plugin_dir" = inr d
               /\ l = Did (Observer_schedule d) None :: Did Observer_start None
                      :: during
                      ++ [Did Observer_stop None; Did Observer_join None]
               /\ Forall unwatched during).
Proof.
  intros r w' H. unfold start_watcher in H.
  unfold bind at 1 in H. unfold item, lift in H.
  destruct (subscript config "plugin_dir") as [e|plugin_dir].
  { injection H as <- <-. exists []. rewrite app_nil_r.
    split; [reflexivity | intros []]. }
  cbv beta iota delta [ret] in H.
  unfold bind at 1 in H. unfold invoke at 1, perform at 1 in H.
  destruct (faults w (history w) (Observer_schedule plugin_dir)) as [msg|].
  { injection H as <- <-. eexists. split; [reflexivity|].
    intros Hin; member Hin. }
  unfold bind at 1 in H. unfold observer_start at 1 in H.
  unfold bind at 1 in H. unfold invoke at 1, perform at 1 in H.
  cbn [record with_root history faults] in H.
  destruct (faults w (history w ++ [Did (Observer_schedule plugin_dir) None])
                   Observer_start) as [msg|].
  { injection H as <- <-. eexists.
    cbn [record with_root history]. rewrite <- app_assoc.
    split; [reflexivity|]. cbn [app]. intros Hin; member Hin. }
  match type of H with
  | _ ?v = _ => set (w0 := v) in H
  end.
  assert (Hw0 : history w0 = history w ++ [Did (Observer_schedule plugin_dir) None;
                                           Did Observer_start None]).
  { subst w0. cbn [with_observer_alive record with_root history].
    now rewrite <- app_assoc. }
  unfold bind at 1 in H. unfold try_except_KeyboardInterrupt in H.
  destruct (poll global_config ticks w0) as [[[]|e|] w1] eqn:Ep;
    destruct (poll_adds _ _ _ _ _ Ep) as (l & Hl & Fl).
  - (* the loop ended on the flag *)
    unfold observer_join in H.
    destruct (observer_alive w1); injection H as <- <-;
      (eexists; cbn [record history]; rewrite Hl, Hw0, <- !app_assoc;
       split; [reflexivity|]; cbn [app]; intros Hin; exfalso;
       destruct Hin as [Hin|[Hin|Hin]]; try discriminate;
       apply in_app_or in Hin; destruct Hin as [Hin|Hin];
       [now apply (unwatched_no_stop _ _ Fl) in Hin | member Hin]).
  - (* the loop raised *)
    destruct e;
      try (injection H as <- <-; eexists; rewrite Hl, Hw0, <- !app_assoc;
           split; [reflexivity|]; cbn [app]; intros Hin; exfalso;
           destruct Hin as [Hin|[Hin|Hin]]; try discriminate;
           now apply (unwatched_no_stop _ _ Fl) in Hin).
    unfold observer_stop, bind, invoke, perform in H.
    destruct (faults w1 (history w1) Observer_stop) as [msg|].
    + injection H as <- <-. eexists. cbn [record history].
      rewrite Hl, Hw0, <- !app_assoc.
      split; [reflexivity|]. cbn [app]. intros Hin. exfalso.
      destruct Hin as [Hin|[Hin|Hin]]; try discriminate.
      apply in_app_or in Hin. destruct Hin as [Hin|Hin];
        [now apply (unwatched_no_stop _ _ Fl) in Hin | member Hin].
    + unfold observer_join in H.
      cbn [with_observer_alive observer_alive] in H.
      injection H as <- <-. eexists.
      cbn [record with_observer_alive with_root history observer_alive].
      rewrite Hl, Hw0, <- !app_assoc.
      split; [reflexivity|]. cbn [app]. intros _.
      split; [reflexivity|]. split; [reflexivity|].
      split; [exact (poll_raise_interrupt _ _ _ _ _ Ep)|].
      exists plugin_dir, l. auto.
  - (* the loop blocked *)
    injection H as <- <-. eexists. rewrite Hl, Hw0, <- !app_assoc.
    split; [reflexivity|]. cbn [app]. intros Hin. exfalso.
    destruct Hin as [Hin|[Hin|Hin]]; try discriminate.
    now apply (unwatched_no_stop _ _ Fl) in Hin.
Qed.

(** X6.  A run of [start_watcher] in which [observer.stop()] is called and
    succeeds is one in which the polling loop was ended by a
    [KeyboardInterrupt]: the subscription had been scheduled and started, the
    stop is followed at once by [observer.join()], which returns, the observer
    thread has ended, and [start_watcher] returns normally with the interrupt
    swallowed. *)
Theorem start_watcher_interrupt_stops_and_joins
        (global_config config : json) (ticks : list tick) (w : world) :
  forall r w',
    start_watcher global_config config ticks w = (r, w') ->
    history w' = history w ++ added w w'
    /\ (In (Did Observer_stop None) (added w w') ->
        r = Return tt
        /\ observer_alive w' = false
        /\ Exists (fun t => interrupt t = true) ticks
        /\ exists d during,
             subscript config "plugin_dir" = inr d
             /\ added w w'
                = Did (Observer_schedule d) None :: Did Observer_start None
                  :: during ++ [Did Observer_stop None; Did Observer_join None]
             /\ Forall unwatched during).
Proof.
  intros r w' H.
  destruct (start_watcher_stopped _ _ _ _ _ _ H) as (l & Hl & Hrest).
  rewrite (added_app _ _ _ Hl). split; [exact Hl | exact Hrest].
Qed.

(** Ctrl-C during the second interval. *)
Lemma start_watcher_interrupt_stops_and_joins_witness :
  let w := Samples.at_home Samples.plugin_tree Samples.calm in
  let config := Samples.ftp_config true in
  let ticks := [{| modified := []; typed := []; interrupt := false |};
                {| modified := []; typed := []; interrupt := true |}] in
  let run := start_watcher config config ticks w in
  fst run = Return tt
  /\ observer_alive (snd run) = false
  /\ added w (snd run)
     = [Did (Observer_schedule (JString "/plug")) None;
        Did Observer_start None;
        Did time_sleep None;
        Did time_sleep None;
        Did Observer_stop None;
        Did Observer_join None].
Proof.
  intros w config ticks run.
  assert (Hadd : added w (snd run)
                 = [Did (Observer_schedule (JString "/plug")) None;
                    Did Observer_start None;
                    Did time_sleep None;
                    Did time_sleep None;
                    Did Observer_stop None;
                    Did Observer_join None])
    by (vm_compute; reflexivity).
  assert (Hrun : start_watcher config config ticks w = (fst run, snd run))
    by (vm_compute; reflexivity).
  destruct (start_watcher_interrupt_stops_and_joins config config ticks w
              _ _ Hrun) as (_ & Hstop).
  destruct Hstop as (Hr & Ha & _).
  - rewrite Hadd. simpl. tauto.
  - split; [exact Hr|]. split; [exact Ha | exact Hadd].
Defined.

End InterruptProps.

(* ================================================================= *)
(** ** The scratch archive *)

Module ScratchProps.
Import Chars Json Py Uploader Trace Steps TraceFacts FrameFacts.
Import OrchestratorProps.
Local Open Scope py_scope.

Lemma put_same (name : string) (x : Fs.node) (es : list (string * Fs.node)) :
  Fs.assoc name es = Some x -> Fs.put name x es = es.
Proof.
  induction es as [|[k y] es IH]; simpl; [discriminate|].
  destruct (String.eqb name k) eqn:E.
  - intros H. injection H as ->. reflexivity.
  - intros H. now rewrite IH.
Qed.

Lemma drop_put_fresh (name : string) (x : Fs.node)
                     (es : list (string * Fs.node)) :
  Fs.assoc name es = None -> Fs.drop name (Fs.put name x es) = es.
Proof.
  induction es as [|[k y] es IH]; simpl.
  - now rewrite String.eqb_refl.
  - destruct (String.eqb name k) eqn:E; [discriminate|].
    intros H. simpl. now rewrite E, IH.
Qed.

(** Deleting a file that has just been created gives the tree back. *)
Lemma unlink_store_fresh (p : Fs.path) (c : Fs.content) :
  forall r r',
    Fs.lookup p r = None -> Fs.store p c r = Some r' -> Fs.unlink p r' = Some r.
Proof.
  induction p as [|a p IH]; intros r r' Hnone H; [discriminate|].
  destruct r as [c0|es]; [now rewrite FsFacts.store_file in H|].
  destruct p as [|b p].
  - rewrite FsFacts.store_single in H. simpl in Hnone.
    destruct (Fs.assoc a es) as [x|] eqn:Ea; [discriminate|].
    injection H as <-. simpl.
    now rewrite FsFacts.assoc_put_same, drop_put_fresh.
  - rewrite FsFacts.store_deeper in H.
    destruct (Fs.assoc a es) as [x|] eqn:Ea; [|discriminate].
    destruct (Fs.store (b :: p) c x) as [x'|] eqn:Es; [|discriminate].
    injection H as <-.
    assert (Hx : Fs.lookup (b :: p) x = None).
    { change (Fs.lookup (a :: b :: p) (Fs.Dir es))
        with (match Fs.assoc a es with
              | Some y => Fs.lookup (b :: p) y
              | None => None
              end) in Hnone.
      now rewrite Ea in Hnone. }
    change (Fs.unlink (a :: b :: p) (Fs.Dir (Fs.put a x' es)))
      with (match Fs.assoc a (Fs.put a x' es) with
            | Some y =>
                match Fs.unlink (b :: p) y with
                | Some y' => Some (Fs.Dir (Fs.put a y' (Fs.put a x' es)))
                | None => None
                end
            | None => None
            end).
    rewrite FsFacts.assoc_put_same, (IH _ _ Hx Es), FsFacts.put_put.
    now rewrite (put_same _ _ _ Ea).
Qed.

(** The loop of the archiver, however it ends: the tree is the one it
    started from with some archive at [zp], and the process stands where it
    stood. *)
Lemma write_files_keeps (d : string) (base zp : Fs.path) (R0 : Fs.node) :
  forall files entries w r w',
    Fs.store zp (Fs.Archive entries) R0 = Some (root w) ->
    write_files d base zp files entries w = (r, w') ->
    (exists entries', Fs.store zp (Fs.Archive entries') R0 = Some (root w'))
    /\ surroundings w' = surroundings w
    /\ threads w' = threads w.
Proof.
  induction files as [|rel rest IH]; intros entries w r w' Hinv H.
  - injection H as <- <-. eauto.
  - cbn [write_files] in H. unfold bind at 1, perform in H.
    destruct (faults w (history w) _) as [msg|].
    { injection H as <- <-. cbn [record root]. eauto. }
    destruct (zip_write base zp entries rel w) as [msg|[entries' r2]] eqn:Ez.
    { injection H as <- <-. cbn [record root]. eauto. }
    assert (Hr2 : Fs.store zp (Fs.Archive entries') R0 = Some r2).
    { unfold zip_write in Ez.
      destruct (Fs.lookup (base ++ rel) (root w)) as [[c|es]|];
        try discriminate.
      destruct (Fs.store zp (Fs.Archive (entries ++ [(arcname rel, c)]))
                         (root w)) as [r3|] eqn:Es; [|discriminate].
      injection Ez as <- <-.
      now rewrite <- (FsFacts.store_store _ _ _ _ _ Hinv). }
    destruct (IH entries'
                 (record (Did (ZipFile_write (filename d rel) (arcname rel))
                              None)
                         (with_root r2 w)) r w' Hr2 H) as (He & Hs & Ht).
    split; [exact He|]. split; [exact Hs | exact Ht].
Qed.

Lemma added_record (e : event) (w : world) : added w (record e w) = [e].
Proof. apply TransportProps.added_app. reflexivity. Qed.

(** An archive that was built is in the tree, which is otherwise the one
    found. *)
Lemma create_zip_result (directory : json) (zip_name : string)
                        (w w1 : world) (r : result unit) :
  create_zip_from_dir directory zip_name w = (r, w1) ->
  surroundings w1 = surroundings w
  /\ threads w1 = threads w
  /\ (In (Did (ZipFile_open zip_name) None) (added w w1) \/ r = Return tt ->
      exists zp entries,
        Fs.resolve (root w) (cwd w) zip_name = Some zp
        /\ Fs.store zp (Fs.Archive entries) (root w) = Some (root w1)).
Proof.
  unfold create_zip_from_dir. intros H. unfold bind at 1, perform in H.
  destruct (faults w (history w) (ZipFile_open zip_name)) as [msg|].
  { injection H as <- <-. split; [reflexivity|]. split; [reflexivity|].
    intros [Hin|Hr]; [|discriminate].
    exfalso. rewrite added_record in Hin.
    destruct Hin as [Hin|[]]. discriminate. }
  destruct (zip_create zip_name w) as [msg|[zp r1]] eqn:Ec.
  { injection H as <- <-. split; [reflexivity|]. split; [reflexivity|].
    intros [Hin|Hr]; [|discriminate].
    exfalso. rewrite added_record in Hin.
    destruct Hin as [Hin|[]]. discriminate. }
  assert (Hzp : Fs.resolve (root w) (cwd w) zip_name = Some zp
                /\ Fs.store zp (Fs.Archive []) (root w) = Some r1).
  { unfold zip_create in Ec.
    destruct (Fs.resolve (root w) (cwd w) zip_name) as [zp'|]; [|discriminate].
    destruct (Fs.store zp' (Fs.Archive []) (root w)) as [r0|] eqn:Es;
      [|discriminate].
    injection Ec as -> ->. auto. }
  destruct Hzp as [Hres Hst].
  set (w0 := record (Did (ZipFile_open zip_name) None) (with_root r1 w)) in H.
  assert (Hbody : forall rb wb,
             match directory with
             | JString d =>
                 fun v =>
                   let base := Fs.resolve (root v) (cwd v) d in
                   write_files d (match base with Some b => b | None => [] end)
                               zp (os_walk base v) [] v
             | _ => raise (TypeError "expected str, bytes or os.PathLike object")
             end w0 = (rb, wb) ->
             (exists entries',
                 Fs.store zp (Fs.Archive entries') (root w) = Some (root wb))
             /\ surroundings wb = surroundings w
             /\ threads wb = threads w).
  { intros rb wb Hb.
    destruct directory;
      try (injection Hb as <- <-; split; [exists []; exact Hst|];
           split; reflexivity).
    cbv zeta in Hb.
    apply (write_files_keeps _ _ _ (root w)) in Hb; [|exact Hst].
    exact Hb. }
  unfold with_exit in H.
  match type of H with
  | context [match ?body w0 with _ => _ end] =>
      destruct (body w0) as [[u|e|] wb] eqn:Eb
  end.
  - destruct (Hbody _ _ eq_refl) as ((entries & He) & Hs & Ht).
    unfold invoke, perform in H.
    destruct (faults wb (history wb) ZipFile_close);
      injection H as <- <-; cbn [record with_root root];
      (split; [exact Hs|]; split; [exact Ht|]; intros _; eauto).
  - destruct (Hbody _ _ eq_refl) as ((entries & He) & Hs & Ht).
    unfold invoke, perform in H.
    destruct (faults wb (history wb) ZipFile_close);
      injection H as <- <-; cbn [record with_root root];
      (split; [exact Hs|]; split; [exact Ht|]; intros _; eauto).
  - destruct (Hbody _ _ eq_refl) as ((entries & He) & Hs & Ht).
    injection H as <- <-. split; [exact Hs|]. split; [exact Ht|].
    intros _. eauto.
Qed.

(** [upload_plugin] once the archive name and the source directory have
    been read. *)
Lemma upload_plugin_start (config dir : json) (name : string) (w : world) :
  subscript config "plugin_name" = inr (JString name) ->
  subscript config "plugin_dir" = inr dir ->
  upload_plugin config w
  = bind (create_zip_from_dir dir (Fs.os_path_join (tmpdir w) name))
         (fun _ =>
            upload_method <- item config "upload_method" ;;
            dispatch config (Fs.os_path_join (tmpdir w) name) upload_method ;;;
            finish (Fs.os_path_join (tmpdir w) name)) w.
Proof.
  intros Hname Hdir. unfold upload_plugin.
  rewrite (bind_return gettempdir _ w w (tmpdir w)) by reflexivity.
  rewrite (bind_return _ _ w w _ (item_return _ _ _ w Hname)).
  rewrite (bind_return (os_path_join (tmpdir w) (JString name)) _ w w
                       (Fs.os_path_join (tmpdir w) name))
    by reflexivity.
  rewrite (bind_return _ _ w w _ (item_return _ _ _ w Hdir)).
  reflexivity.
Qed.

Lemma dispatch_preserves {X : Type} (f : world -> X) (config : json)
                         (zip_path : string) (method : json) :
  (forall e w, f (record e w) = f w) ->
  (forall w, f (with_root (root w) w) = f w) ->
  preserves f (dispatch config zip_path method).
Proof.
  intros Hr Hs. unfold dispatch.
  destruct (equals method "ftp"); [now apply upload_ftp_preserves|].
  apply preserves_bind; [apply preserves_item | intros method'].
  destruct (equals method' "sftp"); [now apply upload_sftp_preserves|].
  apply preserves_emit. exact Hr.
Qed.

(** X7.  When the scratch path was free and the environment lets the archive
    be deleted, a run of [upload_plugin] that returns leaves the file tree
    exactly as it found it: the scratch archive is created, handed to the
    transport and deleted again, and nothing else is written. The working
    directory and the state of the threads are untouched too. *)
Theorem upload_plugin_restores_tree (config : json) (name : string)
                                    (zp : Fs.path) (w w' : world) :
  subscript config "plugin_name" = inr (JString name) ->
  Fs.resolve (root w) (cwd w) (Fs.os_path_join (tmpdir w) name) = Some zp ->
  Fs.lookup zp (root w) = None ->
  (forall h, faults w h (os_remove (Fs.os_path_join (tmpdir w) name)) = None) ->
  upload_plugin config w = (Return tt, w') ->
  root w' = root w
  /\ surroundings w' = surroundings w
  /\ threads w' = threads w.
Proof.
  intros Hname Hres Hfresh Hcalm H.
  destruct (subscript config "plugin_dir") as [e|dir] eqn:Hdir.
  { unfold upload_plugin in H.
    rewrite (bind_return gettempdir _ w w (tmpdir w)) in H by reflexivity.
    rewrite (bind_return _ _ w w _ (item_return _ _ _ w Hname)) in H.
    rewrite (bind_return (os_path_join (tmpdir w) (JString name)) _ w w
                         (Fs.os_path_join (tmpdir w) name)) in H
      by reflexivity.
    unfold bind, item in H. rewrite Hdir in H. discriminate. }
  rewrite (upload_plugin_start _ _ _ _ Hname Hdir) in H.
  set (zip_path := Fs.os_path_join (tmpdir w) name) in *.
  unfold bind at 1 in H.
  destruct (create_zip_from_dir dir zip_path w) as [[[]|e|] w1] eqn:Ez;
    try discriminate.
  destruct (create_zip_result _ _ _ _ _ Ez) as (Hs1 & Ht1 & Hbuilt).
  destruct (Hbuilt (or_intror eq_refl)) as (zp' & entries & Hres' & Hst).
  assert (zp' = zp) as -> by congruence.
  unfold bind at 1 in H. unfold item, lift in H.
  destruct (subscript config "upload_method") as [e|method];
    [discriminate|].
  cbv beta iota delta [ret] in H.
  unfold bind at 1 in H.
  destruct (dispatch config zip_path method w1) as [[[]|e|] w2] eqn:Ed;
    try discriminate.
  assert (Hp2 : place w2 = place w1)
    by (now apply (dispatch_preserves place) in Ed).
  assert (Ht2 : threads w2 = threads w1)
    by (now apply (dispatch_preserves threads) in Ed).
  unfold place, surroundings in Hp2, Hs1.
  injection Hp2 as Hroot2 Hcwd2 Htmp2 Hfaults2.
  injection Hs1 as Hcwd1 Htmp1 Hfaults1.
  unfold finish, bind, try_except_Exception, perform, log, emit in H.
  rewrite Hfaults2, Hfaults1, Hcalm in H.
  assert (Hremove : remove zip_path w2 = inr (tt, root w)).
  { unfold remove. rewrite Hroot2, Hcwd2, Hcwd1.
    rewrite (FsFacts.resolve_store _ _ _ _ _ _ Hst), Hres.
    now rewrite (unlink_store_fresh _ _ _ _ Hfresh Hst). }
  rewrite Hremove in H. injection H as <-.
  cbn [record with_root root]. split; [reflexivity|].
  unfold surroundings, threads in *. cbn [record with_root cwd tmpdir faults
    stop_event observer_alive listening elapsed].
  split; congruence.
Qed.

(** The sample plugin, uploaded over FTP to a server that takes it. *)
Lemma upload_plugin_restores_tree_witness :
  let w := Samples.at_home Samples.plugin_tree Samples.calm in
  let run := upload_plugin (Samples.ftp_config false) w in
  fst run = Return tt
  /\ In (Did (ZipFile_open "/tmp/plugin.zip") None) (added w (snd run))
  /\ root (snd run) = Samples.plugin_tree.
Proof.
  intros w run.
  assert (Hrun : upload_plugin (Samples.ftp_config false) w
                 = (Return tt, snd run))
    by (vm_compute; reflexivity).
  split; [vm_compute; reflexivity|].
  split; [vm_compute; tauto|].
  exact (proj1 (upload_plugin_restores_tree
                  (Samples.ftp_config false) "plugin.zip" ["tmp"; "plugin.zip"]
                  w (snd run) eq_refl eq_refl eq_refl (fun _ => eq_refl) Hrun)).
Defined.

(** X8.  The configuration is read as it is needed. Without [plugin_name] or
    without [plugin_dir], [upload_plugin] raises the [KeyError] before it has
    created or called anything. Without [upload_method], it raises only after
    the archive has been built: no transport is called, no deletion is
    attempted, and the scratch archive stays where it was written. *)
Theorem upload_plugin_missing_keys (config : json) (w : world) :
  (forall e,
      subscript config "plugin_name" = inl e ->
      upload_plugin config w = (Raise e, w))
  /\ (forall name e,
        subscript config "plugin_name" = inr (JString name) ->
        subscript config "plugin_dir" = inl e ->
        upload_plugin config w = (Raise e, w))
  /\ (forall name dir e w1,
        subscript config "plugin_name" = inr (JString name) ->
        subscript config "plugin_dir" = inr dir ->
        subscript config "upload_method" = inl e ->
        create_zip_from_dir dir (Fs.os_path_join (tmpdir w) name) w
        = (Return tt, w1) ->
        upload_plugin config w = (Raise e, w1)
        /\ Forall zip_event (added w w1)
        /\ exists zp entries,
             Fs.resolve (root w) (cwd w) (Fs.os_path_join (tmpdir w) name)
             = Some zp
             /\ Fs.content_at (root w1) zp = Some (Fs.Archive entries)).
Proof.
  split; [|split].
  - intros e He. unfold upload_plugin, bind, gettempdir, item.
    now rewrite He.
  - intros name e Hname Hdir. unfold upload_plugin.
    rewrite (bind_return gettempdir _ w w (tmpdir w)) by reflexivity.
    rewrite (bind_return _ _ w w _ (item_return _ _ _ w Hname)).
    rewrite (bind_return (os_path_join (tmpdir w) (JString name)) _ w w
                         (Fs.os_path_join (tmpdir w) name))
      by reflexivity.
    unfold bind, item. now rewrite Hdir.
  - intros name dir e w1 Hname Hdir Hmethod Hzip.
    rewrite (upload_plugin_start _ _ _ _ Hname Hdir).
    rewrite (bind_return _ _ _ _ _ Hzip).
    split; [unfold bind, item; now rewrite Hmethod|].
    destruct (create_zip_adds _ _ _ _ _ Hzip) as (A & HA & FA).
    rewrite (TransportProps.added_app _ _ _ HA). split; [exact FA|].
    destruct (create_zip_result _ _ _ _ _ Hzip) as (_ & _ & Hbuilt).
    destruct (Hbuilt (or_intror eq_refl)) as (zp & entries & Hres & Hst).
    exists zp, entries. split; [exact Hres|].
    unfold Fs.content_at. now rewrite (FsFacts.store_lookup_same _ _ _ _ Hst).
Qed.

(** A configuration that names the archive and the directory and no
    method. *)
Lemma upload_plugin_missing_keys_witness :
  let w := Samples.at_home Samples.plugin_tree Samples.calm in
  let config := JObject [("plugin_dir", JString "/plug");
                         ("plugin_name", JString "plugin.zip")] in
  exists w1,
    upload_plugin config w = (Raise (KeyError "upload_method"), w1)
    /\ Forall zip_event (added w w1)
    /\ exists zp entries,
         Fs.content_at (root w1) zp = Some (Fs.Archive entries).
Proof.
  intros w config.
  assert (Hzip : create_zip_from_dir (JString "/plug")
                   (Fs.os_path_join (tmpdir w) "plugin.zip") w
                 = (Return tt,
                    snd (create_zip_from_dir (JString "/plug")
                           (Fs.os_path_join (tmpdir w) "plugin.zip") w)))
    by (vm_compute; reflexivity).
  destruct (proj2 (proj2 (upload_plugin_missing_keys config w))
                  "plugin.zip" (JString "/plug") (KeyError "upload_method") _
                  eq_refl eq_refl eq_refl Hzip)
    as (Hrun & Hz & zp & entries & _ & Hc).
  eexists. split; [exact Hrun|]. split; [exact Hz|].
  exists zp, entries. exact Hc.
Defined.

Lemma avoids_zip (other : call -> bool) (e : event) :
  (forall c, is_zip_call c = true -> other c = false) ->
  zip_event e -> avoids other e.
Proof. intros Ho. destruct e as [c o|lv m|c|p l|t|x]; simpl; try easy. auto. Qed.

Lemma avoids_transport (mine other : call -> bool) (e : event) :
  (forall c, mine c = true -> other c = false) ->
  transport_event mine e -> avoids other e.
Proof. intros Ho. destruct e as [c o|lv m|c|p l|t|x]; simpl; try easy. auto. Qed.

Lemma finish_adds (P : event -> Prop) (zip_path : string) :
  (forall o, P (Did (os_remove zip_path) o)) ->
  (forall lv m, P (Log lv m)) ->
  adds P (finish zip_path).
Proof.
  intros Hr Hl. unfold finish, log.
  apply adds_bind; [|intros _; apply adds_emit, Hl].
  apply adds_try; [apply adds_perform, Hr | intros e; apply adds_emit, Hl].
Qed.

(** A run of [upload_plugin] makes no call of the kind [other] when neither
    the archiver, nor the transport the method selects, nor the deletion
    does. *)
Lemma upload_plugin_selects (other : call -> bool) (config : json) :
  (forall c, is_zip_call c = true -> other c = false) ->
  (forall n, other (os_remove n) = false) ->
  (forall zip_path method,
      subscript config "upload_method" = inr method ->
      adds (avoids other) (dispatch config zip_path method)) ->
  adds (avoids other) (upload_plugin config).
Proof.
  intros Hzip Hrm Hbranch. unfold upload_plugin.
  apply adds_bind; [intros w r w' H; injection H as <- <-; exists [];
                    now rewrite app_nil_r | intros temp_dir].
  apply adds_bind; [apply adds_item | intros plugin_name].
  apply adds_bind; [destruct plugin_name; first [apply adds_ret | apply adds_raise]
                   | intros zip_path].
  apply adds_bind; [apply adds_item | intros plugin_dir].
  apply adds_bind;
    [apply (adds_weaken _ zip_event);
       [intros e; now apply avoids_zip | apply create_zip_adds]
    | intros _].
  intros w r w' H. unfold bind at 1 in H. unfold item at 1, lift at 1 in H.
  destruct (subscript config "upload_method") as [e|method] eqn:E.
  - injection H as <- <-. exists []. now rewrite app_nil_r.
  - cbv beta iota delta [ret] in H. revert H.
    apply adds_bind; [exact (Hbranch zip_path method eq_refl) | intros _].
    apply (finish_adds (avoids other)); [intros o; apply Hrm | intros; exact I].
Qed.

Lemma ftp_not_sftp (c : call) : is_ftp_call c = true -> is_sftp_call c = false.
Proof. now destruct c. Qed.

Lemma sftp_not_ftp (c : call) : is_sftp_call c = true -> is_ftp_call c = false.
Proof. now destruct c. Qed.

Lemma upload_plugin_one_transport (config : json) (w : world) :
  forall r w',
    upload_plugin config w = (r, w') ->
    exists l,
      history w' = history w ++ l
      /\ match subscript config "upload_method" with
         | inr method =>
             if equals method "ftp" then Forall (avoids is_sftp_call) l
             else if equals method "sftp" then Forall (avoids is_ftp_call) l
             else Forall (avoids is_transport_call) l
         | inl _ => Forall (avoids is_transport_call) l
         end.
Proof.
  intros r w' H.
  destruct (subscript config "upload_method") as [e|method] eqn:E.
  - revert H. apply upload_plugin_selects.
    + now destruct c.
    + reflexivity.
    + intros zip_path method Hm. congruence.
  - destruct (equals method "ftp") eqn:Ef;
      [|destruct (equals method "sftp") eqn:Es];
      revert H; apply upload_plugin_selects;
      try (now destruct c); try reflexivity;
      intros zip_path m Hm; assert (m = method) as -> by congruence;
      unfold dispatch; rewrite Ef.
    + apply (adds_weaken _ (transport_event is_ftp_call));
        [|apply upload_ftp_adds].
      intros e. apply avoids_transport, ftp_not_sftp.
    + intros v r0 v' Hv. unfold bind, item in Hv. rewrite E in Hv.
      cbn [lift] in Hv. cbv beta iota delta [ret] in Hv. rewrite Es in Hv.
      revert Hv.
      apply (adds_weaken _ (transport_event is_sftp_call));
        [|apply upload_sftp_adds].
      intros e. apply avoids_transport, sftp_not_ftp.
    + intros v r0 v' Hv. unfold bind, item in Hv. rewrite E in Hv.
      cbn [lift] in Hv. cbv beta iota delta [ret] in Hv. rewrite Es in Hv.
      revert Hv. apply adds_emit. exact I.
Qed.

(** X9.  A run of [upload_plugin] calls the transport its [upload_method]
    selects and no other: with ["ftp"] nothing of the SFTP client is called,
    with ["sftp"] nothing of the FTP client, and with any other value, or
    none, neither client is called at all. This holds however the run ends. *)
Theorem upload_plugin_calls_selected_transport (config : json) (w : world) :
  forall r w',
    upload_plugin config w = (r, w') ->
    history w' = history w ++ added w w'
    /\ match subscript config "upload_method" with
       | inr method =>
           if equals method "ftp" then
             Forall (avoids is_sftp_call) (added w w')
           else if equals method "sftp" then
             Forall (avoids is_ftp_call) (added w w')
           else Forall (avoids is_transport_call) (added w w')
       | inl _ => Forall (avoids is_transport_call) (added w w')
       end.
Proof.
  intros r w' H.
  destruct (upload_plugin_one_transport _ _ _ _ H) as (l & Hl & Hrest).
  rewrite (TransportProps.added_app _ _ _ Hl). split; [exact Hl | exact Hrest].
Qed.

(** The sample SFTP configuration: no call of the FTP client. *)
Lemma upload_plugin_calls_selected_transport_witness :
  let w := Samples.at_home Samples.plugin_tree Samples.calm in
  let run := upload_plugin Samples.sftp_config w in
  fst run = Return tt
  /\ Forall (avoids is_ftp_call) (added w (snd run)).
Proof.
  intros w run.
  assert (Hrun : upload_plugin Samples.sftp_config w = (fst run, snd run))
    by (vm_compute; reflexivity).
  split; [vm_compute; reflexivity|].
  exact (proj2 (upload_plugin_calls_selected_transport
                  Samples.sftp_config w _ _ Hrun)).
Defined.




End ScratchProps.

(* ================================================================= *)
(** ** Loading the configuration again *)

Module StartupProps.
Import Chars Json Py Uploader Trace.
Local Open Scope py_scope.

(** What [load_config] does depends on the files, the working directory
    and the failures in store only. *)
Lemma load_config_existing (w : world) (p : Fs.path) (text : string)
                           (d : json) :
  Fs.resolve (root w) (cwd w) CONFIG_FILE = Some p ->
  Fs.lookup p (root w) = Some (Fs.File (Fs.Bytes text)) ->
  loads text = Parsed d ->
  faults w (history w) (open_r CONFIG_FILE) = None ->
  load_config w
  = (Return d, record (Did (open_r CONFIG_FILE) None) (with_root (root w) w)).
Proof.
  intros Hres Hfile Hparse Hcalm.
  unfold load_config, os_path_exists, Fs.exists_at.
  rewrite Hres, Hfile. unfold bind, perform, read, json_load.
  cbn [negb]. now rewrite Hcalm, Hres, Hfile, Hparse.
Qed.

(** A successful [load_config] leaves a file that holds the value it
    returned. *)
Lemma load_config_leaves_document (w w1 : world) (d : json) :
  load_config w = (Return d, w1) ->
  cwd w1 = cwd w /\ faults w1 = faults w
  /\ exists p text,
       Fs.resolve (root w1) (cwd w1) CONFIG_FILE = Some p
       /\ Fs.lookup p (root w1) = Some (Fs.File (Fs.Bytes text))
       /\ loads text = Parsed d.
Proof.
  intros H. unfold load_config in H.
  destruct (os_path_exists CONFIG_FILE w) eqn:Hex; cbn [negb] in H.
  - unfold bind, perform in H.
    destruct (faults w (history w) (open_r CONFIG_FILE)); [discriminate|].
    destruct (read CONFIG_FILE w) as [msg|[c r]] eqn:Hr; [discriminate|].
    unfold read in Hr.
    destruct (Fs.resolve (root w) (cwd w) CONFIG_FILE) as [p|] eqn:Hres;
      [|discriminate].
    destruct (Fs.lookup p (root w)) as [[c0|es]|] eqn:Hl; try discriminate.
    injection Hr as <- <-.
    unfold json_load in H. destruct c0 as [text|entries]; [|discriminate].
    destruct (loads text) as [v|] eqn:Hp; [|discriminate].
    injection H as <- <-. cbn [record with_root root cwd faults].
    split; [reflexivity|]. split; [reflexivity|].
    exists p, text. auto.
  - unfold bind, log, emit, perform in H.
    cbn [record history faults] in H.
    destruct (faults w _ (open_w CONFIG_FILE)); [discriminate|].
    destruct (write CONFIG_FILE (Fs.Bytes (dumps 4 DEFAULT_CONFIG)) _)
      as [msg|[[] r]] eqn:Hw; [discriminate|].
    injection H as <- <-. cbn [record with_root root cwd faults].
    unfold write in Hw. cbn [record root cwd] in Hw.
    destruct (Fs.resolve (root w) (cwd w) CONFIG_FILE) as [p|] eqn:Hres;
      [|discriminate].
    destruct (Fs.store p (Fs.Bytes (dumps 4 DEFAULT_CONFIG)) (root w))
      as [r'|] eqn:Hst; [|discriminate].
    injection Hw as <-.
    split; [reflexivity|]. split; [reflexivity|].
    exists p, (dumps 4 DEFAULT_CONFIG).
    rewrite (FsFacts.resolve_store _ _ _ _ _ _ Hst), Hres.
    rewrite (FsFacts.store_lookup_same _ _ _ _ Hst).
    split; [reflexivity|]. split; [reflexivity|].
    apply ConfigProps.default_config_round_trip.
Qed.

(** X11.  [load_config] settles: after a call that returned, whether it read
    the file or wrote the defaults, a second call finds the file, writes
    nothing, and returns the same configuration. *)
Theorem load_config_twice (w w1 : world) (d : json) :
  load_config w = (Return d, w1) ->
  faults w (history w1) (open_r CONFIG_FILE) = None ->
  exists w2,
    load_config w1 = (Return d, w2)
    /\ root w2 = root w1
    /\ history w2 = history w1 ++ [Did (open_r CONFIG_FILE) None].
Proof.
  intros H Hcalm.
  destruct (load_config_leaves_document _ _ _ H)
    as (Hcwd & Hf & p & text & Hres & Hfile & Hparse).
  rewrite <- Hf in Hcalm.
  rewrite (load_config_existing w1 p text d Hres Hfile Hparse Hcalm).
  eexists. split; [reflexivity|]. split; reflexivity.
Qed.

(** A first start in an empty working directory, then a second one. *)
Lemma load_config_twice_witness :
  let w := Samples.at_home Samples.plugin_tree Samples.calm in
  let w1 := snd (load_config w) in
  os_path_exists CONFIG_FILE w = false
  /\ exists w2, load_config w1 = (Return DEFAULT_CONFIG, w2)
                /\ root w2 = root w1.
Proof.
  intros w w1. split; [reflexivity|].
  assert (Hrun : load_config w = (Return DEFAULT_CONFIG, w1))
    by (vm_compute; reflexivity).
  destruct (load_config_twice w w1 DEFAULT_CONFIG Hrun eq_refl)
    as (w2 & H2 & Hr & _).
  exists w2. split; assumption.
Defined.

(** X12.  A configuration file that parses and has no [auto_upload] entry, or
    that holds something that is no object, ends the script with the
    [KeyError] or [TypeError] of [config["auto_upload"]] as soon as it is
    loaded: no mode is entered, nothing is watched, and no command is read. *)
Theorem main_needs_auto_upload (w : world) (p : Fs.path) (text : string)
                               (d : json) (e : exn) (ticks : list tick) :
  Fs.resolve (root w) (cwd w) CONFIG_FILE = Some p ->
  Fs.lookup p (root w) = Some (Fs.File (Fs.Bytes text)) ->
  loads text = Parsed d ->
  (forall h, faults w h (open_r CONFIG_FILE) = None) ->
  subscript d "auto_upload" = inl e ->
  exists w',
    main ticks w = (Raise e, w')
    /\ root w' = root w
    /\ added w w'
       = [Log INFO [Lit "插件自动化更新程序已启动，开始加载配置..."];
          Did (open_r CONFIG_FILE) None].
Proof.
  intros Hres Hfile Hparse Hcalm Hkey.
  eexists. split; [|split].
  - unfold main. unfold bind at 1. unfold log at 1, emit at 1.
    unfold bind at 1.
    rewrite (load_config_existing _ p text d); try assumption;
      [|apply Hcalm].
    unfold bind at 1. unfold bind at 1. unfold item, lift.
    rewrite Hkey. reflexivity.
  - reflexivity.
  - apply TransportProps.added_app.
    cbn [with_stop_event record with_root history].
    now rewrite <- app_assoc.
Qed.

(** A configuration file that holds a list. *)
Lemma main_needs_auto_upload_witness :
  let w := Samples.at_home (Samples.configured "[1, 2]") Samples.calm in
  exists w',
    main [{| modified := []; typed := ["upload"]; interrupt := false |}] w
    = (Raise (TypeError "list indices must be integers or slices, not str"),
       w')
    /\ root w' = root w.
Proof.
  intros w.
  assert (Hparse : loads "[1, 2]" = Parsed (JArray [JInt 1; JInt 2]))
    by (vm_compute; reflexivity).
  destruct (main_needs_auto_upload w ["home"; "config.json"] "[1, 2]" _
              (TypeError "list indices must be integers or slices, not str")
              [{| modified := []; typed := ["upload"]; interrupt := false |}]
              eq_refl eq_refl Hparse (fun _ => eq_refl) eq_refl)
    as (w' & Hrun & Hr & _).
  exists w'. split; assumption.
Defined.

End StartupProps.

(* ================================================================= *)
(** ** Leaving the automatic mode *)

Module AutoModeProps.
Import Chars Json Py Uploader Trace Steps TraceFacts FrameFacts.
Import OrchestratorProps TransportProps WatcherProps MainProps ScratchProps.
Local Open Scope py_scope.

Lemma alive_refl (w : world) : alive_unless_died w w.
Proof. exists []. rewrite app_nil_r. auto. Qed.

Lemma alive_trans (w w1 w2 : world) :
  alive_unless_died w w1 -> alive_unless_died w1 w2 -> alive_unless_died w w2.
Proof.
  intros (l1 & H1 & A1) (l2 & H2 & A2). exists (l1 ++ l2).
  rewrite H2, H1, app_assoc. split; [reflexivity|].
  destruct A2 as [A2|[e He]].
  - destruct A1 as [A1|[e He]].
    + left. congruence.
    + right. exists e. apply in_or_app. auto.
  - right. exists e. apply in_or_app. auto.
Qed.

(** A computation that adds to the history and leaves the threads alone. *)
Lemma alive_quiet {A : Type} (P : event -> Prop) (m : M A) (w w' : world)
                  (r : result A) :
  adds P m -> preserves threads m -> m w = (r, w') -> alive_unless_died w w'.
Proof.
  intros Ha Hp H. destruct (Ha _ _ _ H) as (l & Hl & _).
  exists l. split; [exact Hl|]. left.
  apply Hp in H. unfold threads in H. congruence.
Qed.

Lemma create_zip_preserves_threads (directory : json) (zip_name : string) :
  preserves threads (create_zip_from_dir directory zip_name).
Proof. intros w r w' H. now apply create_zip_result in H. Qed.

Lemma upload_plugin_preserves_threads (config : json) :
  preserves threads (upload_plugin config).
Proof.
  unfold upload_plugin.
  apply preserves_bind; [intros w r w' H; now injection H as <- <-
                        | intros temp_dir].
  apply preserves_bind; [apply preserves_item | intros plugin_name].
  apply preserves_bind;
    [destruct plugin_name; first [apply preserves_ret | apply preserves_raise]
    | intros zip_path].
  apply preserves_bind; [apply preserves_item | intros plugin_dir].
  apply preserves_bind; [apply create_zip_preserves_threads | intros _].
  apply preserves_bind; [apply preserves_item | intros method].
  apply preserves_bind;
    [apply (dispatch_preserves threads); reflexivity | intros _].
  apply preserves_bind; [|intros _; apply preserves_emit; reflexivity].
  apply preserves_try; [|intros e; apply preserves_emit; reflexivity].
  apply preserves_perform; reflexivity.
Qed.

Lemma handler_dispatch_preserves_threads (config : json) (event : fs_event) :
  preserves threads (handler_dispatch config event).
Proof.
  unfold handler_dispatch, on_modified.
  destruct (kind event); try apply preserves_ret.
  destruct (is_directory event); [apply preserves_ret|].
  destruct (endswith (src_path event) ".py"); [|apply preserves_ret].
  apply preserves_bind; [apply preserves_emit; reflexivity | intros _].
  apply upload_plugin_preserves_threads.
Qed.

Lemma observer_dispatch_alive (config : json) (events : list fs_event) :
  forall w r w',
    observer_dispatch config events w = (r, w') -> alive_unless_died w w'.
Proof.
  induction events as [|event rest IH]; intros w r w' H; simpl in H.
  - injection H as <- <-. apply alive_refl.
  - destruct (observer_alive w); [|injection H as <- <-; apply alive_refl].
    destruct (handler_dispatch config event w) as [[u|e|] w1] eqn:Eh;
      pose proof (alive_quiet _ _ _ _ _ (handler_dispatch_adds _ _)
                              (handler_dispatch_preserves_threads _ _) Eh)
        as H1.
    + exact (alive_trans _ _ _ H1 (IH _ _ _ H)).
    + injection H as <- <-. apply (alive_trans _ _ _ H1).
      exists [ObserverDied e]. split; [reflexivity|].
      right. exists e. now left.
    + injection H as <- <-. exact H1.
Qed.

Lemma listen_preserves_alive (lines : list string) :
  preserves observer_alive (listen lines).
Proof.
  induction lines as [|command rest IH]; simpl.
  - apply preserves_ret.
  - apply preserves_bind; [apply preserves_emit; reflexivity | intros _].
    destruct (String.eqb (lower command) "exit"); [|exact IH].
    intros w r w' H. now injection H as <- <-.
Qed.

Lemma listener_feed_alive (lines : list string) (w w' : world)
                          (r : result unit) :
  listener_feed lines w = (r, w') -> alive_unless_died w w'.
Proof.
  intros H. destruct (listener_feed_adds _ _ _ _ H) as (l & Hl & _).
  exists l. split; [exact Hl|]. left.
  unfold listener_feed in H. destruct (listening w).
  - destruct (listen lines w) as [[[|]|e|] w1] eqn:El;
      apply listen_preserves_alive in El; injection H as <- <-; exact El.
  - now injection H as <- <-.
Qed.

Lemma sleep_alive (config : json) (t : tick) (w w' : world) (r : result unit) :
  sleep config t w = (r, w') -> alive_unless_died w w'.
Proof.
  unfold sleep, bind, emit. intros H.
  set (w0 := slept (record (Did time_sleep None) w)) in H.
  assert (H0 : alive_unless_died w w0)
    by (exists [Did time_sleep None]; split; [reflexivity | now left]).
  destruct (observer_dispatch config (modified t) w0) as [[u|e|] w1] eqn:Ed;
    pose proof (alive_trans _ _ _ H0 (observer_dispatch_alive _ _ _ _ _ Ed))
      as H1.
  - destruct (listener_feed (typed t) w1) as [[v|e|] w2] eqn:El;
      pose proof (alive_trans _ _ _ H1 (listener_feed_alive _ _ _ _ El)) as H2.
    + destruct (interrupt t); injection H as <- <-; exact H2.
    + injection H as <- <-. exact H2.
    + injection H as <- <-. exact H2.
  - injection H as <- <-. exact H1.
  - injection H as <- <-. exact H1.
Qed.

Lemma poll_alive (config : json) (ticks : list tick) :
  forall w r w', poll config ticks w = (r, w') -> alive_unless_died w w'.
Proof.
  induction ticks as [|t rest IH]; intros w r w' H; simpl in H.
  - destruct (stop_event w); injection H as <- <-; apply alive_refl.
  - destruct (stop_event w); [injection H as <- <-; apply alive_refl|].
    unfold bind in H.
    destruct (sleep config t w) as [[u|e|] w1] eqn:Es;
      pose proof (sleep_alive _ _ _ _ _ Es) as H1.
    + exact (alive_trans _ _ _ H1 (IH _ _ _ H)).
    + injection H as <- <-. exact H1.
    + injection H as <- <-. exact H1.
Qed.

Lemma unwatched_no_start (l : list event) :
  Forall unwatched l -> ~ In (Did Observer_start None) l.
Proof.
  intros F Hin. rewrite Forall_forall in F. now apply F in Hin.
Qed.

(** The runs of [start_watcher] without a [KeyboardInterrupt] that do not
    block. *)
Lemma start_watcher_ends (global_config config : json) (ticks : list tick)
                         (w : world) :
  Forall uninterrupted_tick ticks ->
  forall r w',
    start_watcher global_config config ticks w = (r, w') ->
    exists l,
      history w' = history w ++ l
      /\ (r = Return tt -> exists e, In (ObserverDied e) l)
      /\ (forall x, r = Raise x -> ~ In (Did Observer_start None) l).
Proof.
  intros Hq r w' H. unfold start_watcher in H.
  unfold bind at 1 in H. unfold item, lift in H.
  destruct (subscript config "plugin_dir") as [e|plugin_dir].
  { injection H as <- <-. exists []. rewrite app_nil_r.
    split; [reflexivity|]. split; [discriminate | intros x _ []]. }
  cbv beta iota delta [ret] in H.
  unfold bind at 1 in H. unfold invoke at 1, perform at 1 in H.
  destruct (faults w (history w) (Observer_schedule plugin_dir)) as [msg|].
  { injection H as <- <-. eexists. split; [reflexivity|].
    split; [discriminate | intros x _ Hin; member Hin]. }
  unfold bind at 1 in H. unfold observer_start at 1 in H.
  unfold bind at 1 in H. unfold invoke at 1, perform at 1 in H.
  cbn [record with_root history faults] in H.
  destruct (faults w (history w ++ [Did (Observer_schedule plugin_dir) None])
                   Observer_start) as [msg|].
  { injection H as <- <-. eexists.
    cbn [record with_root history]. rewrite <- app_assoc.
    split; [reflexivity|]. cbn [app].
    split; [discriminate | intros x _ Hin; member Hin]. }
  match type of H with
  | _ ?v = _ => set (w0 := v) in H
  end.
  assert (Hw0 : history w0 = history w ++ [Did (Observer_schedule plugin_dir) None;
                                           Did Observer_start None]).
  { subst w0. cbn [with_observer_alive record with_root history].
    now rewrite <- app_assoc. }
  assert (Ha0 : observer_alive w0 = true) by reflexivity.
  unfold bind at 1 in H. unfold try_except_KeyboardInterrupt in H.
  destruct (poll global_config ticks w0) as [[[]|e|] w1] eqn:Ep.
  - destruct (poll_alive _ _ _ _ _ Ep) as (l & Hl & Hlive).
    unfold observer_join in H.
    destruct (observer_alive w1) eqn:Ea; injection H as <- <-.
    + eexists. cbn [record history]. rewrite Hl, Hw0, <- !app_assoc.
      split; [reflexivity|]. split; discriminate.
    + eexists. cbn [record history]. rewrite Hl, Hw0, <- !app_assoc.
      split; [reflexivity|]. cbn [app]. split; [|discriminate].
      intros _. destruct Hlive as [Hsame|[e He]]; [congruence|].
      exists e. right. right. apply in_or_app. now left.
  - now apply (poll_no_raise _ _ Hq) in Ep.
  - injection H as <- <-.
    destruct (poll_adds _ _ _ _ _ Ep) as (l & Hl & Fl).
    eexists. rewrite Hl, Hw0, <- !app_assoc.
    split; [reflexivity|]. split; discriminate.
Qed.

Lemma uninterrupted_ticks (ticks : list tick) :
  Forall uninterrupted_tick (map uninterrupted ticks).
Proof. induction ticks; constructor; [reflexivity | assumption]. Qed.

Lemma main_auto_exit (ticks : list tick) (w w1 : world) (config flag : json) :
  load_config
    (record (Log INFO [Lit "插件自动化更新程序已启动，开始加载配置..."]) w)
  = (Return config, w1) ->
  subscript config "auto_upload" = inr flag ->
  truthy flag = true ->
  forall w',
    main ticks w = (Return tt, w') ->
    exists l,
      history w' = history w ++ l
      /\ (In (Did Observer_start None) l -> exists e, In (ObserverDied e) l).
Proof.
  intros Hload Hflag Htrue w' H.
  unfold main, bind, log, emit, item, lift in H.
  rewrite Hload, Hflag in H. cbv beta iota delta [ret] in H.
  rewrite Htrue in H.
  match type of H with
  | context [start_watcher config config _ ?v] => set (wa := v) in H
  end.
  destruct (start_watcher config config (map uninterrupted ticks) wa)
    as [watcher w2] eqn:Ew.
  cbv beta iota zeta in H.
  match type of H with
  | context [listener_feed ?ls w2] =>
      destruct (listener_feed ls w2) as [u w3] eqn:El
  end.
  destruct (listening w3); [discriminate|].
  destruct (load_config_adds _ _ _ Hload) as (l1 & H1 & F1).
  destruct (start_watcher_ends _ _ _ _ (uninterrupted_ticks ticks) _ _ Ew)
    as (l2 & H2 & Hret & Hraise).
  destruct (listener_feed_adds _ _ _ _ El) as (l3 & H3 & F3).
  assert (Hall : forall v, history v = history w3 ++ [Log INFO [Lit "程序已退出"]] ->
             history v
             = history w
               ++ Log INFO [Lit "插件自动化更新程序已启动，开始加载配置..."]
                  :: l1 ++ Log INFO [Lit "启用自动上传模式，开始监视文件变化..."]
                  :: l2 ++ l3 ++ [Log INFO [Lit "程序已退出"]]).
  { intros v Hv. rewrite Hv, H3, H2. subst wa.
    cbn [with_listening record with_stop_event history]. rewrite H1.
    cbn [record history]. now rewrite <- !app_assoc. }
  destruct watcher as [[]|x|]; [| |discriminate]; injection H as <-;
    eexists; (split; [apply Hall; reflexivity|]).
  - intros _. destruct (Hret eq_refl) as (e & He). exists e.
    right. apply in_or_app. right. right. apply in_or_app. now left.
  - intros Hin. exfalso.
    destruct Hin as [Hin|Hin]; [discriminate|].
    apply in_app_or in Hin. destruct Hin as [Hin|Hin];
      [now apply unwatched_no_start in Hin|].
    destruct Hin as [Hin|Hin]; [discriminate|].
    apply in_app_or in Hin. destruct Hin as [Hin|Hin];
      [now apply (Hraise x eq_refl) in Hin|].
    apply in_app_or in Hin. destruct Hin as [Hin|Hin];
      [now apply unwatched_no_start in Hin|].
    destruct Hin as [Hin|[]]. discriminate.
Qed.

(** X13.  In automatic mode the script never calls [observer.stop()], so once
    the observer has been started the script ends normally only in runs in
    which the observer thread died of an exception that left the handler:
    typing the exit word is not enough to end a script whose observer is
    running. *)
Theorem auto_mode_exit_needs_dead_observer
        (ticks : list tick) (w w1 : world) (config flag : json) :
  load_config
    (record (Log INFO [Lit "插件自动化更新程序已启动，开始加载配置..."]) w)
  = (Return config, w1) ->
  subscript config "auto_upload" = inr flag ->
  truthy flag = true ->
  forall w',
    main ticks w = (Return tt, w') ->
    history w' = history w ++ added w w'
    /\ (In (Did Observer_start None) (added w w') ->
        exists e, In (ObserverDied e) (added w w')).
Proof.
  intros Hload Hflag Htrue w' H.
  destruct (main_auto_exit _ _ _ _ _ Hload Hflag Htrue _ H) as (l & Hl & Hrest).
  rewrite (added_app _ _ _ Hl). split; [exact Hl | exact Hrest].
Qed.

(** A configuration that names no archive: the first change of a [.py]
    file kills the observer thread, and the exit word then ends the
    script. *)
Lemma auto_mode_exit_needs_dead_observer_witness :
  let d := JObject [("plugin_dir", JString "/plug");
                    ("auto_upload", JBool true)] in
  let w := Samples.at_home (Samples.configured (dumps 4 d)) Samples.calm in
  let ticks :=
    [{| modified := [{| kind := Modified; is_directory := false;
                        src_path := "/plug/plugin.py" |}];
        typed := ["exit"]; interrupt := false |}] in
  fst (main ticks w) = Return tt
  /\ In (Did Observer_start None) (added w (snd (main ticks w)))
  /\ exists e, In (ObserverDied e) (added w (snd (main ticks w))).
Proof.
  intros d w ticks.
  assert (Hload : load_config
            (record (Log INFO [Lit "插件自动化更新程序已启动，开始加载配置..."]) w)
            = (Return d,
               snd (load_config
                      (record (Log INFO
                         [Lit "插件自动化更新程序已启动，开始加载配置..."]) w))))
    by (vm_compute; reflexivity).
  assert (Hrun : main ticks w = (Return tt, snd (main ticks w)))
    by (vm_compute; reflexivity).
  assert (Hstart : In (Did Observer_start None) (added w (snd (main ticks w))))
    by (vm_compute; tauto).
  split; [now rewrite Hrun|]. split; [exact Hstart|].
  exact (proj2 (auto_mode_exit_needs_dead_observer ticks w _ d (JBool true)
                  Hload eq_refl eq_refl _ Hrun) Hstart).
Defined.

End AutoModeProps.

(* ================================================================= *)
(** ** Which paths the handler reacts to *)

Module HandlerProps.
Import Chars Json Py Uploader Trace.
Local Open Scope py_scope.

Lemma starts_with_prefix (p s : list ascii) :
  starts_with p s = true <-> exists r, s = p ++ r.
Proof.
  revert s. induction p as [|a p IH]; intros s; simpl.
  - split; [intros _; now exists s | reflexivity].
  - destruct s as [|b s].
    + split; [discriminate | intros [r Hr]; discriminate].
    + rewrite andb_true_iff, IH, Ascii.eqb_eq. split.
      * intros [-> [r ->]]. now exists r.
      * intros [r Hr]. injection Hr as -> ->. split; [reflexivity|].
        now exists r.
Qed.

Lemma list_ascii_of_string_append (a b : string) :
  list_ascii_of_string (a ++ b)
  = list_ascii_of_string a ++ list_ascii_of_string b.
Proof. induction a as [|c a IH]; simpl; [reflexivity | now rewrite IH]. Qed.

(** [s.endswith(suffix)] holds exactly of the strings that are [suffix]
    with something in front. *)
Lemma endswith_suffix (s suffix : string) :
  endswith s suffix = true <-> exists stem, s = (stem ++ suffix)%string.
Proof.
  unfold endswith. rewrite starts_with_prefix. split.
  - intros [r Hr]. exists (string_of_list_ascii (rev r)).
    apply (f_equal (@rev ascii)) in Hr.
    rewrite rev_involutive, rev_app_distr, rev_involutive in Hr.
    rewrite <- (string_of_list_ascii_of_string s), Hr.
    rewrite <- (string_of_list_ascii_of_string
                  (string_of_list_ascii (rev r) ++ suffix)).
    now rewrite list_ascii_of_string_append, list_ascii_of_string_of_list_ascii.
  - intros [stem ->]. exists (rev (list_ascii_of_string stem)).
    now rewrite list_ascii_of_string_append, rev_app_distr.
Qed.

(** X14.  Whether [on_modified] starts an upload depends on the event's path
    as a string only, and on the case of its letters: for a path that is some
    stem followed by [.py] and is not reported as a directory, it logs the
    change and runs [upload_plugin]; for a path that is not of that form, such
    as one ending in [.PY] or [.pyc], it does nothing. *)
Theorem on_modified_reacts_to_py_suffix (config : json) (event : fs_event)
                                        (w : world) :
  (forall stem,
      src_path event = (stem ++ ".py")%string ->
      is_directory event = false ->
      on_modified config event w
      = upload_plugin config
          (record (Log INFO [Lit "检测到文件变更: "; Lit (src_path event);
                             Lit ", 正在重新打包并上传..."]) w))
  /\ ((forall stem, src_path event <> (stem ++ ".py")%string) ->
      on_modified config event w = (Return tt, w)).
Proof.
  split.
  - intros stem Hpath Hfile.
    assert (Hpy : endswith (src_path event) ".py" = true)
      by (apply endswith_suffix; now exists stem).
    unfold on_modified. now rewrite Hfile, Hpy.
  - intros Hnot. unfold on_modified.
    destruct (is_directory event); [reflexivity|].
    destruct (endswith (src_path event) ".py") eqn:Hpy; [|reflexivity].
    apply endswith_suffix in Hpy. destruct Hpy as [stem Hstem].
    now destruct (Hnot stem).
Qed.

(** A compiled file next to a source file. *)
Lemma on_modified_reacts_to_py_suffix_witness :
  let w := Samples.at_home Samples.plugin_tree Samples.calm in
  let changed (p : string) :=
    {| kind := Modified; is_directory := false; src_path := p |} in
  on_modified JNull (changed "/plug/plugin.py") w
  = upload_plugin JNull
      (record (Log INFO [Lit "检测到文件变更: "; Lit "/plug/plugin.py";
                         Lit ", 正在重新打包并上传..."]) w)
  /\ on_modified JNull (changed "/plug/plugin.pyc") w = (Return tt, w).
Proof.
  intros w changed. split.
  - exact (proj1 (on_modified_reacts_to_py_suffix
                    JNull (changed "/plug/plugin.py") w)
                 "/plug/plugin" eq_refl eq_refl).
  - apply (proj2 (on_modified_reacts_to_py_suffix
                    JNull (changed "/plug/plugin.pyc") w)).
    intros stem Hstem.
    assert (Hpy : endswith "/plug/plugin.pyc" ".py" = true)
      by (apply endswith_suffix; now exists stem).
    discriminate Hpy.
Defined.

End HandlerProps.
